(** * Verification of the poker engine: hand evaluator, game state machine, AI.

    Shallow embedding of [hand-evaluator.js], [poker-engine.js] and the
    [PokerAI] class.  Card ranks and hand categories are JS integers and are
    modelled as [Z].  Chip amounts are modelled as exact rationals [Q]: the
    AI's bet sizes are fractional (e.g. [calculateRaiseSize] returns a
    multiplier such as 1.7), so stacks and the pot are not integers in
    general.  JS floating point rounding is not modelled. *)

From Stdlib Require Import ZArith QArith Qminmax Qround List Lia Lqa Bool Permutation Sorted.
Import ListNotations.
From Stdlib Require Strings.String.
Import Stdlib.Strings.String.StringSyntax.

(** ** Generic helpers mirroring JS array primitives *)
Module JS.

(** [Array.prototype.sort] with a comparator: a stable sort, modelled as an
    insertion sort; [x] is placed before [y] when [cmp x y <= 0]. *)
Fixpoint insertBy {A} (cmp : A -> A -> Z) (x : A) (l : list A) : list A :=
  match l with
  | [] => [x]
  | y :: t => if (cmp x y <=? 0)%Z then x :: y :: t else y :: insertBy cmp x t
  end.

Definition sortBy {A} (cmp : A -> A -> Z) (l : list A) : list A :=
  fold_right (insertBy cmp) [] l.

(** [arr.find(p)]: the first element satisfying [p], [undefined] as [None]. *)
Definition find {A} (p : A -> bool) (l : list A) : option A :=
  List.find p l.

(** A [for ... of] loop that returns the first non-null result. *)
Fixpoint firstSome {A B} (f : A -> option B) (l : list A) : option B :=
  match l with
  | [] => None
  | x :: t => match f x with Some r => Some r | None => firstSome f t end
  end.

(** [[...new Set(l)]]: first occurrences, in insertion order. *)
Definition setOf (l : list Z) : list Z :=
  fold_left (fun acc x => if existsb (Z.eqb x) acc then acc else acc ++ [x]) l [].

Definition includes (l : list Z) (x : Z) : bool := existsb (Z.eqb x) l.

End JS.

(** ** Cards (poker-engine.js, [createDeck]) *)
Inductive Suit := hearts | diamonds | clubs | spades.

Definition Suit_eqb (a b : Suit) : bool :=
  match a, b with
  | hearts, hearts | diamonds, diamonds | clubs, clubs | spades, spades => true
  | _, _ => false
  end.

Module Card.
(** The source card also carries [rank] (a string), [id] and [unicode],
    all derived from [value] and [suit] and used for display only. *)
Record t := mk { value : Z; suit : Suit }.
End Card.

(** ** HandEvaluator (hand-evaluator.js) *)
Module HandEvaluator.
Import JS.

Module EvalCard.
Record t := mk { rank : Z; suit : Suit }.
End EvalCard.

Module HandResult.
(** The source object also has [name] (= [HAND_NAMES[rank]]) and the
    contributing [cards]; no comparison reads them. *)
Record t := mk { rank : Z; kickers : list Z }.
End HandResult.

Abbreviation rank := EvalCard.rank.
Abbreviation esuit := EvalCard.suit.

Local Open Scope Z_scope.

Definition HIGH_CARD := 1%Z.
Definition PAIR := 2%Z.
Definition TWO_PAIR := 3%Z.
Definition THREE_OF_A_KIND := 4%Z.
Definition STRAIGHT := 5%Z.
Definition FLUSH := 6%Z.
Definition FULL_HOUSE := 7%Z.
Definition FOUR_OF_A_KIND := 8%Z.
Definition STRAIGHT_FLUSH := 9%Z.
Definition ROYAL_FLUSH := 10%Z.

(** [(a, b) => b.rank - a.rank] *)
Definition byRankDesc (a b : EvalCard.t) : Z := (rank b - rank a)%Z.
(** [(a, b) => b - a] *)
Definition numDesc (a b : Z) : Z := (b - a)%Z.

(** [getRankCounts]: the object [counts]; [Object.entries] lists its
    integer keys in ascending numeric order (ranks are 2..14), so it is
    kept as an association list sorted by rank. *)
Fixpoint bump (r : Z) (m : list (Z * nat)) : list (Z * nat) :=
  match m with
  | [] => [(r, 1%nat)]
  | (k, c) :: t =>
      if (r =? k)%Z then (k, S c) :: t
      else if (r <? k)%Z then (r, 1%nat) :: m
      else (k, c) :: bump r t
  end.

Definition getRankCounts (cards : list EvalCard.t) : list (Z * nat) :=
  fold_left (fun m c => bump (rank c) m) cards [].

(** [getFlushCards]: suit groups in order of first appearance (string
    keys), each group sorted by rank descending. *)
Fixpoint pushSuit (c : EvalCard.t) (g : list (Suit * list EvalCard.t))
  : list (Suit * list EvalCard.t) :=
  match g with
  | [] => [(esuit c, [c])]
  | (s, cs) :: t =>
      if Suit_eqb s (esuit c) then (s, cs ++ [c]) :: t
      else (s, cs) :: pushSuit c t
  end.

Definition suitGroups (cards : list EvalCard.t) : list (Suit * list EvalCard.t) :=
  fold_left (fun g c => pushSuit c g) cards [].

(** [Object.values(getFlushCards(cards))] *)
Definition getFlushCards (cards : list EvalCard.t) : list (list EvalCard.t) :=
  map (fun sg => sortBy byRankDesc (snd sg)) (suitGroups cards).

(** [findStraight]: only the reported [high] is kept (the [cards] part is
    display data).  The regular-straight loop runs [i] from 0 while
    [i <= uniqueRanks.length - 5]; [scanStraight] walks the suffixes. *)
Fixpoint scanStraight (u : list Z) : option Z :=
  match u with
  | [] => None
  | a :: t =>
      match nth_error u 4 with
      | Some e => if (a - e =? 4)%Z then Some a else scanStraight t
      | None => None
      end
  end.

Definition findStraight (cards : list EvalCard.t) : option Z :=
  let uniqueRanks := sortBy numDesc (setOf (map rank cards)) in
  if includes uniqueRanks 14 && includes uniqueRanks 5 &&
     includes uniqueRanks 4 && includes uniqueRanks 3 && includes uniqueRanks 2
  then Some 5%Z
  else scanStraight uniqueRanks.

(** [checkRoyalFlush].  The source's first test [flushCards.length < 5]
    reads [length] of a plain object, i.e. [undefined < 5], which is
    false: it never returns there. *)
Definition checkRoyalFlush (cards : list EvalCard.t) : option HandResult.t :=
  firstSome (fun suitCards =>
    if (5 <=? length suitCards)%nat then
      match sortBy numDesc (map rank suitCards) with
      | r0 :: r1 :: r2 :: r3 :: r4 :: _ =>
          if (r0 =? 14) && (r1 =? 13) && (r2 =? 12) && (r3 =? 11) && (r4 =? 10)
          then Some (HandResult.mk ROYAL_FLUSH [14%Z])
          else None
      | _ => None
      end
    else None) (getFlushCards cards).

Definition checkStraightFlush (cards : list EvalCard.t) : option HandResult.t :=
  firstSome (fun suitCards =>
    if (5 <=? length suitCards)%nat then
      match findStraight suitCards with
      | Some high => Some (HandResult.mk STRAIGHT_FLUSH [high])
      | None => None
      end
    else None) (getFlushCards cards).

Definition checkFourOfAKind (cards : list EvalCard.t) : option HandResult.t :=
  firstSome (fun '(r, count) =>
    if (4 <=? count)%nat then
      let kicker := find (fun c => negb (rank c =? r)) cards in
      Some (HandResult.mk FOUR_OF_A_KIND
              [r; match kicker with Some k => rank k | None => 0 end])
    else None) (getRankCounts cards).

(** [checkFullHouse]; [if (!threeRank)] also rejects the rank 0. *)
Definition checkFullHouse (cards : list EvalCard.t) : option HandResult.t :=
  let rankCounts := getRankCounts cards in
  match find (fun rc => (3 <=? snd rc)%nat) rankCounts with
  | None => None
  | Some (threeRank, _) =>
      if (threeRank =? 0)%Z then None else
      match find (fun rc => negb (fst rc =? threeRank) && (2 <=? snd rc)%nat)
                 rankCounts with
      | None => None
      | Some (pairRank, _) =>
          if (pairRank =? 0)%Z then None
          else Some (HandResult.mk FULL_HOUSE [threeRank; pairRank])
      end
  end.

Definition checkFlush (cards : list EvalCard.t) : option HandResult.t :=
  firstSome (fun suitCards =>
    if (5 <=? length suitCards)%nat then
      Some (HandResult.mk FLUSH (map rank (firstn 5 suitCards)))
    else None) (getFlushCards cards).

Definition checkStraight (cards : list EvalCard.t) : option HandResult.t :=
  match findStraight cards with
  | Some high => Some (HandResult.mk STRAIGHT [high])
  | None => None
  end.

Definition checkThreeOfAKind (cards : list EvalCard.t) : option HandResult.t :=
  firstSome (fun '(r, count) =>
    if (3 <=? count)%nat then
      let kickers := firstn 2 (sortBy byRankDesc
                                 (filter (fun c => negb (rank c =? r)) cards)) in
      Some (HandResult.mk THREE_OF_A_KIND (r :: map rank kickers))
    else None) (getRankCounts cards).

Definition checkTwoPair (cards : list EvalCard.t) : option HandResult.t :=
  let pairs := map fst (filter (fun rc => (2 <=? snd rc)%nat) (getRankCounts cards)) in
  if (length pairs <? 2)%nat then None else
  let sorted := sortBy numDesc pairs in
  let highPair := nth 0 sorted 0%Z in
  let lowPair := nth 1 sorted 0%Z in
  let kicker := find (fun c => negb (rank c =? highPair) && negb (rank c =? lowPair)) cards in
  Some (HandResult.mk TWO_PAIR
          [highPair; lowPair; match kicker with Some k => rank k | None => 0 end]).

Definition checkPair (cards : list EvalCard.t) : option HandResult.t :=
  firstSome (fun '(r, count) =>
    if (2 <=? count)%nat then
      let kickers := firstn 3 (sortBy byRankDesc
                                 (filter (fun c => negb (rank c =? r)) cards)) in
      Some (HandResult.mk PAIR (r :: map rank kickers))
    else None) (getRankCounts cards).

Definition checkHighCard (cards : list EvalCard.t) : HandResult.t :=
  HandResult.mk HIGH_CARD (map rank (firstn 5 (sortBy byRankDesc cards))).

Definition toEval (c : Card.t) : EvalCard.t :=
  EvalCard.mk (Card.value c) (Card.suit c).

Definition evaluateHand (cards : list Card.t) : HandResult.t :=
  let evalCards := sortBy byRankDesc (map toEval cards) in
  match checkRoyalFlush evalCards with Some h => h | None =>
  match checkStraightFlush evalCards with Some h => h | None =>
  match checkFourOfAKind evalCards with Some h => h | None =>
  match checkFullHouse evalCards with Some h => h | None =>
  match checkFlush evalCards with Some h => h | None =>
  match checkStraight evalCards with Some h => h | None =>
  match checkThreeOfAKind evalCards with Some h => h | None =>
  match checkTwoPair evalCards with Some h => h | None =>
  match checkPair evalCards with Some h => h | None =>
  checkHighCard evalCards
  end end end end end end end end end.

(** [compareKickers]: index loop up to the longer length, a missing
    kicker read as 0 ([kickers[i] || 0]). *)
Fixpoint compareFrom (fuel i : nat) (k1 k2 : list Z) : Z :=
  match fuel with
  | O => 0
  | S f =>
      let a := nth i k1 0%Z in
      let b := nth i k2 0%Z in
      if negb (a =? b)%Z then (a - b)%Z else compareFrom f (S i) k1 k2
  end.

Definition compareKickers (h1 h2 : HandResult.t) : Z :=
  compareFrom (Nat.max (length (HandResult.kickers h1)) (length (HandResult.kickers h2)))
              0 (HandResult.kickers h1) (HandResult.kickers h2).

Definition compareHands (h1 h2 : HandResult.t) : Z :=
  if negb (HandResult.rank h1 =? HandResult.rank h2)%Z
  then (HandResult.rank h1 - HandResult.rank h2)%Z
  else compareKickers h1 h2.

(** [generateCombinations], by recursion on [k].  The source is only
    called with [k = 5] and recurses with [k - 1 >= 1]; for [k = 0] it
    does not terminate on a non-empty array, which the model does not
    need. *)
Fixpoint generateCombinations {A} (cards : list A) (k : nat) {struct k}
  : list (list A) :=
  match k with
  | O => []
  | S k' =>
      if Nat.eqb k 1 then map (fun c => [c]) cards
      else if Nat.eqb k (length cards) then [cards]
      else flat_map (fun i =>
             match nth_error cards i with
             | Some head => map (cons head) (generateCombinations (skipn (S i) cards) k')
             | None => []
             end)
           (if (k <=? length cards)%nat then seq 0 (S (length cards - k)) else [])
  end.

(** One iteration of the loop over the combinations; [bestHand] is
    [null] ([None]) only while [bestRank = 0].  The source would evaluate
    [compareKickers(handResult, null)] only if a rank equalled 0, which no
    category does. *)
Definition bestStep (acc : option HandResult.t * Z) (combo : list Card.t)
  : option HandResult.t * Z :=
  let handResult := evaluateHand combo in
  let '(bestHand, bestRank) := acc in
  if (HandResult.rank handResult >? bestRank)%Z ||
     ((HandResult.rank handResult =? bestRank)%Z &&
      match bestHand with
      | Some b => (compareKickers handResult b >? 0)%Z
      | None => false
      end)
  then (Some handResult, HandResult.rank handResult)
  else acc.

Definition getBestFiveCardHand (playerCards communityCards : list Card.t)
  : option HandResult.t :=
  let allCards := playerCards ++ communityCards in
  if (length allCards <? 5)%nat then Some (evaluateHand allCards)
  else fst (fold_left bestStep (generateCombinations allCards 5) (None, 0%Z)).

(** [getHandStrength]: the table [baseStrength] by category, plus a bonus
    from the first kicker, capped at 1.  [baseStrength[rank]] is read only
    at the categories 1..10 that [evaluateHand] returns; any other key
    (and a [null] hand) is [None]. *)
Definition baseStrength (r : Z) : option Q :=
  match r with
  | 1 => Some 0%Q
  | 2 => Some 0.2%Q
  | 3 => Some 0.4%Q
  | 4 => Some 0.55%Q
  | 5 => Some 0.65%Q
  | 6 => Some 0.72%Q
  | 7 => Some 0.82%Q
  | 8 => Some 0.91%Q
  | 9 => Some 0.97%Q
  | 10 => Some 1%Q
  | _ => None
  end.

Definition getHandStrength (playerCards communityCards : list Card.t) : option Q :=
  match getBestFiveCardHand playerCards communityCards with
  | None => None
  | Some hand =>
      match baseStrength (HandResult.rank hand) with
      | None => None
      | Some base =>
          let strength :=
            match HandResult.kickers hand with
            | [] => base
            | k0 :: _ => (base + inject_Z k0 / 14 * 0.05)%Q
            end in
          Some (Qmin strength 1)
      end
  end.

End HandEvaluator.

(** Order-preserving sub-lists: a choice of positions of a list.  The
    five-card subsets of a seven-card input are its sub-lists of length 5. *)
Inductive subseq {A} : list A -> list A -> Prop :=
| subseq_nil : subseq [] []
| subseq_skip x s l : subseq s l -> subseq s (x :: l)
| subseq_take x s l : subseq s l -> subseq (x :: s) (x :: l).

(** ** JS number comparisons on [Q] *)
Definition Qltb (x y : Q) : bool := negb (Qle_bool y x).

(** ** Seats and actions (poker-engine.js) *)
Inductive Phase := preflop | flop | turn | river | showdown.

Definition Phase_eqb (a b : Phase) : bool :=
  match a, b with
  | preflop, preflop | flop, flop | turn, turn | river, river
  | showdown, showdown => true
  | _, _ => false
  end.

(** The phase [showdown], under a name that the function
    [PokerEngine.showdown] does not hide. *)
Definition showdownPhase : Phase := showdown.

Inductive Action := Fold | Check | Call | Raise.

Definition Action_eqb (a b : Action) : bool :=
  match a, b with
  | Fold, Fold | Check, Check | Call, Call | Raise, Raise => true
  | _, _ => false
  end.

Module Player.
(** A seat object of [this.players]; [name], [position] and
    [personality] are display data and are left out. *)
Record t := mk {
  id : nat;
  chips : Q;
  cards : list Card.t;
  currentBet : Q;
  totalInvested : Q;
  isAI : bool;
  isActive : bool;
  isAllIn : bool;
  isFolded : bool
}.
End Player.

(** ** PokerAI (src/unnamed/part_000) *)
Module PokerAI.
Import JS HandEvaluator.
Local Open Scope Q_scope.

Record Personality := mkPersonality {
  vpip : Q; pfr : Q; aggression : Q; bluffFreq : Q;
  callThreshold : Q; raiseThreshold : Q
}.

Inductive PersonalityName := tight | loose | aggressive | passive | maniac.

Definition PERSONALITIES (n : PersonalityName) : Personality :=
  match n with
  | tight      => mkPersonality 0.15 0.12 0.3 0.05 0.6 0.8
  | loose      => mkPersonality 0.35 0.18 0.4 0.15 0.3 0.6
  | aggressive => mkPersonality 0.25 0.22 0.7 0.25 0.4 0.5
  | passive    => mkPersonality 0.28 0.08 0.2 0.03 0.35 0.85
  | maniac     => mkPersonality 0.45 0.35 0.9 0.4 0.25 0.3
  end.

Record DifficultyModifier := mkDifficulty {
  skillMod : Q; errorRate : Q; bluffDetection : Q
}.

Definition DIFFICULTY_MODIFIERS (d : Z) : option DifficultyModifier :=
  match d with
  | 1%Z => Some (mkDifficulty 0.3 0.3 0.2)
  | 2%Z => Some (mkDifficulty 0.5 0.2 0.4)
  | 3%Z => Some (mkDifficulty 0.7 0.15 0.6)
  | 4%Z => Some (mkDifficulty 0.85 0.1 0.8)
  | 5%Z => Some (mkDifficulty 1 0.05 0.9)
  | _ => None
  end.

(** An AI instance: [this.personality] and [this.difficulty].  The
    history and opponent models only feed statistics. *)
Record t := mk { personality : Personality; difficulty : DifficultyModifier }.

(** [PokerAI.createAI]; an unknown difficulty leaves [this.difficulty]
    undefined, which the first decision would dereference. *)
Definition createAI (name : PersonalityName) (d : Z) : option t :=
  option_map (mk (PERSONALITIES name)) (DIFFICULTY_MODIFIERS d).

(** The [gameState] object handed to [makeDecision]. *)
Record GameState := mkGameState {
  communityCards : list Card.t;
  pot : Q;
  currentBet : Q;
  players : list Player.t;
  gamePhase : Phase;
  blinds : Q * Q
}.

(** A decision object: [amount] is [undefined] ([None]) for fold, check
    and call. *)
Record Decision := mkDecision { action : Action; amount : option Q; isBluff : bool }.

Definition decide (a : Action) : Decision := mkDecision a None false.
Definition raiseBy (x : Q) : Decision := mkDecision Raise (Some x) false.
Definition checkOrCall (callAmount : Q) : Decision :=
  if Qeq_bool callAmount 0 then decide Check else decide Call.

(** [Math.random()] as a stream of draws [rng] read at a counter. *)
Definition Rand (A : Type) : Type := (nat -> Q) -> nat -> A * nat.
Definition ret {A} (x : A) : Rand A := fun _ k => (x, k).
Definition bind {A B} (m : Rand A) (f : A -> Rand B) : Rand B :=
  fun rng k => let '(x, k') := m rng k in f x rng k'.
Definition random : Rand Q := fun rng k => (rng k, S k).
Local Notation "x <- m ;; f" := (bind m (fun x => f))
  (at level 61, m at next level, right associativity).

Definition calculateRaiseSize (ai : t) (handStrength : Q) (gamePhase : Phase) : Q :=
  let multiplier :=
    match gamePhase with
    | preflop => 3 | flop => 0.7 | turn => 0.8 | river => 0.9
    | showdown => 0.7
    end in
  let sizeMultiplier := 1 + handStrength * multiplier in
  sizeMultiplier * (1 + aggression (personality ai) * 0.3).

Definition evaluatePocketPairs (handStrength : Q) : Q :=
  if Qltb 0.8 handStrength then 0.1
  else if Qltb 0.6 handStrength then 0.05
  else if Qltb 0.4 handStrength then 0.02
  else 0.

Definition evaluateSuitedConnectors (handStrength : Q) : Q :=
  if Qltb 0.3 handStrength && Qltb handStrength 0.7 then 0.05 else 0.

Definition getPreflopDecision (ai : t) (handStrength callAmount playerChips : Q)
  : Rand Decision :=
  let pocketPairStrength := evaluatePocketPairs handStrength in
  let suitedConnectorStrength := evaluateSuitedConnectors handStrength in
  let adjusted1 :=
    if Qltb 0 pocketPairStrength then handStrength + pocketPairStrength
    else handStrength in
  let adjustedStrength :=
    if Qltb 0.3 (vpip (personality ai)) && Qltb 0 suitedConnectorStrength
    then adjusted1 + suitedConnectorStrength * 0.1 else adjusted1 in
  if Qle_bool 0.8 adjustedStrength then
    ret (raiseBy (Qmin (callAmount * 3) (playerChips * 0.1)))
  else if Qle_bool 0.6 adjustedStrength then ret (checkOrCall callAmount)
  else if Qle_bool 0.4 adjustedStrength then
    r <- random ;;
    if Qltb r (vpip (personality ai)) then ret (checkOrCall callAmount)
    else ret (decide Fold)
  else ret (decide Fold).

Definition getBaseDecision (ai : t) (handStrength potOdds : Q) (gamePhase : Phase)
  (callAmount playerChips : Q) : Rand Decision :=
  if Phase_eqb gamePhase preflop then
    getPreflopDecision ai handStrength callAmount playerChips
  else if Qle_bool (raiseThreshold (personality ai)) handStrength then
    ret (raiseBy (calculateRaiseSize ai handStrength gamePhase))
  else if Qle_bool (callThreshold (personality ai)) handStrength ||
          (Qltb 0 potOdds && Qltb (1 - handStrength) (potOdds * 2)) then
    ret (checkOrCall callAmount)
  else ret (decide Fold).

Definition applyPersonalityAdjustments (ai : t) (decision : Decision)
  (handStrength : Q) (gs : GameState) : Rand Decision :=
  let p := personality ai in
  r <- random ;;
  let d1 :=
    if Qltb r (aggression p) && Action_eqb (action decision) Call then
      if Qltb 0.5 handStrength
      then raiseBy (calculateRaiseSize ai handStrength (gamePhase gs))
      else decision
    else decision in
  let d2 :=
    if Qltb (aggression p) 0.3 && Action_eqb (action d1) Raise then
      if Qltb handStrength 0.9 then decide Call else d1
    else d1 in
  let d3 :=
    if Qltb 0.5 (callThreshold p) && Qltb handStrength 0.6 then
      if negb (Action_eqb (action d2) Fold) && Qltb (pot gs * 0.3) (currentBet gs)
      then decide Fold else d2
    else d2 in
  ret d3.

Definition applyDifficultyAdjustments (ai : t) (decision : Decision)
  (handStrength : Q) : Rand Decision :=
  let d := difficulty ai in
  r <- random ;;
  let mistake :=
    if Qltb r (errorRate d) then
      if Action_eqb (action decision) Fold && Qltb 0.6 handStrength
      then Some (decide Call)
      else if Action_eqb (action decision) Raise && Qltb handStrength 0.4
      then Some (decide Fold)
      else if Action_eqb (action decision) Call && Qltb handStrength 0.3
      then Some (decide Fold)
      else None
    else None in
  match mistake with
  | Some m => ret m
  | None =>
      match amount decision with
      | Some a =>
          if Qeq_bool a 0 then ret decision
          else ret (mkDecision (action decision)
                      (Some (a * (0.5 + skillMod d * 0.5))) (isBluff decision))
      | None => ret decision
      end
  end.

(** Counting occurrences, as the [suitCounts] / [rankCounts] objects. *)
Fixpoint tally {A} (eqb : A -> A -> bool) (x : A) (m : list (A * nat))
  : list (A * nat) :=
  match m with
  | [] => [(x, 1%nat)]
  | (y, c) :: t => if eqb x y then (y, S c) :: t else (y, c) :: tally eqb x t
  end.

Definition countAll {A} (eqb : A -> A -> bool) (l : list A) : list (A * nat) :=
  fold_left (fun m x => tally eqb x m) l [].

Definition numAsc (a b : Z) : Z := (a - b)%Z.

Definition checkStraightDraws (ranks : list Z) : bool :=
  if (length ranks <? 3)%nat then false
  else
    let uniqueRanks := sortBy numAsc (setOf ranks) in
    if existsb (fun i => (nth (i + 2) uniqueRanks 0 - nth i uniqueRanks 0 <=? 4)%Z)
               (seq 0 (length uniqueRanks - 2))
    then true
    else includes uniqueRanks 14 && existsb (fun r => (r <=? 5)%Z) uniqueRanks.

(** [analyzeBoardTexture(...).scary], the only field a decision reads. *)
Definition analyzeBoardTexture (communityCards : list Card.t) : bool :=
  if (length communityCards <? 3)%nat then false
  else
    let suits := map Card.suit communityCards in
    let ranks := sortBy numAsc (map Card.value communityCards) in
    let maxSuitCount := list_max (map snd (countAll Suit_eqb suits)) in
    let hasGaps := checkStraightDraws ranks in
    let pairs := length (filter (fun rc => (2 <=? snd rc)%nat) (countAll Z.eqb ranks)) in
    (3 <=? maxSuitCount)%nat || hasGaps || (0 <? pairs)%nat.

Definition shouldBluff (ai : t) (gs : GameState) (handStrength : Q) : Rand bool :=
  if Qltb 0.7 handStrength then ret false
  else
    r <- random ;;
    if Qltb (bluffFreq (personality ai)) r then ret false
    else
      let activeOpponents :=
        (Z.of_nat (length (filter (fun p => Player.isActive p && negb (Player.isFolded p))
                                  (players gs))) - 1)%Z in
      if (2 <? activeOpponents)%Z then ret false
      else ret (analyzeBoardTexture (communityCards gs) &&
                negb (Phase_eqb (gamePhase gs) preflop)).

Definition generateBluff (gs : GameState) (player : Player.t) : Rand Decision :=
  r <- random ;;
  let bluffSize := pot gs * (0.6 + r * 0.4) in
  ret (mkDecision Raise (Some (Qmin bluffSize (Player.chips player * 0.3))) true).

(** [makeDecision]; [analyzeOpponents], [calculatePositionStrength] and
    [updateModels] do not influence the returned decision.  [None]: the
    hand strength lookup failed, which [getHandStrength] never does on
    the categories [evaluateHand] returns. *)
Definition makeDecision (ai : t) (gs : GameState) (player : Player.t)
  : Rand (option Decision) :=
  match getHandStrength (Player.cards player) (communityCards gs) with
  | None => ret None
  | Some handStrength =>
      let callAmount := currentBet gs - Player.currentBet player in
      let potOdds := if Qltb 0 callAmount then callAmount / (pot gs + callAmount) else 0 in
      d1 <- getBaseDecision ai handStrength potOdds (gamePhase gs) callAmount
                            (Player.chips player) ;;
      d2 <- applyPersonalityAdjustments ai d1 handStrength gs ;;
      d3 <- applyDifficultyAdjustments ai d2 handStrength ;;
      b <- shouldBluff ai gs handStrength ;;
      if b then (d <- generateBluff gs player ;; ret (Some d))
      else ret (Some d3)
  end.

(** [this.sessionStats]. *)
Record SessionStats := mkSessionStats {
  handsPlayed : nat; vpipActual : nat; aggressionActual : nat
}.

(** An entry of [this.handHistory]: [{decision, handStrength, gamePhase, pot}]. *)
Record HistoryEntry := mkHistoryEntry {
  entryDecision : Action; entryHandStrength : Q; entryGamePhase : Phase; entryPot : Q
}.

(** The statistics an AI instance keeps across decisions. *)
Record Models := mkModels { sessionStats : SessionStats; handHistory : list HistoryEntry }.

(** The state the constructor sets up. *)
Definition newModels : Models := mkModels (mkSessionStats 0 0 0) [].

(** [updateModels]: count the hand, a non-fold and a raise, push the
    entry and keep the last 50 ([slice(-50)]) once there are more. *)
Definition updateModels (m : Models) (decision : Decision) (handStrength : Q)
  (gs : GameState) : Models :=
  let st := sessionStats m in
  let vpip' :=
    if negb (Action_eqb (action decision) Fold) then S (vpipActual st) else vpipActual st in
  let aggression' :=
    if Action_eqb (action decision) Raise then S (aggressionActual st)
    else aggressionActual st in
  let history :=
    handHistory m ++ [mkHistoryEntry (action decision) handStrength (gamePhase gs) (pot gs)] in
  let history' :=
    if (50 <? length history)%nat then skipn (length history - 50) history else history in
  mkModels (mkSessionStats (S (handsPlayed st)) vpip' aggression') history'.

End PokerAI.

(** ** PokerEngine (poker-engine.js) *)
Module PokerEngine.
Import JS HandEvaluator.
Local Open Scope Q_scope.

Record Engine := mkEngine {
  deck : list Card.t;
  communityCards : list Card.t;
  players : list Player.t;
  currentPlayerIndex : nat;
  dealerPosition : nat;
  smallBlind : Q;
  bigBlind : Q;
  pot : Q;
  gamePhase : Phase
}.

Definition withDeck (s : Engine) (d : list Card.t) : Engine :=
  mkEngine d (communityCards s) (players s) (currentPlayerIndex s) (dealerPosition s)
           (smallBlind s) (bigBlind s) (pot s) (gamePhase s).
Definition withPlayers (s : Engine) (ps : list Player.t) : Engine :=
  mkEngine (deck s) (communityCards s) ps (currentPlayerIndex s) (dealerPosition s)
           (smallBlind s) (bigBlind s) (pot s) (gamePhase s).
Definition withPot (s : Engine) (q : Q) : Engine :=
  mkEngine (deck s) (communityCards s) (players s) (currentPlayerIndex s) (dealerPosition s)
           (smallBlind s) (bigBlind s) q (gamePhase s).
Definition withIndex (s : Engine) (i : nat) : Engine :=
  mkEngine (deck s) (communityCards s) (players s) i (dealerPosition s)
           (smallBlind s) (bigBlind s) (pot s) (gamePhase s).
Definition withPhase (s : Engine) (ph : Phase) : Engine :=
  mkEngine (deck s) (communityCards s) (players s) (currentPlayerIndex s) (dealerPosition s)
           (smallBlind s) (bigBlind s) (pot s) ph.

(** Mutating the seat object [this.players[i]]; the indices used are
    always below the length (they are taken modulo it, or come from the
    array itself). *)
Fixpoint updateAt {A} (i : nat) (f : A -> A) (l : list A) : list A :=
  match l, i with
  | [], _ => []
  | x :: t, O => f x :: t
  | x :: t, S j => x :: updateAt j f t
  end.

(** [this.dealCard()]: [pop()] takes the last element of [this.deck]; an
    empty deck logs an error and returns [null] ([None]). *)
Definition dealCard (s : Engine) : option Card.t * Engine :=
  match rev (deck s) with
  | [] => (None, s)
  | c :: rest => (Some c, withDeck s (rev rest))
  end.

(** Seat mutations. *)
Definition postBlindBy (amt : Q) (p : Player.t) : Player.t :=
  Player.mk (Player.id p) (Player.chips p - amt) (Player.cards p) amt amt
            (Player.isAI p) (Player.isActive p) (Player.isAllIn p) (Player.isFolded p).

Definition commitChips (amt : Q) (p : Player.t) : Player.t :=
  let chips := Player.chips p - amt in
  Player.mk (Player.id p) chips (Player.cards p)
            (Player.currentBet p + amt) (Player.totalInvested p + amt)
            (Player.isAI p) (Player.isActive p)
            (if Qeq_bool chips 0 then true else Player.isAllIn p) (Player.isFolded p).

Definition foldSeat (p : Player.t) : Player.t :=
  Player.mk (Player.id p) (Player.chips p) (Player.cards p) (Player.currentBet p)
            (Player.totalInvested p) (Player.isAI p) (Player.isActive p)
            (Player.isAllIn p) true.

Definition resetBet (p : Player.t) : Player.t :=
  Player.mk (Player.id p) (Player.chips p) (Player.cards p) 0
            (Player.totalInvested p) (Player.isAI p) (Player.isActive p)
            (Player.isAllIn p) (Player.isFolded p).

Definition addChips (amt : Q) (p : Player.t) : Player.t :=
  Player.mk (Player.id p) (Player.chips p + amt) (Player.cards p) (Player.currentBet p)
            (Player.totalInvested p) (Player.isAI p) (Player.isActive p)
            (Player.isAllIn p) (Player.isFolded p).

(** One blind of [postBlinds]. *)
Definition postBlind (s : Engine) (idx : nat) (blind : Q) : Engine :=
  match nth_error (players s) idx with
  | Some p =>
      if Player.isActive p then
        let amt := Qmin blind (Player.chips p) in
        withPot (withPlayers s (updateAt idx (postBlindBy amt) (players s))) (pot s + amt)
      else s
  | None => s
  end.

Definition postBlinds (s : Engine) : Engine :=
  if (length (filter Player.isActive (players s)) <? 2)%nat then s
  else
    let n := length (players s) in
    let sbIndex := ((dealerPosition s + 1) mod n)%nat in
    let bbIndex := ((dealerPosition s + 2) mod n)%nat in
    let s1 := postBlind s sbIndex (smallBlind s) in
    let s2 := postBlind s1 bbIndex (bigBlind s) in
    withIndex s2 ((dealerPosition s + 3) mod n)%nat.

(** [Math.max(...this.players.map(p => p.currentBet))]; [None] is the
    [-Infinity] of an empty spread. *)
Definition getCurrentBet (s : Engine) : option Q :=
  match map Player.currentBet (players s) with
  | [] => None
  | x :: t => Some (fold_left Qmax t x)
  end.

(** The [switch] of [executePlayerAction] on the seat [this.players[i]];
    its closing [moveToNextPlayer()] is the round logic below. *)
Definition executePlayerAction (s : Engine) (i : nat) (action : Action) (amount : Q)
  : Engine :=
  match nth_error (players s) i, getCurrentBet s with
  | Some player, Some currentBet =>
      match action with
      | Fold => withPlayers s (updateAt i foldSeat (players s))
      | Check => s
      | Call =>
          let callAmount := currentBet - Player.currentBet player in
          let actualCall := Qmin callAmount (Player.chips player) in
          withPot (withPlayers s (updateAt i (commitChips actualCall) (players s)))
                  (pot s + actualCall)
      | Raise =>
          let raiseCallAmount := currentBet - Player.currentBet player in
          let totalRaise := raiseCallAmount + amount in
          let actualRaise := Qmin totalRaise (Player.chips player) in
          withPot (withPlayers s (updateAt i (commitChips actualRaise) (players s)))
                  (pot s + actualRaise)
      end
  | _, _ => s
  end.

Definition inHand (p : Player.t) : bool := Player.isActive p && negb (Player.isFolded p).

Definition isBettingRoundComplete (s : Engine) : bool :=
  let activePlayers := filter inHand (players s) in
  if (length activePlayers <=? 1)%nat then true
  else
    match getCurrentBet s with
    | Some currentBet =>
        forallb (fun p => Qeq_bool (Player.currentBet p) currentBet || Player.isAllIn p)
                activePlayers
    | None => forallb Player.isAllIn activePlayers
    end.

(** The first statement of [completeBettingRound] (line 387): every
    current bet reset to 0.  The [advanceGamePhase()] that follows is in
    [completeBettingRound] below. *)
Definition resetBets (s : Engine) : Engine :=
  withPlayers s (map resetBet (players s)).

Definition awardPot (s : Engine) (winner : nat) : Engine :=
  withPot (withPlayers s (updateAt winner (addChips (pot s)) (players s))) 0.

(** Seats paired with their index: the identity of a seat object. *)
Definition indexed {A} (l : list A) : list (nat * A) := combine (seq 0 (length l)) l.

(** [playerHands]; a [null] hand would make [compareHands] throw. *)
Fixpoint handsOf (community : list Card.t) (ps : list (nat * Player.t))
  : option (list (nat * HandResult.t)) :=
  match ps with
  | [] => Some []
  | (i, p) :: t =>
      match getBestFiveCardHand (Player.cards p) community, handsOf community t with
      | Some h, Some hs => Some ((i, h) :: hs)
      | _, _ => None
      end
  end.

Definition splitPot (s : Engine) (winners : list (nat * HandResult.t)) (splitAmount : Q)
  : Engine :=
  fold_left (fun st w => withPlayers st (updateAt (fst w) (addChips splitAmount) (players st)))
            winners s.

(** [evaluateWinner]; [None] is the [TypeError] of [playerHands[0].hand]
    on an empty array. *)
Definition evaluateWinner (s : Engine) (ps : list (nat * Player.t)) : option Engine :=
  match handsOf (communityCards s) ps with
  | None => None
  | Some playerHands =>
      let sorted := sortBy (fun a b => compareHands (snd b) (snd a)) playerHands in
      match sorted with
      | [] => None
      | (_, bestHand) :: _ =>
          let winners := filter (fun ph => (compareHands (snd ph) bestHand =? 0)%Z) sorted in
          match winners with
          | [w] => Some (awardPot s (fst w))
          | _ =>
              let splitAmount :=
                inject_Z (Qfloor (pot s / inject_Z (Z.of_nat (length winners)))) in
              Some (withPot (splitPot s winners splitAmount) 0)
          end
      end
  end.

Definition showdown (s : Engine) : option Engine :=
  let s := withPhase s showdown in
  let activePlayers := filter (fun ip => inHand (snd ip)) (indexed (players s)) in
  match activePlayers with
  | [(i, _)] => Some (awardPot s i)
  | _ => evaluateWinner s activePlayers
  end.

(** [calculateAIDecision]: the [gameState] built from the engine. *)
Definition calculateAIDecision (ai : PokerAI.t) (s : Engine) (player : Player.t)
  : PokerAI.Rand (option PokerAI.Decision) :=
  match getCurrentBet s with
  | None => PokerAI.ret None
  | Some currentBet =>
      PokerAI.makeDecision ai
        (PokerAI.mkGameState (communityCards s) (pot s) currentBet (players s)
                             (gamePhase s) (smallBlind s, bigBlind s))
        player
  end.

(** [executePlayerAction(player, action, amount = 0)]: an [undefined]
    amount takes the default 0. *)
Definition amountOf (decision : PokerAI.Decision) : Q :=
  match PokerAI.amount decision with Some a => a | None => 0 end.

(** [processAIDecision] on the seat [this.players[i]]. *)
Definition processAIDecision (ai : PokerAI.t) (s : Engine) (i : nat)
  : PokerAI.Rand (option Engine) :=
  fun rng k =>
    match nth_error (players s) i with
    | None => (None, k)
    | Some player =>
        let '(od, k') := calculateAIDecision ai s player rng k in
        match od with
        | Some decision =>
            (Some (executePlayerAction s i (PokerAI.action decision) (amountOf decision)), k')
        | None => (None, k')
        end
    end.

(** ** Deck, dealing and the phases of a hand *)

(** [createDeck]'s tables. *)
Section Tables.
Local Open Scope string_scope.

Definition suits : list Suit := [hearts; diamonds; clubs; spades].
Definition ranks : list String.string :=
  ["2"; "3"; "4"; "5"; "6"; "7"; "8"; "9"; "10"; "J"; "Q"; "K"; "A"].

(** The [values] object of [getCardValue]. *)
Definition cardValues : list (String.string * Z) :=
  [("2", 2%Z); ("3", 3%Z); ("4", 4%Z); ("5", 5%Z); ("6", 6%Z); ("7", 7%Z); ("8", 8%Z);
   ("9", 9%Z); ("10", 10%Z); ("J", 11%Z); ("Q", 12%Z); ("K", 13%Z); ("A", 14%Z)].

End Tables.

(** [getCardValue(rank)]: [values[rank]], [undefined] ([None]) for a key
    the object does not have. *)
Definition getCardValue (rank : String.string) : option Z :=
  option_map snd (List.find (fun kv => String.eqb (fst kv) rank) cardValues).

(** [createDeck]: for each suit, for each rank, a card with
    [value: getCardValue(rank)].  Every entry of [ranks] is a key of
    [cardValues], so the default [0] is never taken. *)
Definition createDeck : list Card.t :=
  flat_map (fun suit =>
    map (fun rank => Card.mk (match getCardValue rank with Some v => v | None => 0%Z end) suit)
        ranks) suits.

(** [[a[i], a[j]] = [a[j], a[i]]]: the right-hand side is read first,
    then [a[i]] and [a[j]] are assigned in that order.  In [shuffleDeck]
    [j <= i < a.length] (since [0 <= Math.random() < 1]), so both reads
    succeed and the [None] branch is never taken. *)
Definition swap {A} (i j : nat) (l : list A) : list A :=
  match nth_error l i, nth_error l j with
  | Some x, Some y => updateAt j (fun _ => x) (updateAt i (fun _ => y) l)
  | _, _ => l
  end.

(** The loop of [shuffleDeck] from [i] down to [1]:
    [j = Math.floor(Math.random() * (i + 1))]. *)
Fixpoint shuffleFrom {A} (i : nat) (l : list A) : PokerAI.Rand (list A) :=
  match i with
  | O => PokerAI.ret l
  | S i' =>
      PokerAI.bind PokerAI.random (fun r =>
        let j := Z.to_nat (Qfloor (r * inject_Z (Z.of_nat (S (S i'))))) in
        shuffleFrom i' (swap (S i') j l))
  end.

(** [shuffleDeck]: Fisher-Yates from [this.deck.length - 1]. *)
Definition shuffleDeck (s : Engine) : PokerAI.Rand Engine :=
  PokerAI.bind (shuffleFrom (length (deck s) - 1) (deck s))
               (fun d => PokerAI.ret (withDeck s d)).

Definition withCommunity (s : Engine) (cc : list Card.t) : Engine :=
  mkEngine (deck s) cc (players s) (currentPlayerIndex s) (dealerPosition s)
           (smallBlind s) (bigBlind s) (pot s) (gamePhase s).

(** [player.cards.push(card)]. *)
Definition pushCard (c : Card.t) (p : Player.t) : Player.t :=
  Player.mk (Player.id p) (Player.chips p) (Player.cards p ++ [c]) (Player.currentBet p)
            (Player.totalInvested p) (Player.isAI p) (Player.isActive p)
            (Player.isAllIn p) (Player.isFolded p).

(** The body of [dealPocketCards]' inner loop for the seat [i]: an active
    seat draws a card and keeps it if it is not [null]. *)
Definition dealTo (s : Engine) (i : nat) : Engine :=
  match nth_error (players s) i with
  | Some p =>
      if Player.isActive p then
        match dealCard s with
        | (Some c, s1) => withPlayers s1 (updateAt i (pushCard c) (players s1))
        | (None, s1) => s1
        end
      else s
  | None => s
  end.

(** One [round] of [dealPocketCards]: the seats in order. *)
Definition dealPocketRound (s : Engine) : Engine :=
  fold_left dealTo (seq 0 (length (players s))) s.

(** [dealPocketCards]: [for (let round = 0; round < 2; round++)]. *)
Definition dealPocketCards (s : Engine) : Engine :=
  fold_left (fun st _ => dealPocketRound st) (seq 0 2) s.

(** The reset of a seat in [startNewHand]. *)
Definition resetPlayer (p : Player.t) : Player.t :=
  Player.mk (Player.id p) (Player.chips p) [] 0 0 (Player.isAI p)
            (Qltb 0 (Player.chips p)) false false.

(** [this.communityCards.push(this.dealCard())].  [None]: the deck was
    empty and [null] was pushed onto the board; the log line that closes
    [dealFlop], [dealTurn] or [dealRiver] then reads [.unicode] of it. *)
Definition dealCommunity (s : Engine) : option Engine :=
  match dealCard s with
  | (Some c, s1) => Some (withCommunity s1 (communityCards s1 ++ [c]))
  | (None, _) => None
  end.

(** [this.dealCard(); // burn card]. *)
Definition burnCard (s : Engine) : Engine := snd (dealCard s).

Definition dealFlop (s : Engine) : option Engine :=
  match dealCommunity (burnCard s) with
  | Some s1 =>
      match dealCommunity s1 with
      | Some s2 => dealCommunity s2
      | None => None
      end
  | None => None
  end.

Definition dealTurn (s : Engine) : option Engine := dealCommunity (burnCard s).

Definition dealRiver (s : Engine) : option Engine := dealCommunity (burnCard s).

(** The [do ... while] loop of [moveToNextPlayer], from the seat [i], with
    at most [fuel] iterations.  The source loop has no bound: [None] when
    the fuel runs out stands for a loop that does not stop when no seat is
    in the hand (lemma [nextInHand_none]). *)
Fixpoint nextInHand (fuel n : nat) (ps : list Player.t) (i : nat) : option nat :=
  match fuel with
  | O => None
  | S f =>
      let j := ((i + 1) mod n)%nat in
      match nth_error ps j with
      | Some p => if inHand p then Some j else nextInHand f n ps j
      | None => None
      end
  end.

(** The turn logic.  [startBettingRound], [processNextPlayer],
    [moveToNextPlayer], [completeBettingRound] and [advanceGamePhase] call
    each other synchronously; here they are written over [adv], the
    [advanceGamePhase] that [completeBettingRound] calls after its bet
    reset, and tied together by [advanceGamePhaseF] below. *)
Section Turns.
Variable adv : Engine -> option Engine.

(** [moveToNextPlayer]: a complete round ends through
    [completeBettingRound] ([resetBets], then [advanceGamePhase]);
    otherwise the [do ... while] loop moves to the next seat in the hand,
    found within one lap of the table ([None]: the loop does not stop).
    The [processNextPlayer()] that follows finds that seat in the hand,
    so it only starts the AI timer or enables the controls, which change
    no state here. *)
Definition moveToNextPlayerWith (s : Engine) : option Engine :=
  if isBettingRoundComplete s then adv (resetBets s)
  else
    let n := length (players s) in
    match nextInHand n n (players s) (currentPlayerIndex s) with
    | Some j => Some (withIndex s j)
    | None => None
    end.

(** [processNextPlayer]: a missing, inactive or folded seat passes the
    turn on through [moveToNextPlayer] at once; a seat in the hand waits
    for its decision (a timer for an AI seat, the controls for the human
    one), with no state change. *)
Definition processNextPlayerWith (s : Engine) : option Engine :=
  match nth_error (players s) (currentPlayerIndex s) with
  | Some p => if inHand p then Some s else moveToNextPlayerWith s
  | None => moveToNextPlayerWith s
  end.

(** [startBettingRound]: [currentPlayerIndex] set to the first seat to
    act, then [processNextPlayer()]. *)
Definition startBettingRoundWith (s : Engine) : option Engine :=
  let n := length (players s) in
  let startIndex :=
    if Phase_eqb (gamePhase s) preflop then ((dealerPosition s + 3) mod n)%nat
    else ((dealerPosition s + 1) mod n)%nat in
  processNextPlayerWith (withIndex s startIndex).

End Turns.

(** [advanceGamePhase], with at most [fuel] nested calls: a street is
    dealt and the phase set, then [startBettingRound] runs, which calls
    [advanceGamePhase] again (after the bet reset) when the first seat to
    act is out of the hand and the round is therefore already complete.
    On [river] it runs [showdown] and returns; for [showdown] no case
    matches and only [startBettingRound] runs.  Each nested call is one
    phase later until the river, so four levels cover every call from
    [preflop]; in the phase [showdown] a nested call repeats the same
    state forever (a [RangeError] once the stack overflows).  [None]
    when the fuel runs out stands for that; lemma
    [PokerEngineMore.advanceGamePhase_fuel] shows that more fuel changes
    no result. *)
Fixpoint advanceGamePhaseF (fuel : nat) (s : Engine) : option Engine :=
  match fuel with
  | O => None
  | S f =>
      match gamePhase s with
      | preflop =>
          match dealFlop s with
          | Some s1 => startBettingRoundWith (advanceGamePhaseF f) (withPhase s1 flop)
          | None => None
          end
      | flop =>
          match dealTurn s with
          | Some s1 => startBettingRoundWith (advanceGamePhaseF f) (withPhase s1 turn)
          | None => None
          end
      | turn =>
          match dealRiver s with
          | Some s1 => startBettingRoundWith (advanceGamePhaseF f) (withPhase s1 river)
          | None => None
          end
      | river => showdown s
      | _ (* the phase [showdown] *) => startBettingRoundWith (advanceGamePhaseF f) s
      end
  end.

Definition advanceGamePhase (s : Engine) : option Engine := advanceGamePhaseF 4 s.

(** The whole of the source's [completeBettingRound]: the bets reset,
    then [advanceGamePhase]. *)
Definition completeBettingRound (s : Engine) : option Engine := advanceGamePhase (resetBets s).

Definition moveToNextPlayer (s : Engine) : option Engine :=
  moveToNextPlayerWith advanceGamePhase s.

Definition processNextPlayer (s : Engine) : option Engine :=
  processNextPlayerWith advanceGamePhase s.

Definition startBettingRound (s : Engine) : option Engine :=
  startBettingRoundWith advanceGamePhase s.

(** [startNewHand]: a fresh shuffled deck, an empty board, pot [0],
    phase [preflop], every seat reset, blinds, pocket cards, then the
    first betting round, which may already end the hand's early rounds
    ([None]: an exception or a call that does not return).
    [handNumber], [sidePots], [bettingRound] and [gameStarted] are not
    read by any modelled function. *)
Definition startNewHand (s : Engine) : PokerAI.Rand (option Engine) :=
  PokerAI.bind (shuffleDeck (withDeck s createDeck)) (fun s1 =>
    let s2 := mkEngine (deck s1) [] (map resetPlayer (players s1)) (currentPlayerIndex s1)
                       (dealerPosition s1) (smallBlind s1) (bigBlind s1) 0 preflop in
    let s3 := postBlinds s2 in
    let s4 := dealPocketCards s3 in
    PokerAI.ret (startBettingRound s4)).

(** [setupPlayers]: the human seat and two AI seats. *)
Definition setupPlayers : list Player.t :=
  [Player.mk 0 1000 [] 0 0 false true false false;
   Player.mk 1 1000 [] 0 0 true true false false;
   Player.mk 2 1000 [] 0 0 true true false false].

(** The state left by the constructor and [initializeGame]: a fresh
    deck, the three seats, blinds 5/10. *)
Definition newEngine : Engine :=
  mkEngine createDeck [] setupPlayers 0 0 5 10 0 preflop.

(** The steps of a hand that move chips, in the order the engine runs
    them: blinds, actions, the bet reset that ends a round, showdown. *)
Inductive Event :=
| EvBlinds
| EvAction (i : nat) (a : Action) (amount : Q)
| EvRoundEnd
| EvShowdown.

Definition step (s : Engine) (e : Event) : option Engine :=
  match e with
  | EvBlinds => Some (postBlinds s)
  | EvAction i a amt => Some (executePlayerAction s i a amt)
  | EvRoundEnd => Some (resetBets s)
  | EvShowdown => showdown s
  end.

Fixpoint run (s : Engine) (es : list Event) : option Engine :=
  match es with
  | [] => Some s
  | e :: t => match step s e with Some s' => run s' t | None => None end
  end.

(** Sum of the stacks plus the pot. *)
Definition totalChips (s : Engine) : Q :=
  fold_right (fun p acc => Player.chips p + acc) 0 (players s) + pot s.

End PokerEngine.

(** * Proofs *)

Module HandEvaluatorFacts.
Import JS HandEvaluator.
Local Open Scope Z_scope.

(** ** Comparison *)

Lemma compareFrom_antisym f i a b :
  compareFrom f i a b = - compareFrom f i b a.
Proof.
  revert i; induction f as [|f IH]; intro i; simpl; [reflexivity|].
  rewrite (Z.eqb_sym (nth i b 0)).
  destruct (nth i a 0 =? nth i b 0); simpl; [apply IH | lia].
Qed.

Lemma compareFrom_beyond f i a b :
  (length a <= i)%nat -> (length b <= i)%nat -> compareFrom f i a b = 0.
Proof.
  revert i; induction f as [|f IH]; intros i Ha Hb; simpl; [reflexivity|].
  rewrite !nth_overflow by lia. simpl. apply IH; lia.
Qed.

Lemma compareFrom_fuel f1 f2 i a b :
  (Nat.max (length a) (length b) <= i + f1)%nat ->
  (Nat.max (length a) (length b) <= i + f2)%nat ->
  compareFrom f1 i a b = compareFrom f2 i a b.
Proof.
  revert f2 i; induction f1 as [|f1 IH]; intros f2 i H1 H2.
  - rewrite (compareFrom_beyond f2) by lia. reflexivity.
  - destruct f2 as [|f2].
    + rewrite (compareFrom_beyond (S f1)) by lia. reflexivity.
    + simpl. destruct (negb _); [reflexivity|]. apply IH; lia.
Qed.

Lemma compareFrom_trans f i a b c :
  compareFrom f i a b <= 0 -> compareFrom f i b c <= 0 -> compareFrom f i a c <= 0.
Proof.
  revert i; induction f as [|f IH]; intros i Hab Hbc; simpl in *; [lia|].
  destruct (Z.eqb_spec (nth i a 0) (nth i b 0)) as [E1|E1];
  destruct (Z.eqb_spec (nth i b 0) (nth i c 0)) as [E2|E2];
  destruct (Z.eqb_spec (nth i a 0) (nth i c 0)) as [E3|E3]; simpl in *;
  try lia; auto.
Qed.

Lemma compareFrom_first_diff f i0 i a b :
  (i0 <= i)%nat -> (i < i0 + f)%nat ->
  (forall j, (i0 <= j < i)%nat -> nth j a 0 = nth j b 0) ->
  nth i a 0 <> nth i b 0 ->
  compareFrom f i0 a b = nth i a 0 - nth i b 0.
Proof.
  revert i0; induction f as [|f IH]; intros i0 H1 H2 Heq Hd; [lia|]. simpl.
  destruct (Nat.eq_dec i0 i) as [->|Hne].
  - destruct (Z.eqb_spec (nth i a 0) (nth i b 0)); [contradiction|reflexivity].
  - rewrite (Heq i0) by lia. rewrite Z.eqb_refl. simpl.
    apply IH; auto; try lia. intros j Hj; apply Heq; lia.
Qed.

Lemma compareFrom_all_eq f i a b :
  (forall j, nth j a 0 = nth j b 0) -> compareFrom f i a b = 0.
Proof.
  revert i; induction f as [|f IH]; intros i H; simpl; [reflexivity|].
  rewrite H, Z.eqb_refl. simpl. auto.
Qed.

Lemma compareKickers_antisym h1 h2 :
  compareKickers h1 h2 = - compareKickers h2 h1.
Proof.
  unfold compareKickers. rewrite Nat.max_comm. apply compareFrom_antisym.
Qed.

Lemma compareKickers_refl h : compareKickers h h = 0.
Proof. unfold compareKickers. apply compareFrom_all_eq. reflexivity. Qed.

Lemma compareKickers_trans h1 h2 h3 :
  compareKickers h1 h2 <= 0 -> compareKickers h2 h3 <= 0 -> compareKickers h1 h3 <= 0.
Proof.
  unfold compareKickers.
  set (k1 := HandResult.kickers h1); set (k2 := HandResult.kickers h2);
  set (k3 := HandResult.kickers h3).
  set (N := Nat.max (length k1) (Nat.max (length k2) (length k3))).
  rewrite (compareFrom_fuel _ N 0 k1 k2) by lia.
  rewrite (compareFrom_fuel _ N 0 k2 k3) by lia.
  rewrite (compareFrom_fuel _ N 0 k1 k3) by lia.
  apply compareFrom_trans.
Qed.

Lemma compareHands_antisym h1 h2 : compareHands h1 h2 = - compareHands h2 h1.
Proof.
  unfold compareHands. rewrite (Z.eqb_sym (HandResult.rank h2)).
  destruct (Z.eqb_spec (HandResult.rank h1) (HandResult.rank h2)); simpl;
  [apply compareKickers_antisym | lia].
Qed.

Lemma compareHands_refl h : compareHands h h = 0.
Proof. unfold compareHands. rewrite Z.eqb_refl. apply compareKickers_refl. Qed.

Lemma compareHands_trans h1 h2 h3 :
  compareHands h1 h2 <= 0 -> compareHands h2 h3 <= 0 -> compareHands h1 h3 <= 0.
Proof.
  unfold compareHands.
  destruct (Z.eqb_spec (HandResult.rank h1) (HandResult.rank h2)) as [E1|E1];
  destruct (Z.eqb_spec (HandResult.rank h2) (HandResult.rank h3)) as [E2|E2];
  destruct (Z.eqb_spec (HandResult.rank h1) (HandResult.rank h3)) as [E3|E3];
  simpl; intros; try lia.
  apply (compareKickers_trans _ h2); auto.
Qed.

Lemma compareHands_gt_of_step hr b :
  (HandResult.rank hr >? HandResult.rank b) ||
  ((HandResult.rank hr =? HandResult.rank b) && (compareKickers hr b >? 0)) = true ->
  compareHands hr b > 0.
Proof.
  unfold compareHands. intro H. apply orb_true_iff in H.
  destruct H as [H|H].
  - apply Z.gtb_lt in H. rewrite (proj2 (Z.eqb_neq _ _)) by lia. simpl. lia.
  - apply andb_true_iff in H as [H1 H2]. rewrite H1. simpl.
    apply Z.gtb_lt in H2. lia.
Qed.

Lemma compareHands_ge_of_not_step hr b :
  (HandResult.rank hr >? HandResult.rank b) ||
  ((HandResult.rank hr =? HandResult.rank b) && (compareKickers hr b >? 0)) = false ->
  compareHands b hr >= 0.
Proof.
  unfold compareHands. intro H. apply orb_false_iff in H as [H1 H2].
  rewrite Z.gtb_ltb, Z.ltb_ge in H1.
  rewrite (Z.eqb_sym (HandResult.rank b)).
  destruct (Z.eqb_spec (HandResult.rank hr) (HandResult.rank b)); simpl in *; [|lia].
  rewrite compareKickers_antisym. rewrite Z.gtb_ltb, Z.ltb_ge in H2. lia.
Qed.


(** ** Categories *)

Lemma firstSome_inv {A B} (P : B -> Prop) (f : A -> option B) l r :
  (forall x r, f x = Some r -> P r) -> firstSome f l = Some r -> P r.
Proof.
  intro Hf. induction l as [|x t IH]; simpl; [discriminate|].
  destruct (f x) eqn:E; [intro H; inversion H; subst; eauto | exact IH].
Qed.

Ltac solve_inner :=
  let x := fresh "x" in let r := fresh "r" in let H := fresh "H" in
  intros x r H; try destruct x;
  repeat match type of H with
         | context [if ?e then _ else _] => destruct e
         | context [match ?e with _ => _ end] => destruct e
         end;
  try discriminate; inversion H; reflexivity.

Ltac solve_check :=
  let H := fresh "H" in
  intros ? ? H; unfold checkRoyalFlush, checkStraightFlush, checkFourOfAKind,
    checkFlush, checkThreeOfAKind, checkPair in H;
  refine (firstSome_inv (fun h => HandResult.rank h = _) _ _ _ _ H); solve_inner.

Lemma checkRoyalFlush_rank : forall c h,
  checkRoyalFlush c = Some h -> HandResult.rank h = ROYAL_FLUSH.
Proof. solve_check. Qed.

Lemma checkStraightFlush_rank : forall c h,
  checkStraightFlush c = Some h -> HandResult.rank h = STRAIGHT_FLUSH.
Proof. solve_check. Qed.

Lemma checkFourOfAKind_rank : forall c h,
  checkFourOfAKind c = Some h -> HandResult.rank h = FOUR_OF_A_KIND.
Proof. solve_check. Qed.

Lemma checkFlush_rank : forall c h,
  checkFlush c = Some h -> HandResult.rank h = FLUSH.
Proof. solve_check. Qed.

Lemma checkThreeOfAKind_rank : forall c h,
  checkThreeOfAKind c = Some h -> HandResult.rank h = THREE_OF_A_KIND.
Proof. solve_check. Qed.

Lemma checkPair_rank : forall c h,
  checkPair c = Some h -> HandResult.rank h = PAIR.
Proof. solve_check. Qed.

Lemma checkFullHouse_rank : forall c h,
  checkFullHouse c = Some h -> HandResult.rank h = FULL_HOUSE.
Proof.
  intros c h H; unfold checkFullHouse in H;
  repeat match type of H with
         | context [if ?e then _ else _] => destruct e
         | context [match ?e with _ => _ end] => destruct e
         end; try discriminate; inversion H; reflexivity.
Qed.

Lemma checkStraight_rank : forall c h,
  checkStraight c = Some h -> HandResult.rank h = STRAIGHT.
Proof.
  intros c h H; unfold checkStraight in H; destruct (findStraight c);
  inversion H; reflexivity.
Qed.

Lemma checkTwoPair_rank : forall c h,
  checkTwoPair c = Some h -> HandResult.rank h = TWO_PAIR.
Proof.
  intros c h H; unfold checkTwoPair in H; destruct (_ <? 2)%nat;
  inversion H; reflexivity.
Qed.

Lemma evaluateHand_rank_range cards :
  1 <= HandResult.rank (evaluateHand cards) <= 10.
Proof.
  unfold evaluateHand.
  set (ec := sortBy byRankDesc (map toEval cards)).
  destruct (checkRoyalFlush ec) eqn:E1; [apply checkRoyalFlush_rank in E1 |];
  [rewrite E1; unfold ROYAL_FLUSH; lia|].
  destruct (checkStraightFlush ec) eqn:E2; [apply checkStraightFlush_rank in E2 |];
  [rewrite E2; unfold STRAIGHT_FLUSH; lia|].
  destruct (checkFourOfAKind ec) eqn:E3; [apply checkFourOfAKind_rank in E3 |];
  [rewrite E3; unfold FOUR_OF_A_KIND; lia|].
  destruct (checkFullHouse ec) eqn:E4; [apply checkFullHouse_rank in E4 |];
  [rewrite E4; unfold FULL_HOUSE; lia|].
  destruct (checkFlush ec) eqn:E5; [apply checkFlush_rank in E5 |];
  [rewrite E5; unfold FLUSH; lia|].
  destruct (checkStraight ec) eqn:E6; [apply checkStraight_rank in E6 |];
  [rewrite E6; unfold STRAIGHT; lia|].
  destruct (checkThreeOfAKind ec) eqn:E7; [apply checkThreeOfAKind_rank in E7 |];
  [rewrite E7; unfold THREE_OF_A_KIND; lia|].
  destruct (checkTwoPair ec) eqn:E8; [apply checkTwoPair_rank in E8 |];
  [rewrite E8; unfold TWO_PAIR; lia|].
  destruct (checkPair ec) eqn:E9; [apply checkPair_rank in E9 |];
  [rewrite E9; unfold PAIR; lia|].
  simpl. unfold HIGH_CARD. lia.
Qed.

(** ** Five-card combinations *)

Lemma subseq_length {A} (s l : list A) : subseq s l -> (length s <= length l)%nat.
Proof. induction 1; simpl; lia. Qed.

Lemma subseq_full {A} (s l : list A) :
  subseq s l -> length s = length l -> s = l.
Proof.
  induction 1 as [|x s l H IH|x s l H IH]; simpl; intro E; auto.
  - apply subseq_length in H. lia.
  - f_equal. auto.
Qed.

Lemma subseq_cons_split {A} (x : A) s l :
  subseq (x :: s) l -> exists pre post, l = pre ++ x :: post /\ subseq s post.
Proof.
  intro H. remember (x :: s) as xs eqn:E. revert x s E.
  induction H as [|y s0 l H IH|y s0 l H IH]; intros x s E; [discriminate| |].
  - destruct (IH x s E) as (pre & post & -> & Hs). exists (y :: pre), post. auto.
  - inversion E; subst. exists [], l. auto.
Qed.

Lemma subseq_refl {A} (l : list A) : subseq l l.
Proof. induction l; [apply subseq_nil | apply subseq_take; auto]. Qed.

Lemma subseq_skipn {A} (s l : list A) n : subseq s (skipn n l) -> subseq s l.
Proof.
  revert l; induction n as [|n IH]; intros l H; [exact H|].
  destruct l as [|y l]; [exact H|]. simpl in H. apply subseq_skip. auto.
Qed.

Lemma generateCombinations_SS {A} k (l : list A) :
  generateCombinations l (S (S k)) =
  if Nat.eqb (S (S k)) (length l) then [l]
  else flat_map (fun i =>
         match nth_error l i with
         | Some head => map (cons head) (generateCombinations (skipn (S i) l) (S k))
         | None => []
         end)
       (if (S (S k) <=? length l)%nat then seq 0 (S (length l - S (S k))) else []).
Proof. reflexivity. Qed.

Lemma generateCombinations_complete {A} k (l s : list A) :
  subseq s l -> length s = S k -> In s (generateCombinations l (S k)).
Proof.
  revert l s; induction k as [|k IH]; intros l s Hs Hlen.
  - destruct s as [|x [|y s]]; try discriminate. simpl.
    destruct (subseq_cons_split _ _ _ Hs) as (pre & post & -> & _).
    apply in_map_iff. exists x. split; [reflexivity|].
    apply in_or_app. simpl. auto.
  - rewrite generateCombinations_SS.
    destruct (Nat.eqb_spec (S (S k)) (length l)) as [E|E].
    { left. symmetry. apply subseq_full; [exact Hs | lia]. }
    destruct s as [|x s]; [discriminate|].
    destruct (subseq_cons_split _ _ _ Hs) as (pre & post & -> & Hs').
    assert (Hlen' : length s = S k) by (simpl in Hlen; lia).
    pose proof (subseq_length _ _ Hs') as Hl'.
    assert (Hle : (S (S k) <=? length (pre ++ x :: post))%nat = true)
      by (apply Nat.leb_le; rewrite length_app; simpl; lia).
    rewrite Hle. apply in_flat_map. exists (length pre). split.
    + apply in_seq. rewrite length_app. simpl. lia.
    + rewrite nth_error_app2 by lia. rewrite Nat.sub_diag. cbn [nth_error].
      replace (skipn (S (length pre)) (pre ++ x :: post)) with post.
      * apply in_map. apply IH; [exact Hs' | exact Hlen'].
      * rewrite skipn_app. rewrite skipn_all2 by lia.
        replace (S (length pre) - length pre)%nat with 1%nat by lia. reflexivity.
Qed.

Lemma generateCombinations_sound {A} k (l s : list A) :
  In s (generateCombinations l (S k)) -> subseq s l /\ length s = S k.
Proof.
  revert l s; induction k as [|k IH]; intros l s Hin.
  - simpl in Hin. apply in_map_iff in Hin as (x & <- & Hx). split; [|reflexivity].
    apply in_split in Hx as (pre & post & ->).
    induction pre as [|y pre IHp]; simpl.
    + apply subseq_take. clear. induction post;
      [apply subseq_nil | apply subseq_skip; auto].
    + apply subseq_skip. exact IHp.
  - rewrite generateCombinations_SS in Hin.
    destruct (Nat.eqb_spec (S (S k)) (length l)) as [E|E].
    { destruct Hin as [<-|[]]. split; [apply subseq_refl | auto]. }
    apply in_flat_map in Hin as (i & _ & Hin).
    destruct (nth_error l i) as [head|] eqn:Ei; [|destruct Hin].
    apply in_map_iff in Hin as (t & <- & Ht).
    destruct (IH _ _ Ht) as [Hst Hlt]. split; [|simpl; auto].
    assert (Hl : l = firstn i l ++ head :: skipn (S i) l).
    { clear - Ei. revert l Ei; induction i as [|i IHi]; intros [|y l] Ei;
      try discriminate; simpl in *.
      - inversion Ei; reflexivity.
      - f_equal. apply IHi. exact Ei. }
    rewrite Hl. clear Hl Ei. induction (firstn i l) as [|y pre IHp]; simpl.
    + apply subseq_take. exact Hst.
    + apply subseq_skip. exact IHp.
Qed.

(** ** The best-hand loop *)

Definition best_inv (acc : option HandResult.t * Z) (seen : list (list Card.t)) : Prop :=
  (acc = (None, 0) /\ seen = []) \/
  exists b, acc = (Some b, HandResult.rank b) /\
    (forall c, In c seen -> compareHands b (evaluateHand c) >= 0) /\
    (exists c, In c seen /\ b = evaluateHand c).

Lemma bestStep_inv acc seen combo :
  best_inv acc seen -> best_inv (bestStep acc combo) (seen ++ [combo]).
Proof.
  unfold bestStep. intros [[-> ->] | (b & -> & Hge & Hex)].
  - pose proof (evaluateHand_rank_range combo).
    replace (HandResult.rank (evaluateHand combo) >? 0) with true
      by (symmetry; apply Z.gtb_lt; lia).
    right. exists (evaluateHand combo). split; [reflexivity|]. split.
    + intros c [<-|[]]. rewrite compareHands_refl. lia.
    + exists combo. simpl. auto.
  - set (hr := evaluateHand combo).
    destruct ((HandResult.rank hr >? HandResult.rank b) ||
              ((HandResult.rank hr =? HandResult.rank b) &&
               (compareKickers hr b >? 0))) eqn:C.
    + apply compareHands_gt_of_step in C.
      right. exists hr. split; [reflexivity|]. split.
      * intros c Hc. apply in_app_or in Hc as [Hc|[<-|[]]].
        -- specialize (Hge c Hc).
           assert (compareHands (evaluateHand c) hr <= 0).
           { apply (compareHands_trans _ b).
             - rewrite compareHands_antisym. lia.
             - rewrite compareHands_antisym. lia. }
           rewrite compareHands_antisym. lia.
        -- rewrite compareHands_refl. lia.
      * exists combo. split; [apply in_or_app; simpl; auto | reflexivity].
    + apply compareHands_ge_of_not_step in C.
      right. exists b. split; [reflexivity|]. split.
      * intros c Hc. apply in_app_or in Hc as [Hc|[<-|[]]]; auto.
      * destruct Hex as (c & Hc & ->). exists c. split; [apply in_or_app; auto | reflexivity].
Qed.

Lemma fold_bestStep_inv combos acc seen :
  best_inv acc seen -> best_inv (fold_left bestStep combos acc) (seen ++ combos).
Proof.
  revert acc seen; induction combos as [|c combos IH]; intros acc seen H; simpl.
  - rewrite app_nil_r. exact H.
  - replace (seen ++ c :: combos) with ((seen ++ [c]) ++ combos)
      by (rewrite <- app_assoc; reflexivity).
    apply IH. apply bestStep_inv. exact H.
Qed.

Lemma generateCombinations_7_5 {A} (l : list A) :
  length l = 7%nat -> length (generateCombinations l 5) = 21%nat.
Proof.
  intro H. do 7 (destruct l as [|? l]; try discriminate).
  destruct l; [reflexivity | discriminate].
Qed.

(** C1: on a seven-card input (hole cards plus community cards),
    [getBestFiveCardHand] returns a result; the combinations it scans are
    the C(7,5) = 21 five-card subsets; the result is [>= 0] under
    [compareHands] against the evaluation of every five-card subset of
    the input, and it is the evaluation of one of them. *)
Theorem getBestFiveCardHand_is_maximum (playerCards communityCards : list Card.t) :
  length (playerCards ++ communityCards) = 7%nat ->
  exists best,
    getBestFiveCardHand playerCards communityCards = Some best /\
    length (generateCombinations (playerCards ++ communityCards) 5) = 21%nat /\
    (forall sub, subseq sub (playerCards ++ communityCards) -> length sub = 5%nat ->
       compareHands best (evaluateHand sub) >= 0) /\
    (exists sub, subseq sub (playerCards ++ communityCards) /\ length sub = 5%nat /\
       best = evaluateHand sub).
Proof.
  intro H7. unfold getBestFiveCardHand.
  set (all := playerCards ++ communityCards) in *.
  rewrite H7. cbn [Nat.ltb Nat.leb].
  pose proof (fold_bestStep_inv (generateCombinations all 5) (None, 0) []
                (or_introl (conj eq_refl eq_refl))) as Hinv.
  rewrite app_nil_l in Hinv.
  destruct Hinv as [[Hn Hs] | (b & Hb & Hge & (c & Hc & ->))].
  - exfalso. assert (Hl := generateCombinations_7_5 all H7).
    rewrite Hs in Hl. discriminate.
  - exists (evaluateHand c). rewrite Hb. split; [reflexivity|]. split.
    + apply generateCombinations_7_5. exact H7.
    + split.
      * intros sub Hsub Hlen. apply Hge.
        apply generateCombinations_complete; [exact Hsub | exact Hlen].
      * exists c. destruct (generateCombinations_sound 4 all c Hc) as [Hsub Hlen].
        auto.
Qed.

(** C2: [compareHands] orders hand results totally by category first and
    then by the kicker sequences lexicographically, the first differing
    position deciding (a position past the end of a sequence reads as 0,
    as [kickers[i] || 0] does): it is reflexive ([compareHands H H = 0]),
    antisymmetric in sign, total and transitive, and two results with the
    same category and the same kicker sequence tie. *)
Theorem compareHands_total_order :
  (forall h, compareHands h h = 0) /\
  (forall h1 h2, HandResult.rank h1 = HandResult.rank h2 ->
     HandResult.kickers h1 = HandResult.kickers h2 -> compareHands h1 h2 = 0) /\
  (forall h1 h2, HandResult.rank h1 <> HandResult.rank h2 ->
     compareHands h1 h2 = HandResult.rank h1 - HandResult.rank h2) /\
  (forall h1 h2 i, HandResult.rank h1 = HandResult.rank h2 ->
     (forall j, (j < i)%nat ->
        nth j (HandResult.kickers h1) 0 = nth j (HandResult.kickers h2) 0) ->
     nth i (HandResult.kickers h1) 0 <> nth i (HandResult.kickers h2) 0 ->
     compareHands h1 h2 =
       nth i (HandResult.kickers h1) 0 - nth i (HandResult.kickers h2) 0) /\
  (forall h1 h2, HandResult.rank h1 = HandResult.rank h2 ->
     (forall j, nth j (HandResult.kickers h1) 0 = nth j (HandResult.kickers h2) 0) ->
     compareHands h1 h2 = 0) /\
  (forall h1 h2, compareHands h1 h2 = - compareHands h2 h1) /\
  (forall h1 h2, compareHands h1 h2 <= 0 \/ compareHands h2 h1 <= 0) /\
  (forall h1 h2 h3, compareHands h1 h2 <= 0 -> compareHands h2 h3 <= 0 ->
     compareHands h1 h3 <= 0).
Proof.
  split; [exact compareHands_refl|].
  split.
  { intros [r1 k1] [r2 k2]; simpl; intros -> ->. apply compareHands_refl. }
  split.
  { intros h1 h2 H. unfold compareHands.
    destruct (Z.eqb_spec (HandResult.rank h1) (HandResult.rank h2)); [contradiction|].
    reflexivity. }
  split.
  { intros h1 h2 i Hr Hpre Hd. unfold compareHands. rewrite Hr, Z.eqb_refl. simpl.
    unfold compareKickers. apply compareFrom_first_diff; auto; try lia.
    - destruct (Nat.lt_ge_cases i (Nat.max (length (HandResult.kickers h1))
                                            (length (HandResult.kickers h2)))); [lia|].
      exfalso. apply Hd. rewrite !nth_overflow by lia. reflexivity.
    - intros j Hj. apply Hpre. lia. }
  split.
  { intros h1 h2 Hr Hk. unfold compareHands. rewrite Hr, Z.eqb_refl. simpl.
    apply compareFrom_all_eq. exact Hk. }
  split; [exact compareHands_antisym|].
  split.
  { intros h1 h2. rewrite (compareHands_antisym h2 h1). lia. }
  exact compareHands_trans.
Qed.

(** ** Sorting by rank *)

Lemma insertBy_perm {A} (cmp : A -> A -> Z) x l :
  Permutation (insertBy cmp x l) (x :: l).
Proof.
  induction l as [|y t IH]; simpl; [reflexivity|].
  destruct (cmp x y <=? 0); [reflexivity|].
  rewrite IH. apply perm_swap.
Qed.

Lemma sortBy_perm {A} (cmp : A -> A -> Z) l : Permutation (sortBy cmp l) l.
Proof.
  induction l as [|x t IH]; simpl; [reflexivity|].
  unfold sortBy in *. simpl. rewrite insertBy_perm. apply perm_skip. exact IH.
Qed.

Definition rank_ge (a b : EvalCard.t) : Prop := rank a >= rank b.

Lemma insertBy_sorted x l :
  Sorted rank_ge l -> Sorted rank_ge (insertBy byRankDesc x l).
Proof.
  unfold rank_ge, byRankDesc.
  induction l as [|y t IH]; intro H; simpl.
  - repeat constructor.
  - destruct (rank y - rank x <=? 0) eqn:C.
    + apply Z.leb_le in C. constructor; [exact H | constructor; lia].
    + apply Z.leb_gt in C. apply Sorted_inv in H as [Ht Hy].
      constructor; [apply IH; exact Ht|].
      destruct t as [|z t']; simpl; [constructor; lia|].
      destruct (rank z - rank x <=? 0); constructor; [lia|].
      inversion Hy; assumption.
Qed.

Lemma sortBy_sorted l : Sorted rank_ge (sortBy byRankDesc l).
Proof.
  induction l as [|x t IH]; [constructor|]. apply insertBy_sorted. exact IH.
Qed.

Lemma sorted_map_rank l : Sorted rank_ge l -> Sorted Z.ge (map rank l).
Proof.
  induction 1 as [|a l Hl IH Hh]; simpl; constructor; [exact IH|].
  destruct Hh; simpl; constructor; exact H.
Qed.

Lemma sorted_perm_unique (a b : list Z) :
  Sorted Z.ge a -> Sorted Z.ge b -> Permutation a b -> a = b.
Proof.
  intros Ha Hb Hp.
  assert (T : Relations_1.Transitive Z.ge) by (intros x y z; lia).
  apply (Sorted_StronglySorted T) in Ha, Hb. revert b Hb Hp.
  induction Ha as [|x a Ha IH Hx]; intros b Hb Hp.
  - symmetry. apply Permutation_nil. exact Hp.
  - destruct b as [|y b]; [apply Permutation_sym, Permutation_nil in Hp; discriminate|].
    apply StronglySorted_inv in Hb as [Hb Hy].
    assert (x = y) as <-.
    { assert (Hxy : In x (y :: b)) by (apply (Permutation_in _ Hp); left; reflexivity).
      assert (Hyx : In y (x :: a)) by (apply (Permutation_in _ (Permutation_sym Hp)); left; reflexivity).
      destruct Hxy as [->|Hxy]; [reflexivity|].
      destruct Hyx as [->|Hyx]; [reflexivity|].
      rewrite Forall_forall in Hx, Hy. specialize (Hx _ Hyx). specialize (Hy _ Hxy). lia. }
    f_equal. apply IH; [exact Hb|]. apply Permutation_cons_inv in Hp. exact Hp.
Qed.

Lemma map_rank_toEval l : map rank (map toEval l) = map Card.value l.
Proof. rewrite map_map. reflexivity. Qed.

Lemma sorted_ranks_fixed l vs :
  Sorted Z.ge vs -> Permutation (map Card.value l) vs ->
  map rank (sortBy byRankDesc (map toEval l)) = vs.
Proof.
  intros Hs Hp. apply sorted_perm_unique; [apply sorted_map_rank, sortBy_sorted | exact Hs |].
  rewrite <- Hp, <- map_rank_toEval. apply Permutation_map, sortBy_perm.
Qed.

Lemma in_setOf l x : In x (setOf l) <-> In x l.
Proof.
  unfold setOf.
  assert (G : forall acc, In x (fold_left (fun acc x => if existsb (Z.eqb x) acc
                                then acc else acc ++ [x]) l acc) <-> In x acc \/ In x l).
  { induction l as [|y t IH]; intro acc; simpl; [tauto|].
    rewrite IH. destruct (existsb (Z.eqb y) acc) eqn:E.
    - apply existsb_exists in E as (z & Hz & Ez). apply Z.eqb_eq in Ez. subst z.
      split; [tauto|]. intros [H|[<-|H]]; auto.
    - rewrite in_app_iff. simpl. tauto. }
  rewrite G. simpl. tauto.
Qed.

Lemma includes_iff l x : includes l x = true <-> In x l.
Proof.
  unfold includes. rewrite existsb_exists. split.
  - intros (y & Hy & E). apply Z.eqb_eq in E. subst. exact Hy.
  - intro H. exists x. split; [exact H | apply Z.eqb_refl].
Qed.

Lemma findStraight_wheel cards :
  In 14 (map rank cards) -> In 5 (map rank cards) -> In 4 (map rank cards) ->
  In 3 (map rank cards) -> In 2 (map rank cards) -> findStraight cards = Some 5.
Proof.
  intros H14 H5 H4 H3 H2. unfold findStraight.
  assert (I : forall v, In v (map rank cards) ->
                includes (sortBy numDesc (setOf (map rank cards))) v = true).
  { intros v Hv. apply includes_iff. apply (Permutation_in _ (Permutation_sym (sortBy_perm _ _))).
    apply in_setOf. exact Hv. }
  rewrite (I 14), (I 5), (I 4), (I 3), (I 2) by assumption. reflexivity.
Qed.

Ltac five_cards H :=
  let e1 := fresh "e" in let e2 := fresh "e" in let e3 := fresh "e" in
  let e4 := fresh "e" in let e5 := fresh "e" in let t := fresh "t" in
  match type of H with
  | map rank ?L = _ =>
      destruct L as [|e1 [|e2 [|e3 [|e4 [|e5 [|? t]]]]]]; try discriminate H;
      destruct e1, e2, e3, e4, e5; simpl in H; injection H as -> -> -> -> ->
  end.

Lemma evaluateHand_five_high (l : list Card.t) vs high :
  (vs = [14; 5; 4; 3; 2] /\ high = 5 \/ vs = [6; 5; 4; 3; 2] /\ high = 6) ->
  Permutation (map Card.value l) vs ->
  HandResult.kickers (evaluateHand l) = [high] /\
  (HandResult.rank (evaluateHand l) = STRAIGHT \/
   HandResult.rank (evaluateHand l) = STRAIGHT_FLUSH).
Proof.
  intros Hv Hp.
  assert (Hs : map rank (sortBy byRankDesc (map toEval l)) = vs).
  { apply sorted_ranks_fixed; [|exact Hp].
    destruct Hv as [[-> _]|[-> _]]; repeat first [lia | constructor]. }
  unfold evaluateHand. remember (sortBy byRankDesc (map toEval l)) as ec eqn:Eec.
  clear Eec Hp.
  destruct Hv as [[-> ->]|[-> ->]]; five_cards Hs;
  match goal with
  | s1 : Suit, s2 : Suit, s3 : Suit, s4 : Suit, s5 : Suit |- _ =>
      destruct s1, s2, s3, s4, s5; vm_compute;
      (split; [reflexivity | first [left; reflexivity | right; reflexivity]])
  end.
Qed.

(** C3: for every five-card hand whose ranks are {14,2,3,4,5}, straight
    detection reports a straight with high card 5; [evaluateHand] scores
    it as a Straight or Straight Flush with kickers [[5]], so it loses to
    every six-high straight of the same category; and {2,3,4,5,A} of
    hearts is a Straight Flush with top kicker 5. *)
Theorem wheel_straight_high_five (w : list Card.t) :
  Permutation (map Card.value w) [14; 5; 4; 3; 2] ->
  findStraight (map toEval w) = Some 5 /\
  HandResult.kickers (evaluateHand w) = [5] /\
  (HandResult.rank (evaluateHand w) = STRAIGHT \/
   HandResult.rank (evaluateHand w) = STRAIGHT_FLUSH) /\
  (forall s, Permutation (map Card.value s) [6; 5; 4; 3; 2] ->
     HandResult.rank (evaluateHand s) = HandResult.rank (evaluateHand w) ->
     compareHands (evaluateHand w) (evaluateHand s) < 0) /\
  evaluateHand [Card.mk 2 hearts; Card.mk 3 hearts; Card.mk 4 hearts;
                Card.mk 5 hearts; Card.mk 14 hearts]
    = HandResult.mk STRAIGHT_FLUSH [5].
Proof.
  intro Hw.
  destruct (evaluateHand_five_high w _ 5 (or_introl (conj eq_refl eq_refl)) Hw)
    as [Kw Rw].
  split.
  { apply findStraight_wheel; rewrite map_rank_toEval;
    apply (Permutation_in _ (Permutation_sym Hw)); simpl; tauto. }
  split; [exact Kw|]. split; [exact Rw|]. split.
  - intros s Hs Hr.
    destruct (evaluateHand_five_high s _ 6 (or_intror (conj eq_refl eq_refl)) Hs)
      as [Ks _].
    unfold compareHands. rewrite Hr, Z.eqb_refl. simpl.
    unfold compareKickers. rewrite Kw, Ks. reflexivity.
  - vm_compute. reflexivity.
Qed.

(** ** Inputs with fewer than five cards *)

Lemma firstSome_none {A B} (f : A -> option B) l :
  (forall x, In x l -> f x = None) -> firstSome f l = None.
Proof.
  induction l as [|x t IH]; intro H; simpl; [reflexivity|].
  rewrite (H x (or_introl eq_refl)). apply IH. intros y Hy. apply H. right. exact Hy.
Qed.

Lemma pushSuit_bound c acc k :
  (forall sg, In sg acc -> (length (snd sg) <= k)%nat) ->
  forall sg, In sg (pushSuit c acc) -> (length (snd sg) <= S k)%nat.
Proof.
  induction acc as [|[s cs] t IH]; intros H sg Hin; simpl in Hin.
  - destruct Hin as [<-|[]]. simpl. lia.
  - destruct (Suit_eqb s (esuit c)).
    + destruct Hin as [<-|Hin].
      * simpl. rewrite length_app. simpl. specialize (H (s, cs) (or_introl eq_refl)).
        simpl in H. lia.
      * specialize (H sg (or_intror Hin)). lia.
    + destruct Hin as [<-|Hin].
      * specialize (H (s, cs) (or_introl eq_refl)). lia.
      * apply (IH (fun sg' H' => H sg' (or_intror H'))). exact Hin.
Qed.

Lemma suitGroups_bound cards sg :
  In sg (suitGroups cards) -> (length (snd sg) <= length cards)%nat.
Proof.
  unfold suitGroups.
  assert (G : forall rest acc k,
            (forall sg, In sg acc -> (length (snd sg) <= k)%nat) ->
            forall sg, In sg (fold_left (fun g c => pushSuit c g) rest acc) ->
                       (length (snd sg) <= k + length rest)%nat).
  { induction rest as [|c rest IH]; intros acc k H sg' Hin; simpl in *.
    - specialize (H sg' Hin). lia.
    - replace (k + S (length rest))%nat with (S k + length rest)%nat by lia.
      apply (IH (pushSuit c acc) (S k)); [|exact Hin].
      apply pushSuit_bound. exact H. }
  intro Hin. apply (G cards [] 0%nat); [intros ? []|exact Hin].
Qed.

Lemma getFlushCards_bound cards g :
  In g (getFlushCards cards) -> (length g <= length cards)%nat.
Proof.
  unfold getFlushCards. intro Hin. apply in_map_iff in Hin as (sg & <- & Hin).
  rewrite (Permutation_length (sortBy_perm _ _)). apply suitGroups_bound. exact Hin.
Qed.

Lemma setOf_length l : (length (setOf l) <= length l)%nat.
Proof.
  unfold setOf.
  assert (G : forall rest acc,
            (length (fold_left (fun acc x => if existsb (Z.eqb x) acc then acc
                                  else acc ++ [x]) rest acc)
             <= length acc + length rest)%nat).
  { induction rest as [|x rest IH]; intro acc; simpl; [lia|].
    destruct (existsb (Z.eqb x) acc).
    - specialize (IH acc). lia.
    - specialize (IH (acc ++ [x])). rewrite length_app in IH. simpl in IH. lia. }
  apply G.
Qed.

Lemma scanStraight_length u h : scanStraight u = Some h -> (5 <= length u)%nat.
Proof.
  intro H. destruct u as [|a t]; [discriminate H|].
  change (match nth_error (a :: t) 4 with
          | Some e => if (a - e =? 4) then Some a else scanStraight t
          | None => None end = Some h) in H.
  destruct (nth_error (a :: t) 4) eqn:E; [|discriminate H].
  assert (Hs : nth_error (a :: t) 4 <> None) by (rewrite E; discriminate).
  apply nth_error_Some in Hs. lia.
Qed.

Lemma findStraight_length cards h :
  findStraight cards = Some h -> (5 <= length cards)%nat.
Proof.
  unfold findStraight.
  set (u := sortBy numDesc (setOf (map rank cards))).
  assert (Hu : (length u <= length cards)%nat).
  { unfold u. rewrite (Permutation_length (sortBy_perm _ _)).
    rewrite <- (length_map rank cards). apply setOf_length. }
  destruct (includes u 14 && includes u 5 && includes u 4 && includes u 3 &&
            includes u 2) eqn:W.
  - intros _. repeat rewrite andb_true_iff in W.
    destruct W as [[[[W14 W5] W4] W3] W2]. rewrite includes_iff in *.
    assert (Hin : forall v, In v u -> In v (map rank cards)).
    { intros v Hv. apply in_setOf. apply (Permutation_in _ (sortBy_perm numDesc _)). exact Hv. }
    rewrite <- (length_map rank cards).
    change 5%nat with (length [14; 5; 4; 3; 2]).
    apply NoDup_incl_length.
    + repeat constructor; simpl; lia.
    + intros v Hv. simpl in Hv. apply Hin.
      destruct Hv as [<-|[<-|[<-|[<-|[<-|[]]]]]]; assumption.
  - intro H. apply scanStraight_length in H. lia.
Qed.

Ltac short_flush Hlen :=
  apply firstSome_none; intros g Hg; apply getFlushCards_bound in Hg;
  replace (5 <=? length g)%nat with false by (symmetry; apply Nat.leb_gt; lia);
  reflexivity.

Lemma chain_two p q :
  rank q <= rank p ->
  match checkFourOfAKind [p; q] with Some h => h | None =>
  match checkFullHouse [p; q] with Some h => h | None =>
  match checkFlush [p; q] with Some h => h | None =>
  match checkStraight [p; q] with Some h => h | None =>
  match checkThreeOfAKind [p; q] with Some h => h | None =>
  match checkTwoPair [p; q] with Some h => h | None =>
  match checkPair [p; q] with Some h => h | None =>
  checkHighCard [p; q] end end end end end end end
  = if rank p =? rank q then HandResult.mk PAIR [rank p]
    else HandResult.mk HIGH_CARD [rank p; rank q].
Proof.
  intro Hle.
  assert (R5 : checkFlush [p; q] = None).
  { unfold checkFlush. apply firstSome_none; intros g Hg; apply getFlushCards_bound in Hg.
    replace (5 <=? length g)%nat with false by (symmetry; apply Nat.leb_gt; simpl in Hg; lia).
    reflexivity. }
  assert (R6 : checkStraight [p; q] = None).
  { unfold checkStraight. destruct (findStraight [p; q]) eqn:F; [|reflexivity].
    apply findStraight_length in F. simpl in F. lia. }
  rewrite R5, R6.
  destruct p as [rp sp], q as [rq sq]. simpl in *.
  destruct (Z.eqb_spec rq rp) as [<-|Hne].
  - unfold checkFourOfAKind, checkFullHouse, checkThreeOfAKind, checkTwoPair, checkPair,
      getRankCounts. simpl. rewrite !Z.eqb_refl. simpl. rewrite !Z.eqb_refl. reflexivity.
  - assert (E1 : (rq =? rp) = false) by (apply Z.eqb_neq; exact Hne).
    assert (E2 : (rp =? rq) = false) by (apply Z.eqb_neq; lia).
    assert (E3 : (rq <? rp) = true) by (apply Z.ltb_lt; lia).
    assert (E4 : (rq - rp <=? 0) = true) by (apply Z.leb_le; lia).
    unfold checkFourOfAKind, checkFullHouse, checkThreeOfAKind, checkTwoPair, checkPair,
      getRankCounts, checkHighCard, sortBy, byRankDesc. simpl.
    rewrite ?E1, ?E2, ?E3, ?E4. simpl. rewrite ?E1, ?E2, ?E3, ?E4. reflexivity.
Qed.

Lemma evaluateHand_two a b :
  evaluateHand [a; b] =
  if (Card.value a =? Card.value b)
  then HandResult.mk PAIR [Card.value a]
  else HandResult.mk HIGH_CARD [Z.max (Card.value a) (Card.value b);
                                Z.min (Card.value a) (Card.value b)].
Proof.
  destruct a as [va sa], b as [vb sb]. unfold evaluateHand, toEval. cbn [map Card.value Card.suit].
  set (ec := sortBy byRankDesc [EvalCard.mk va sa; EvalCard.mk vb sb]).
  assert (Hlen : length ec = 2%nat)
    by (unfold ec; rewrite (Permutation_length (sortBy_perm _ _)); reflexivity).
  assert (R1 : checkRoyalFlush ec = None) by (unfold checkRoyalFlush; short_flush Hlen).
  assert (R2 : checkStraightFlush ec = None) by (unfold checkStraightFlush; short_flush Hlen).
  rewrite R1, R2. clear R1 R2 Hlen.
  assert (Ec : ec = if (vb - va <=? 0) then [EvalCard.mk va sa; EvalCard.mk vb sb]
                    else [EvalCard.mk vb sb; EvalCard.mk va sa]) by reflexivity.
  rewrite Ec. clear Ec ec.
  destruct (Z.leb_spec (vb - va) 0) as [H|H].
  - rewrite chain_two by (simpl; lia). simpl.
    destruct (Z.eqb_spec va vb); [reflexivity|].
    f_equal. f_equal; [rewrite Z.max_l | f_equal; rewrite Z.min_r]; auto; lia.
  - rewrite chain_two by (simpl; lia). simpl.
    rewrite (Z.eqb_sym vb va).
    destruct (Z.eqb_spec va vb); [lia|].
    f_equal. f_equal; [rewrite Z.max_r | f_equal; rewrite Z.min_l]; auto; lia.
Qed.

Lemma subseq_firstn {A} n (l : list A) : subseq (firstn n l) l.
Proof.
  revert l; induction n as [|n IH]; intro l.
  - simpl. induction l; [apply subseq_nil | apply subseq_skip; auto].
  - destruct l as [|x l]; [apply subseq_nil|]. simpl. apply subseq_take. apply IH.
Qed.

Lemma getBestFiveCardHand_some playerCards communityCards :
  exists r, getBestFiveCardHand playerCards communityCards = Some r.
Proof.
  unfold getBestFiveCardHand.
  set (all := playerCards ++ communityCards).
  destruct (Nat.ltb_spec (length all) 5) as [H|H]; [eexists; reflexivity|].
  pose proof (fold_bestStep_inv (generateCombinations all 5) (None, 0) []
                (or_introl (conj eq_refl eq_refl))) as Hinv.
  rewrite app_nil_l in Hinv.
  destruct Hinv as [[_ Hs] | (b & -> & _)]; [|exists b; reflexivity].
  exfalso.
  assert (Hin : In (firstn 5 all) (generateCombinations all 5)).
  { apply generateCombinations_complete; [apply subseq_firstn|].
    rewrite length_firstn. lia. }
  rewrite Hs in Hin. destruct Hin.
Qed.

(** C10 (as amended): [getBestFiveCardHand] returns a result (never
    [null]) on every input; with fewer than five cards in total it returns
    [evaluateHand] of those cards directly; preflop, from two hole cards
    and no community cards, it returns a Pair with the single kicker [r],
    or a High Card with the two ranks in descending order. *)
Theorem short_inputs_evaluated_directly :
  (forall playerCards communityCards,
     exists r, getBestFiveCardHand playerCards communityCards = Some r) /\
  (forall playerCards communityCards,
     (length (playerCards ++ communityCards) < 5)%nat ->
     getBestFiveCardHand playerCards communityCards =
       Some (evaluateHand (playerCards ++ communityCards))) /\
  (forall a b,
     getBestFiveCardHand [a; b] [] =
       Some (if (Card.value a =? Card.value b)
             then HandResult.mk PAIR [Card.value a]
             else HandResult.mk HIGH_CARD [Z.max (Card.value a) (Card.value b);
                                           Z.min (Card.value a) (Card.value b)])).
Proof.
  split; [exact getBestFiveCardHand_some|]. split.
  - intros pc cc H. unfold getBestFiveCardHand.
    destruct (Nat.ltb_spec (length (pc ++ cc)) 5); [reflexivity | lia].
  - intros a b. unfold getBestFiveCardHand. simpl app. cbn [length Nat.ltb Nat.leb].
    rewrite evaluateHand_two. reflexivity.
Qed.

(** C10 counterexample: with four cards A A K K the kicker sequence is
    not shorter than for five cards: this Two Pair gets 0 as its third
    kicker, giving three kickers like a five-card Two Pair. *)
Lemma short_input_kickers_not_shorter :
  getBestFiveCardHand [Card.mk 14 clubs; Card.mk 14 diamonds]
                      [Card.mk 13 hearts; Card.mk 13 spades]
    = Some (HandResult.mk TWO_PAIR [14; 13; 0]) /\
  evaluateHand [Card.mk 14 clubs; Card.mk 14 diamonds; Card.mk 13 hearts;
                Card.mk 13 spades; Card.mk 2 clubs]
    = HandResult.mk TWO_PAIR [14; 13; 2] /\
  ~ (length [14; 13; 0] < length [14; 13; 2])%nat.
Proof. vm_compute. split; [reflexivity|]. split; [reflexivity|]. lia. Qed.

(** A river: two hole cards and five on the board. *)
Definition riverHole : list Card.t := [Card.mk 14 hearts; Card.mk 13 hearts].
Definition riverBoard : list Card.t :=
  [Card.mk 12 hearts; Card.mk 11 hearts; Card.mk 2 clubs; Card.mk 7 diamonds; Card.mk 10 hearts].

Lemma getBestFiveCardHand_is_maximum_witness :
  length (riverHole ++ riverBoard) = 7%nat /\
  exists best,
    getBestFiveCardHand riverHole riverBoard = Some best /\
    length (generateCombinations (riverHole ++ riverBoard) 5) = 21%nat /\
    (forall sub, subseq sub (riverHole ++ riverBoard) -> length sub = 5%nat ->
       compareHands best (evaluateHand sub) >= 0) /\
    (exists sub, subseq sub (riverHole ++ riverBoard) /\ length sub = 5%nat /\
       best = evaluateHand sub).
Proof.
  assert (H : length (riverHole ++ riverBoard) = 7%nat) by reflexivity.
  split; [exact H|]. exact (getBestFiveCardHand_is_maximum riverHole riverBoard H).
Defined.

Definition heartWheel : list Card.t :=
  [Card.mk 14 hearts; Card.mk 5 hearts; Card.mk 4 hearts; Card.mk 3 hearts; Card.mk 2 hearts].

Lemma wheel_straight_high_five_witness :
  Permutation (map Card.value heartWheel) [14; 5; 4; 3; 2] /\
  findStraight (map toEval heartWheel) = Some 5 /\
  HandResult.kickers (evaluateHand heartWheel) = [5].
Proof.
  assert (H : Permutation (map Card.value heartWheel) [14; 5; 4; 3; 2])
    by apply Permutation_refl.
  destruct (wheel_straight_high_five heartWheel H) as [H1 [H2 _]].
  split; [exact H|]. split; [exact H1 | exact H2].
Defined.

Lemma short_inputs_evaluated_directly_witness :
  getBestFiveCardHand [Card.mk 14 hearts; Card.mk 13 spades] [Card.mk 13 clubs] =
    Some (evaluateHand [Card.mk 14 hearts; Card.mk 13 spades; Card.mk 13 clubs]).
Proof.
  apply (proj1 (proj2 short_inputs_evaluated_directly)). simpl. lia.
Defined.

End HandEvaluatorFacts.

Module PokerAIFacts.
Import JS HandEvaluator PokerAI.
Local Open Scope Q_scope.

Ltac split_branches :=
  repeat match goal with
  | |- context [if ?b then _ else _] => destruct b
  | |- context [match ?o with Some _ => _ | None => _ end] => destruct o
  end.

(** Every decision the base strategy builds is not a bluff. *)
Lemma getBaseDecision_not_bluff ai hs po ph ca pc rng k :
  isBluff (fst (getBaseDecision ai hs po ph ca pc rng k)) = false.
Proof.
  unfold getBaseDecision, getPreflopDecision, checkOrCall, ret, bind, random.
  cbv beta iota zeta. split_branches; reflexivity.
Qed.

Lemma applyPersonalityAdjustments_not_bluff ai d hs gs rng k :
  isBluff d = false ->
  isBluff (fst (applyPersonalityAdjustments ai d hs gs rng k)) = false.
Proof.
  intro H. unfold applyPersonalityAdjustments, ret, bind, random.
  cbv beta iota zeta. split_branches; assumption || reflexivity.
Qed.

Lemma applyDifficultyAdjustments_not_bluff ai d hs rng k :
  isBluff d = false ->
  isBluff (fst (applyDifficultyAdjustments ai d hs rng k)) = false.
Proof.
  intro H. unfold applyDifficultyAdjustments, ret, bind, random.
  cbv beta iota zeta. split_branches; cbn [fst isBluff]; assumption || reflexivity.
Qed.

(** A bluff returned by [makeDecision] is the one of [generateBluff]: a
    raise of at most 30% of the seat's stack. *)
Lemma makeDecision_bluff_amount ai gs player rng k d k' :
  makeDecision ai gs player rng k = (Some d, k') ->
  isBluff d = true ->
  action d = Raise /\
  exists a, amount d = Some a /\ a <= Player.chips player * 0.3.
Proof.
  unfold makeDecision.
  destruct (getHandStrength (Player.cards player) (communityCards gs)) as [hs|];
    [|unfold ret; discriminate].
  cbv zeta. unfold bind at 1.
  match goal with |- context [getBaseDecision ?a ?b ?c ?d ?e ?f rng k] =>
    pose proof (getBaseDecision_not_bluff a b c d e f rng k) as B1;
    destruct (getBaseDecision a b c d e f rng k) as [d1 k1] end.
  cbn [fst] in B1. unfold bind at 1.
  pose proof (applyPersonalityAdjustments_not_bluff ai d1 hs gs rng k1 B1) as B2.
  destruct (applyPersonalityAdjustments ai d1 hs gs rng k1) as [d2 k2].
  cbn [fst] in B2. unfold bind at 1.
  pose proof (applyDifficultyAdjustments_not_bluff ai d2 hs rng k2 B2) as B3.
  destruct (applyDifficultyAdjustments ai d2 hs rng k2) as [d3 k3].
  cbn [fst] in B3. unfold bind at 1.
  destruct (shouldBluff ai gs hs rng k3) as [b k4].
  destruct b.
  - unfold generateBluff, bind, random, ret. cbn. intros H Hb.
    injection H as <- _. split; [reflexivity|].
    eexists; split; [reflexivity|]. apply Q.le_min_r.
  - unfold ret. intros H Hb. injection H as <- _. congruence.
Qed.

End PokerAIFacts.

Module PokerEngineFacts.
Import JS HandEvaluator PokerEngine.
Local Open Scope Q_scope.

Definition sumChips (ps : list Player.t) : Q :=
  fold_right (fun p acc => Player.chips p + acc) 0 ps.

Lemma totalChips_sum s : totalChips s = sumChips (players s) + pot s.
Proof. reflexivity. Qed.

(** *** Seat updates *)

Lemma updateAt_length {A} i (f : A -> A) l : length (updateAt i f l) = length l.
Proof.
  revert i; induction l as [|x t IH]; intros [|i]; simpl; auto.
Qed.

Lemma nth_updateAt_same {A} i (f : A -> A) l x :
  nth_error l i = Some x -> nth_error (updateAt i f l) i = Some (f x).
Proof.
  revert i; induction l as [|y t IH]; intros [|i] H; simpl in *; try discriminate.
  - congruence.
  - auto.
Qed.

Lemma nth_updateAt_other {A} i j (f : A -> A) l :
  i <> j -> nth_error (updateAt i f l) j = nth_error l j.
Proof.
  revert i j; induction l as [|y t IH]; intros [|i] [|j] H; simpl; auto; try lia.
Qed.

Lemma updateAt_out {A} i (f : A -> A) l :
  nth_error l i = None -> updateAt i f l = l.
Proof.
  revert i; induction l as [|y t IH]; intros [|i] H; simpl in *; try discriminate; auto.
  rewrite IH; auto.
Qed.

Lemma sumChips_updateAt i f ps p :
  nth_error ps i = Some p ->
  sumChips (updateAt i f ps) == sumChips ps + (Player.chips (f p) - Player.chips p).
Proof.
  revert i; induction ps as [|x t IH]; intros [|i] H; simpl in *; try discriminate.
  - injection H as ->. lra.
  - specialize (IH i H). lra.
Qed.

(** *** Conservation of the chip moves of blinds, actions and round ends *)

Lemma postBlind_total s idx blind :
  totalChips (postBlind s idx blind) == totalChips s.
Proof.
  unfold postBlind. destruct (nth_error (players s) idx) as [p|] eqn:E; [|reflexivity].
  destruct (Player.isActive p); [|reflexivity].
  rewrite !totalChips_sum. simpl.
  rewrite (sumChips_updateAt _ _ _ _ E). simpl. lra.
Qed.

Lemma postBlinds_total s : totalChips (postBlinds s) == totalChips s.
Proof.
  unfold postBlinds.
  destruct (length (filter Player.isActive (players s)) <? 2)%nat; [reflexivity|].
  set (s1 := postBlind s _ _).
  change (totalChips (withIndex (postBlind s1 ((dealerPosition s + 2)
            mod length (players s)) (bigBlind s)) ((dealerPosition s + 3)
            mod length (players s))) == totalChips s).
  transitivity (totalChips (postBlind s1 ((dealerPosition s + 2) mod length (players s))
                              (bigBlind s))); [reflexivity|].
  rewrite postBlind_total. apply postBlind_total.
Qed.

Lemma executePlayerAction_total s i a amount :
  totalChips (executePlayerAction s i a amount) == totalChips s.
Proof.
  unfold executePlayerAction.
  destruct (nth_error (players s) i) as [p|] eqn:E; [|reflexivity].
  destruct (getCurrentBet s) as [cb|]; [|reflexivity].
  rewrite !totalChips_sum.
  destruct a; simpl; try reflexivity;
    rewrite (sumChips_updateAt _ _ _ _ E); simpl; lra.
Qed.

Lemma sumChips_map_resetBet ps : sumChips (map resetBet ps) = sumChips ps.
Proof. induction ps as [|p t IH]; simpl; [reflexivity|]. rewrite IH. reflexivity. Qed.

Lemma resetBets_total s :
  totalChips (resetBets s) == totalChips s.
Proof.
  rewrite !totalChips_sum. simpl. rewrite sumChips_map_resetBet. reflexivity.
Qed.

(** *** The round's maximum bet *)

Lemma fold_Qmax_upper t x :
  x <= fold_left Qmax t x /\ forall y, In y t -> y <= fold_left Qmax t x.
Proof.
  revert x; induction t as [|z t IH]; intro x; simpl.
  - split; [apply Qle_refl | intros _ []].
  - destruct (IH (Qmax x z)) as [H1 H2]. split.
    + eapply Qle_trans; [apply Q.le_max_l | exact H1].
    + intros y [<- | Hy]; [|auto].
      eapply Qle_trans; [apply Q.le_max_r | exact H1].
Qed.

Lemma fold_Qmax_attained t x :
  exists y, In y (x :: t) /\ fold_left Qmax t x == y.
Proof.
  revert x; induction t as [|z t IH]; intro x; simpl.
  - exists x. split; [left; reflexivity | reflexivity].
  - destruct (IH (Qmax x z)) as [y [Hy E]].
    destruct Hy as [<- | Hy].
    + destruct (Q.max_dec x z) as [E'|E'].
      * exists x. split; [left; reflexivity|]. rewrite E, E'. reflexivity.
      * exists z. split; [right; left; reflexivity|]. rewrite E, E'. reflexivity.
    + exists y. split; [right; right; exact Hy | exact E].
Qed.

Lemma getCurrentBet_spec s m :
  getCurrentBet s = Some m ->
  (exists q, In q (players s) /\ Player.currentBet q == m) /\
  (forall q, In q (players s) -> Player.currentBet q <= m).
Proof.
  unfold getCurrentBet. destruct (players s) as [|p ps]; simpl; [discriminate|].
  intro H. injection H as <-. split.
  - destruct (fold_Qmax_attained (map Player.currentBet ps) (Player.currentBet p))
      as [y [Hy E]].
    destruct Hy as [<- | Hy]; [exists p; split; [left; reflexivity | now symmetry]|].
    apply in_map_iff in Hy as [q [<- Hq]].
    exists q. split; [right; exact Hq | now symmetry].
  - destruct (fold_Qmax_upper (map Player.currentBet ps) (Player.currentBet p)) as [H1 H2].
    intros q [<- | Hq]; [exact H1|]. apply H2. apply in_map. exact Hq.
Qed.

Lemma getCurrentBet_some s :
  players s <> [] -> exists m, getCurrentBet s = Some m.
Proof.
  unfold getCurrentBet. destruct (players s); simpl; [congruence|]. eauto.
Qed.

(** C6: the betting round is complete exactly when at most one active,
    non-folded seat remains, or every active non-folded seat has a
    current bet equal to the round's maximum bet (the largest current bet
    over the seats) or is all-in. *)
Theorem isBettingRoundComplete_iff s :
  isBettingRoundComplete s = true <->
  (length (filter inHand (players s)) <= 1)%nat \/
  exists m,
    (exists q, In q (players s) /\ Player.currentBet q == m) /\
    (forall q, In q (players s) -> Player.currentBet q <= m) /\
    (forall p, In p (players s) -> inHand p = true ->
       Player.currentBet p == m \/ Player.isAllIn p = true).
Proof.
  unfold isBettingRoundComplete.
  destruct (Nat.leb_spec (length (filter inHand (players s))) 1) as [Hle|Hgt].
  - split; [intros _; left; exact Hle | reflexivity].
  - assert (Hne : players s <> []).
    { intro E. rewrite E in Hgt. simpl in Hgt. lia. }
    destruct (getCurrentBet_some s Hne) as [m0 Hm0]. rewrite Hm0.
    destruct (getCurrentBet_spec s m0 Hm0) as [[q0 [Hq0 E0]] Hup0].
    split.
    + intro H. right. exists m0. split; [eauto|]. split; [exact Hup0|].
      intros p Hp Hin. rewrite forallb_forall in H.
      assert (Hf : In p (filter inHand (players s))) by (apply filter_In; auto).
      specialize (H p Hf). apply orb_true_iff in H as [H|H]; [left|right; exact H].
      apply Qeq_bool_iff in H. exact H.
    + intros [H|[m [[q [Hq Eq]] [Hup Hall]]]]; [lia|].
      assert (Em : m0 == m).
      { apply Qle_antisym.
        - rewrite <- E0. apply Hup. exact Hq0.
        - rewrite <- Eq. apply Hup0. exact Hq. }
      apply forallb_forall. intros p Hf. apply filter_In in Hf as [Hp Hin].
      destruct (Hall p Hp Hin) as [E|E]; apply orb_true_iff; [left|right; exact E].
      apply Qeq_bool_iff. rewrite E. symmetry. exact Em.
Qed.

(** *** Blinds *)

Lemma postBlind_allin s idx blind k p :
  nth_error (players s) k = Some p ->
  exists p', nth_error (players (postBlind s idx blind)) k = Some p' /\
             Player.isAllIn p' = Player.isAllIn p.
Proof.
  intro Hk. unfold postBlind.
  destruct (nth_error (players s) idx) as [q|] eqn:E; [|eauto].
  destruct (Player.isActive q); [|eauto]. simpl.
  destruct (Nat.eq_dec idx k) as [<-|Hne].
  - rewrite E in Hk. injection Hk as <-.
    rewrite (nth_updateAt_same _ _ _ _ E). eauto.
  - rewrite nth_updateAt_other by exact Hne. eauto.
Qed.

(** The scenario of a short big blind: three seats, dealer at seat 0,
    blinds 5/10, the big blind (seat 2) holding only 3 chips. *)
Definition seatWith (i : nat) (c : Q) (cs : list Card.t) (ai : bool) : Player.t :=
  Player.mk i c cs 0 0 ai true false false.

Definition shortBigBlind : Engine :=
  mkEngine [] [] [seatWith 0 1000 [] false; seatWith 1 1000 [] true; seatWith 2 3 [] true]
           0 0 5 10 0 preflop.

(** C7 (code bug): [postBlinds] never changes any seat's [isAllIn] flag;
    a big blind of 3 chips facing a blind of 10 posts its whole stack,
    ends with 0 chips, and is not marked all-in. *)
Theorem postBlinds_never_sets_allin :
  (forall s k p, nth_error (players s) k = Some p ->
     exists p', nth_error (players (postBlinds s)) k = Some p' /\
                Player.isAllIn p' = Player.isAllIn p) /\
  (match nth_error (players (postBlinds shortBigBlind)) 2 with
   | Some p => Player.chips p == 0 /\ Player.currentBet p == 3 /\
               Player.totalInvested p == 3 /\ Player.isAllIn p = false
   | None => False
   end) /\
  pot (postBlinds shortBigBlind) == 8.
Proof.
  split; [|vm_compute; repeat split; reflexivity].
  intros s k p Hk. unfold postBlinds.
  destruct (length (filter Player.isActive (players s)) <? 2)%nat; [eauto|].
  destruct (postBlind_allin s ((dealerPosition s + 1) mod length (players s))
              (smallBlind s) k p Hk) as [p1 [H1 E1]].
  destruct (postBlind_allin _ ((dealerPosition s + 2) mod length (players s))
              (bigBlind s) k p1 H1) as [p2 [H2 E2]].
  exists p2. split; [exact H2 | congruence].
Qed.

(** *** Dealing *)

Definition emptyDeckEngine : Engine := mkEngine [] [] [] 0 0 5 10 0 preflop.

(** C9 (as amended): on an empty deck [dealCard] completes normally,
    returning [null] and leaving the state unchanged (it only logs an
    error); on a non-empty deck it removes and returns the top card, the
    last element of [this.deck]. *)
Theorem dealCard_spec (s : Engine) :
  (deck s = [] -> dealCard s = (None, s)) /\
  (forall rest c, deck s = rest ++ [c] -> dealCard s = (Some c, withDeck s rest)).
Proof.
  unfold dealCard. split.
  - intros ->. reflexivity.
  - intros rest c ->. rewrite rev_app_distr. simpl. rewrite rev_involutive. reflexivity.
Qed.

(** C9 counterexample: drawing from an empty deck does not fail; it
    returns [null] and the engine continues in the same state. *)
Lemma dealCard_empty_returns_null :
  dealCard emptyDeckEngine = (None, emptyDeckEngine).
Proof. reflexivity. Qed.

(** *** Showdown *)

(** The seats still contesting the pot, with their indices. *)
Definition contenders (s : Engine) : list (nat * Player.t) :=
  filter (fun ip => inHand (snd ip)) (indexed (players s)).

(** A seat's best hand ([getBestFiveCardHand] always returns one,
    [HandEvaluatorFacts.getBestFiveCardHand_some]). *)
Definition handOf (s : Engine) (p : Player.t) : HandResult.t :=
  match getBestFiveCardHand (Player.cards p) (communityCards s) with
  | Some h => h
  | None => evaluateHand []
  end.

(** A contender whose hand is at least every contender's hand. *)
Definition beatsAll (s : Engine) (ip : nat * Player.t) : bool :=
  forallb (fun jq => (compareHands (handOf s (snd ip)) (handOf s (snd jq)) >=? 0)%Z)
          (contenders s).

(** The seats tied for the best hand. *)
Definition topSeats (s : Engine) : list nat :=
  map fst (filter (beatsAll s) (contenders s)).

(** What each top seat receives: the whole pot when it is alone,
    [floor(pot / n)] when [n] seats tie. *)
Definition splitShare (s : Engine) : Q :=
  let n := length (topSeats s) in
  if (n =? 1)%nat then pot s else inject_Z (Qfloor (pot s / inject_Z (Z.of_nat n))).

Definition share (s : Engine) (k : nat) : Q :=
  if existsb (Nat.eqb k) (topSeats s) then splitShare s else 0.

(** The chips a showdown hands out in total. *)
Definition showdownPayout (s : Engine) : Q :=
  let n := length (topSeats s) in
  if (n =? 1)%nat then pot s
  else inject_Z (Z.of_nat n) * inject_Z (Qfloor (pot s / inject_Z (Z.of_nat n))).

Lemma in_combine_seq {A} (l : list A) k i x :
  In (i, x) (combine (seq k (length l)) l) -> (k <= i)%nat /\ nth_error l (i - k) = Some x.
Proof.
  revert k; induction l as [|y t IH]; intros k H; simpl in H; [destruct H|].
  destruct H as [E|H].
  - injection E as <- <-. rewrite Nat.sub_diag. split; [lia | reflexivity].
  - destruct (IH (S k) H) as [H1 H2]. split; [lia|].
    replace (i - k)%nat with (S (i - S k)) by lia. exact H2.
Qed.

Lemma in_indexed {A} (l : list A) i x : In (i, x) (indexed l) -> nth_error l i = Some x.
Proof.
  unfold indexed. intro H. apply in_combine_seq in H as [_ H].
  rewrite Nat.sub_0_r in H. exact H.
Qed.

Lemma map_fst_combine_seq {A} (l : list A) k :
  map fst (combine (seq k (length l)) l) = seq k (length l).
Proof.
  revert k; induction l as [|y t IH]; intro k; simpl; [reflexivity|]. rewrite IH. reflexivity.
Qed.

Lemma NoDup_map_filter {A B} (f : A -> B) (p : A -> bool) l :
  NoDup (map f l) -> NoDup (map f (filter p l)).
Proof.
  induction l as [|x t IH]; simpl; intro H; [constructor|].
  inversion H as [|? ? Hx Ht]; subst.
  destruct (p x); simpl; [constructor|]; auto.
  intro Hin. apply Hx. apply in_map_iff in Hin as [y [Ey Hy]].
  apply filter_In in Hy as [Hy _]. rewrite <- Ey. apply in_map. exact Hy.
Qed.

Lemma topSeats_NoDup s : NoDup (topSeats s).
Proof.
  unfold topSeats, contenders. apply NoDup_map_filter. apply NoDup_map_filter.
  unfold indexed. rewrite map_fst_combine_seq. apply seq_NoDup.
Qed.

Lemma topSeats_valid s i :
  In i (topSeats s) -> exists p, nth_error (players s) i = Some p.
Proof.
  unfold topSeats, contenders. intro H. apply in_map_iff in H as [[j p] [Ej H]].
  simpl in Ej. subst j. apply filter_In in H as [H _]. apply filter_In in H as [H _].
  exists p. apply in_indexed. exact H.
Qed.

Lemma Permutation_filter {A} (f : A -> bool) l l' :
  Permutation l l' -> Permutation (filter f l) (filter f l').
Proof.
  induction 1; simpl.
  - constructor.
  - destruct (f x); auto.
  - destruct (f x), (f y); auto. apply perm_swap.
  - eapply perm_trans; eauto.
Qed.

Lemma filter_map_comm {A B} (f : B -> bool) (g : A -> B) l :
  filter f (map g l) = map g (filter (fun x => f (g x)) l).
Proof.
  induction l as [|x t IH]; simpl; [reflexivity|].
  destruct (f (g x)); simpl; rewrite IH; reflexivity.
Qed.

Lemma forallb_map {A B} (f : B -> bool) (g : A -> B) l :
  forallb f (map g l) = forallb (fun x => f (g x)) l.
Proof. induction l as [|x t IH]; simpl; [reflexivity|]. rewrite IH. reflexivity. Qed.

Lemma compareHands_ge_trans h1 h2 h3 :
  (compareHands h1 h2 >= 0)%Z -> (compareHands h2 h3 >= 0)%Z -> (compareHands h1 h3 >= 0)%Z.
Proof.
  intros H1 H2.
  rewrite (HandEvaluatorFacts.compareHands_antisym h1 h2) in H1.
  rewrite (HandEvaluatorFacts.compareHands_antisym h2 h3) in H2.
  rewrite (HandEvaluatorFacts.compareHands_antisym h1 h3).
  assert (H := HandEvaluatorFacts.compareHands_trans h3 h2 h1). lia.
Qed.

Definition cmpHands (a b : nat * HandResult.t) : Z := compareHands (snd b) (snd a).

Lemma sortBy_head_max l x t :
  sortBy cmpHands l = x :: t ->
  forall y, In y l -> (compareHands (snd x) (snd y) >= 0)%Z.
Proof.
  revert x t; induction l as [|a l IH]; intros x t Hs y Hy; [destruct Hy|].
  cbn [sortBy fold_right] in Hs. fold (sortBy cmpHands l) in Hs.
  destruct (sortBy cmpHands l) as [|h t'] eqn:El.
  - simpl in Hs. injection Hs as <- <-.
    assert (Hl : l = []).
    { apply Permutation_nil. rewrite <- El. apply HandEvaluatorFacts.sortBy_perm. }
    subst l. destruct Hy as [<-|[]]. rewrite HandEvaluatorFacts.compareHands_refl. lia.
  - specialize (IH h t' eq_refl).
    simpl in Hs. unfold cmpHands in Hs at 1.
    destruct (Z.leb_spec (compareHands (snd h) (snd a)) 0) as [Hle|Hgt].
    + injection Hs as <- <-.
      assert (Ha : (compareHands (snd a) (snd h) >= 0)%Z).
      { rewrite HandEvaluatorFacts.compareHands_antisym. lia. }
      destruct Hy as [<-|Hy].
      * rewrite HandEvaluatorFacts.compareHands_refl. lia.
      * eapply compareHands_ge_trans; [exact Ha | apply IH; exact Hy].
    + injection Hs as <- _.
      destruct Hy as [<-|Hy]; [lia | apply IH; exact Hy].
Qed.

Lemma handsOf_some s cs :
  handsOf (communityCards s) cs = Some (map (fun ip => (fst ip, handOf s (snd ip))) cs).
Proof.
  induction cs as [|[i p] t IH]; simpl; [reflexivity|].
  unfold handOf at 1.
  destruct (HandEvaluatorFacts.getBestFiveCardHand_some (Player.cards p) (communityCards s))
    as [h Eh].
  rewrite Eh, IH. reflexivity.
Qed.

(** The winners [evaluateWinner] selects are the contenders whose hand is
    at least every contender's hand. *)
Lemma evaluateWinner_outcome s cs :
  cs <> [] ->
  exists winners : list (nat * HandResult.t),
    Permutation (map fst winners)
      (map fst (filter (fun ip => forallb (fun jq =>
          (compareHands (handOf s (snd ip)) (handOf s (snd jq)) >=? 0)%Z) cs) cs)) /\
    evaluateWinner s cs =
      match winners with
      | [w] => Some (awardPot s (fst w))
      | _ => Some (withPot (splitPot s winners
               (inject_Z (Qfloor (pot s / inject_Z (Z.of_nat (length winners)))))) 0)
      end.
Proof.
  intro Hne. unfold evaluateWinner. rewrite handsOf_some.
  set (g := fun ip : nat * Player.t => (fst ip, handOf s (snd ip))).
  set (hs := map g cs).
  fold cmpHands.
  assert (Hperm : Permutation (sortBy cmpHands hs) hs) by apply HandEvaluatorFacts.sortBy_perm.
  destruct (sortBy cmpHands hs) as [|x t] eqn:Hs.
  { apply Permutation_nil in Hperm. destruct cs; [congruence | discriminate]. }
  assert (Hmax := sortBy_head_max hs x t Hs).
  assert (Hx : In x hs) by (apply (Permutation_in _ Hperm); left; reflexivity).
  destruct x as [xi best]. simpl in Hmax.
  set (p2 := fun ph : nat * HandResult.t =>
               forallb (fun q => (compareHands (snd ph) (snd q) >=? 0)%Z) hs).
  assert (Heq : forall ph, In ph hs ->
            (compareHands (snd ph) best =? 0)%Z = p2 ph).
  { intros ph Hph. unfold p2.
    destruct (Z.eqb_spec (compareHands (snd ph) best) 0) as [E|E]; symmetry.
    - apply forallb_forall. intros q Hq. apply Z.geb_le.
      assert (Hge : (compareHands (snd ph) (snd q) >= 0)%Z)
        by (eapply compareHands_ge_trans; [rewrite E; lia | apply (Hmax q Hq)]).
      lia.
    - apply not_true_iff_false. intro H. apply E.
      rewrite forallb_forall in H. specialize (H (xi, best) Hx). simpl in H.
      apply Z.geb_le in H. specialize (Hmax ph Hph).
      rewrite HandEvaluatorFacts.compareHands_antisym in Hmax. lia. }
  exists (filter (fun ph => (compareHands (snd ph) best =? 0)%Z) ((xi, best) :: t)).
  split; [|reflexivity].
  rewrite (filter_ext_in _ p2).
  2:{ intros ph Hph. apply Heq. apply (Permutation_in _ Hperm). exact Hph. }
  eapply perm_trans; [apply Permutation_map, Permutation_filter; exact Hperm|].
  unfold hs. rewrite filter_map_comm, map_map.
  apply Permutation_refl'. unfold g; cbn [fst].
  f_equal. apply filter_ext. intros [i p]. unfold p2, hs.
  rewrite forallb_map. reflexivity.
Qed.

Lemma showdown_none s : contenders s = [] -> showdown s = None.
Proof.
  intro H. unfold showdown. cbv zeta. cbn [players withPhase].
  fold (contenders s). rewrite H. reflexivity.
Qed.

(** [showdown] pays the seats of [topSeats], through [awardPot] when there
    is one, through the split otherwise. *)
Lemma showdown_outcome s :
  contenders s <> [] ->
  exists s1 (winners : list (nat * HandResult.t)),
    players s1 = players s /\ pot s1 = pot s /\
    Permutation (map fst winners) (topSeats s) /\
    showdown s =
      match winners with
      | [w] => Some (awardPot s1 (fst w))
      | _ => Some (withPot (splitPot s1 winners
               (inject_Z (Qfloor (pot s / inject_Z (Z.of_nat (length winners)))))) 0)
      end.
Proof.
  intro Hne. unfold showdown. cbv zeta.
  set (s1 := withPhase s _).
  change (players s1) with (players s). fold (contenders s).
  exists s1.
  destruct (contenders s) as [|[i p] [|c2 cs]] eqn:Hc; [congruence| |].
  - exists [(i, handOf s p)]. split; [reflexivity|]. split; [reflexivity|].
    split; [|reflexivity].
    unfold topSeats, beatsAll. rewrite Hc. simpl.
    rewrite HandEvaluatorFacts.compareHands_refl. simpl. apply Permutation_refl.
  - destruct (evaluateWinner_outcome s1 ((i, p) :: c2 :: cs)) as [winners [Hp He]];
      [discriminate|].
    exists winners. split; [reflexivity|]. split; [reflexivity|]. split.
    + unfold topSeats, beatsAll. rewrite Hc. exact Hp.
    + rewrite He. reflexivity.
Qed.

Lemma nat_succ_Q n : inject_Z (Z.of_nat (S n)) == inject_Z (Z.of_nat n) + 1.
Proof. rewrite Nat2Z.inj_succ, <- Z.add_1_r, inject_Z_plus. reflexivity. Qed.

Lemma awardPot_chips s w k p :
  nth_error (players s) k = Some p ->
  exists p', nth_error (players (awardPot s w)) k = Some p' /\
             Player.chips p' == Player.chips p + (if (k =? w)%nat then pot s else 0).
Proof.
  intro Hk. unfold awardPot. simpl.
  destruct (Nat.eqb_spec k w) as [<-|Hne].
  - rewrite (nth_updateAt_same _ _ _ _ Hk). eexists; split; [reflexivity|]. simpl. lra.
  - rewrite nth_updateAt_other by congruence. exists p. split; [exact Hk | lra].
Qed.

Lemma splitPot_chips ws s a k p :
  nth_error (players s) k = Some p ->
  exists p', nth_error (players (splitPot s ws a)) k = Some p' /\
    Player.chips p' ==
      Player.chips p + inject_Z (Z.of_nat (count_occ Nat.eq_dec (map fst ws) k)) * a.
Proof.
  revert s p; induction ws as [|w ws IH]; intros s p Hk.
  - exists p. split; [exact Hk|]. cbn [map count_occ].
    change (inject_Z (Z.of_nat 0)) with 0. lra.
  - unfold splitPot. simpl. fold (splitPot (withPlayers s (updateAt (fst w)
      (addChips a) (players s))) ws a).
    set (s' := withPlayers s _).
    assert (Hk' : exists p1, nth_error (players s') k = Some p1 /\
               Player.chips p1 == Player.chips p + (if (fst w =? k)%nat then a else 0)).
    { unfold s'. simpl. destruct (Nat.eqb_spec (fst w) k) as [<-|Hne].
      - rewrite (nth_updateAt_same _ _ _ _ Hk). eexists; split; [reflexivity|]. simpl. lra.
      - rewrite nth_updateAt_other by exact Hne. exists p. split; [exact Hk | lra]. }
    destruct Hk' as [p1 [H1 E1]].
    destruct (IH s' p1 H1) as [p' [H' E']]. exists p'. split; [exact H'|].
    destruct (Nat.eq_dec (fst w) k) as [Ew|Ew].
    + rewrite (proj2 (Nat.eqb_eq _ _) Ew) in E1. rewrite nat_succ_Q. nra.
    + rewrite (proj2 (Nat.eqb_neq _ _) Ew) in E1. lra.
Qed.

Lemma splitPot_sum ws s a :
  (forall w, In w ws -> exists p, nth_error (players s) (fst w) = Some p) ->
  sumChips (players (splitPot s ws a)) ==
    sumChips (players s) + inject_Z (Z.of_nat (length ws)) * a.
Proof.
  revert s; induction ws as [|w ws IH]; intros s Hv.
  - cbn [length splitPot fold_left]. change (inject_Z (Z.of_nat 0)) with 0. lra.
  - unfold splitPot. cbn [fold_left length].
    fold (splitPot (withPlayers s (updateAt (fst w) (addChips a) (players s))) ws a).
    destruct (Hv w (or_introl eq_refl)) as [p Hp].
    rewrite IH.
    + cbn [players withPlayers]. rewrite (sumChips_updateAt _ _ _ _ Hp).
      cbn [addChips Player.chips]. rewrite nat_succ_Q. nra.
    + intros w' Hw'. destruct (Hv w' (or_intror Hw')) as [q Hq]. simpl.
      destruct (Nat.eq_dec (fst w) (fst w')) as [E|E].
      * rewrite <- E in *. rewrite (nth_updateAt_same _ _ _ _ Hq). eauto.
      * rewrite nth_updateAt_other by exact E. eauto.
Qed.

Lemma count_topSeats s k :
  count_occ Nat.eq_dec (topSeats s) k = if existsb (Nat.eqb k) (topSeats s) then 1%nat else 0%nat.
Proof.
  assert (Hnd := topSeats_NoDup s).
  destruct (existsb (Nat.eqb k) (topSeats s)) eqn:E.
  - apply existsb_exists in E as [x [Hx Ex]]. apply Nat.eqb_eq in Ex. subst x.
    apply (proj1 (NoDup_count_occ' Nat.eq_dec _) Hnd). exact Hx.
  - apply count_occ_not_In. intro Hx. rewrite <- not_true_iff_false in E. apply E.
    apply existsb_exists. exists k. split; [exact Hx | apply Nat.eqb_refl].
Qed.

(** C5 (as amended): at showdown with at least one contender, every seat
    tied for the best hand among the contenders receives [splitShare]:
    the entire pot when it is the only such seat (in particular the
    uncontested seat), [floor(pot / n)] when [n >= 2] seats tie; the
    other seats receive nothing and the pot is 0 afterwards. *)
Theorem showdown_pays_top_seats (s : Engine) :
  contenders s <> [] ->
  exists s', showdown s = Some s' /\ pot s' == 0 /\
    forall k p, nth_error (players s) k = Some p ->
      exists p', nth_error (players s') k = Some p' /\
                 Player.chips p' == Player.chips p + share s k.
Proof.
  intro Hne.
  destruct (showdown_outcome s Hne) as [s1 [winners [Hps [Hpot [Hperm Hsd]]]]].
  rewrite Hsd. unfold share, splitShare.
  assert (Hlen : length winners = length (topSeats s)).
  { rewrite <- (Permutation_length Hperm). symmetry. apply length_map. }
  destruct winners as [|w [|w2 ws]] eqn:Hw.
  - eexists; split; [reflexivity|]. split; [reflexivity|].
    intros k p Hk. rewrite (Permutation_nil Hperm). simpl.
    exists p. split; [rewrite Hps; exact Hk | lra].
  - eexists; split; [reflexivity|]. split; [reflexivity|].
    intros k p Hk. simpl in Hperm. rewrite (Permutation_length_1_inv Hperm). simpl.
    rewrite <- Hps in Hk. destruct (awardPot_chips s1 (fst w) k p Hk) as [p' [H' E']].
    exists p'. split; [exact H'|]. rewrite Hpot in E'.
    destruct (k =? fst w)%nat; simpl; lra.
  - eexists; split; [reflexivity|]. split; [reflexivity|].
    intros k p Hk. rewrite <- Hps in Hk.
    destruct (splitPot_chips (w :: w2 :: ws) s1
                (inject_Z (Qfloor (pot s / inject_Z (Z.of_nat (length (w :: w2 :: ws))))))
                k p Hk) as [p' [H' E']].
    exists p'. split; [exact H'|]. rewrite E'.
    rewrite (proj1 (Permutation_count_occ Nat.eq_dec _ _) Hperm k), count_topSeats.
    rewrite <- Hlen.
    replace (length (w :: w2 :: ws) =? 1)%nat with false by reflexivity.
    destruct (existsb (Nat.eqb k) (topSeats s));
      [change (inject_Z (Z.of_nat 1)) with 1 | change (inject_Z (Z.of_nat 0)) with 0]; lra.
Qed.

Lemma showdown_total s s' :
  showdown s = Some s' -> totalChips s' == totalChips s - pot s + showdownPayout s.
Proof.
  intro Hsd.
  destruct (contenders s) as [|c cs] eqn:Hc.
  { rewrite (showdown_none s Hc) in Hsd. discriminate. }
  assert (Hne : contenders s <> []) by congruence.
  destruct (showdown_outcome s Hne) as [s1 [winners [Hps [Hpot [Hperm Hsd']]]]].
  rewrite Hsd' in Hsd. clear Hsd'.
  assert (Hlen : length winners = length (topSeats s)).
  { rewrite <- (Permutation_length Hperm). symmetry. apply length_map. }
  assert (Hv : forall w, In w winners -> exists p, nth_error (players s1) (fst w) = Some p).
  { intros w Hw. rewrite Hps. apply topSeats_valid.
    apply (Permutation_in _ Hperm). apply in_map. exact Hw. }
  unfold showdownPayout. rewrite <- Hlen.
  rewrite !totalChips_sum.
  destruct winners as [|w [|w2 ws]];
    [injection Hsd as <- | injection Hsd as <- |].

  - cbn [players pot withPot splitPot fold_left length Nat.eqb]. rewrite Hps.
    change (inject_Z (Z.of_nat 0)) with 0. lra.
  - destruct (Hv w (or_introl eq_refl)) as [p Hp].
    unfold awardPot. simpl. rewrite (sumChips_updateAt _ _ _ _ Hp). simpl.
    rewrite Hps, Hpot. lra.
  - pose proof (f_equal (fun o => match o with Some x => x | None => s end) Hsd) as Hs.
    cbv beta iota in Hs. subst s'.
    match goal with |- context [splitPot s1 ?l ?a] =>
      pose proof (splitPot_sum l s1 a Hv) as E end.
    set (sp := splitPot s1 _ _) in *.
    change (players (withPot sp 0)) with (players sp).
    change (pot (withPot sp 0)) with 0.
    rewrite Hps, ?Hpot in E.
    replace (length (w :: w2 :: ws) =? 1)%nat with false by reflexivity. lra.
Qed.

(** Chips a showdown does not hand out: the remainder of a split. *)
Fixpoint droppedChips (s : Engine) (es : list Event) : Q :=
  match es with
  | [] => 0
  | e :: t =>
      match step s e with
      | Some s' =>
          (match e with EvShowdown => pot s - showdownPayout s | _ => 0 end)
          + droppedChips s' t
      | None => 0
      end
  end.

Lemma step_total s e s' :
  step s e = Some s' ->
  totalChips s' == totalChips s - (match e with EvShowdown => pot s - showdownPayout s | _ => 0 end).
Proof.
  destruct e; simpl; intro H.
  - injection H as <-. rewrite postBlinds_total. lra.
  - injection H as <-. rewrite executePlayerAction_total. lra.
  - injection H as <-. rewrite resetBets_total. lra.
  - rewrite (showdown_total _ _ H). lra.
Qed.

Lemma run_total s es s' :
  run s es = Some s' -> totalChips s' + droppedChips s es == totalChips s.
Proof.
  revert s; induction es as [|e t IH]; intros s H; simpl in *.
  - injection H as <-. lra.
  - destruct (step s e) as [s1|] eqn:E; [|discriminate].
    pose proof (IH s1 H). pose proof (step_total _ _ _ E). lra.
Qed.

(** C4 (as amended): posting the blinds, applying any action with any
    amount, and the bet reset that ends a betting round ([resetBets])
    each leave the sum of the stacks plus the pot unchanged; a showdown
    replaces the pot by the chips it hands out ([showdownPayout]: the
    whole pot to a single best seat, [n * floor(pot / n)] to [n >= 2]
    tied seats); so over any run of a hand the total at the end plus the
    dropped split remainders equals the total at the start. *)
Theorem chips_conserved_but_split_remainder :
  (forall s, totalChips (postBlinds s) == totalChips s) /\
  (forall s i a amount, totalChips (executePlayerAction s i a amount) == totalChips s) /\
  (forall s, totalChips (resetBets s) == totalChips s) /\
  (forall s s', showdown s = Some s' ->
     totalChips s' == totalChips s - pot s + showdownPayout s) /\
  (forall s es s', run s es = Some s' -> totalChips s' + droppedChips s es == totalChips s).
Proof.
  split; [exact postBlinds_total|].
  split; [exact executePlayerAction_total|].
  split; [exact resetBets_total|].
  split; [exact showdown_total | exact run_total].
Qed.


(** A raise moves [min(callAmount + amount, chips)] from the seat to the
    pot, so the stack never goes below 0, and a seat left with 0 chips is
    marked all-in. *)
Lemma executePlayerAction_raise s i p a :
  nth_error (players s) i = Some p ->
  exists m p', getCurrentBet s = Some m /\
    nth_error (players (executePlayerAction s i Raise a)) i = Some p' /\
    Player.chips p' == Player.chips p - Qmin (m - Player.currentBet p + a) (Player.chips p) /\
    pot (executePlayerAction s i Raise a)
      == pot s + Qmin (m - Player.currentBet p + a) (Player.chips p) /\
    (Player.chips p' == 0 -> Player.isAllIn p' = true).
Proof.
  intro Hp.
  assert (Hne : players s <> []) by (intro E; rewrite E in Hp; destruct i; discriminate).
  destruct (getCurrentBet_some s Hne) as [m Hm].
  exists m. unfold executePlayerAction. rewrite Hp, Hm.
  eexists. split; [reflexivity|].
  split; [cbn [players withPot withPlayers]; apply nth_updateAt_same; exact Hp|].
  unfold commitChips. cbn [Player.chips Player.isAllIn pot withPot].
  split; [reflexivity|]. split; [reflexivity|].
  intro H0. apply Qeq_bool_iff in H0. rewrite H0. reflexivity.
Qed.

(** The engine's [aiDifficulty] default (3) with the aggressive profile. *)
Definition aggressiveAI : PokerAI.t :=
  PokerAI.mk (PokerAI.PERSONALITIES PokerAI.aggressive) (PokerAI.mkDifficulty 0.7 0.15 0.6).

(** A flop after a bet of 100: seat 2 holds a pair of sevens (a set on
    this board) with a stack of 50 and nothing bet yet. *)
Definition aiState : Engine :=
  mkEngine [] [Card.mk 7 clubs; Card.mk 2 spades; Card.mk 9 diamonds]
    [Player.mk 0 900 [Card.mk 13 hearts; Card.mk 12 clubs] 100 110 false true false false;
     Player.mk 1 990 [Card.mk 4 hearts; Card.mk 5 clubs] 0 10 true true false true;
     Player.mk 2 50 [Card.mk 7 hearts; Card.mk 7 diamonds] 0 10 true true false false]
    2 0 5 10 130 flop.

Definition aiSeat : Player.t :=
  Player.mk 2 50 [Card.mk 7 hearts; Card.mk 7 diamonds] 0 10 true true false false.

(** The draws of [Math.random()]: 0.5, 0.5, 0.9. *)
Definition draws (k : nat) : Q := nth k [0.5; 0.5; 0.9] 0.

Definition aiRaise : PokerAI.Decision :=
  PokerAI.mkDecision Raise (Some (201945975000 # 140000000000)) false.

(** C8 (as amended): the agent's raise is not bounded by the stack, but
    the engine clamps it.  When [calculateAIDecision] returns a raise for
    seat [i], a bluff raises at most 30% of the seat's stack, and
    [processAIDecision] moves [c = min(callAmount + amount, chips)] from
    the seat to the pot: the stack never goes below 0, and a seat left
    with 0 chips is all-in. *)
Theorem ai_raise_clamped_to_stack ai s i p rng k d k' :
  nth_error (players s) i = Some p ->
  calculateAIDecision ai s p rng k = (Some d, k') ->
  PokerAI.action d = Raise ->
  (PokerAI.isBluff d = true ->
     exists a, PokerAI.amount d = Some a /\ a <= Player.chips p * 0.3) /\
  exists m s' p', getCurrentBet s = Some m /\
    processAIDecision ai s i rng k = (Some s', k') /\
    nth_error (players s') i = Some p' /\
    Player.chips p' == Player.chips p - Qmin (m - Player.currentBet p + amountOf d) (Player.chips p) /\
    pot s' == pot s + Qmin (m - Player.currentBet p + amountOf d) (Player.chips p) /\
    (Player.chips p' == 0 -> Player.isAllIn p' = true).
Proof.
  intros Hp Hd Ha. split.
  - intro Hb. unfold calculateAIDecision in Hd.
    destruct (getCurrentBet s) as [m|]; [|discriminate].
    destruct (PokerAIFacts.makeDecision_bluff_amount _ _ _ _ _ _ _ Hd Hb) as [_ H].
    exact H.
  - destruct (executePlayerAction_raise s i p (amountOf d) Hp)
      as [m [p' [Hm [Hp' [Hc [Hpot Hall]]]]]].
    exists m, (executePlayerAction s i Raise (amountOf d)), p'.
    split; [exact Hm|]. split.
    + unfold processAIDecision. rewrite Hp, Hd, Ha. reflexivity.
    + auto.
Qed.

Lemma ai_raise_clamped_to_stack_witness :
  nth_error (players aiState) 2 = Some aiSeat /\
  calculateAIDecision aggressiveAI aiState aiSeat draws 0%nat = (Some aiRaise, 3%nat) /\
  PokerAI.action aiRaise = Raise /\
  exists m s' p', getCurrentBet aiState = Some m /\
    processAIDecision aggressiveAI aiState 2 draws 0%nat = (Some s', 3%nat) /\
    nth_error (players s') 2 = Some p' /\
    Player.chips p' == Player.chips aiSeat
                       - Qmin (m - Player.currentBet aiSeat + amountOf aiRaise) (Player.chips aiSeat) /\
    pot s' == pot aiState
              + Qmin (m - Player.currentBet aiSeat + amountOf aiRaise) (Player.chips aiSeat) /\
    (Player.chips p' == 0 -> Player.isAllIn p' = true).
Proof.
  assert (H1 : nth_error (players aiState) 2 = Some aiSeat) by reflexivity.
  assert (H2 : calculateAIDecision aggressiveAI aiState aiSeat draws 0%nat = (Some aiRaise, 3%nat))
    by (vm_compute; reflexivity).
  assert (H3 : PokerAI.action aiRaise = Raise) by reflexivity.
  split; [exact H1|]. split; [exact H2|]. split; [exact H3|].
  exact (proj2 (ai_raise_clamped_to_stack aggressiveAI aiState 2 aiSeat draws 0%nat aiRaise 3 H1 H2 H3)).
Defined.

(** C8 counterexample: with the engine's defaults (aggressive profile,
    difficulty 3) seat 2 facing a bet of 100 with a stack of 50 gets a
    raise of about 1.44 on top of the call: a commitment above its
    stack. *)
Lemma ai_raise_exceeds_stack :
  PokerAI.createAI PokerAI.aggressive 3 = Some aggressiveAI /\
  nth_error (players aiState) 2 = Some aiSeat /\
  calculateAIDecision aggressiveAI aiState aiSeat draws 0%nat = (Some aiRaise, 3%nat) /\
  getCurrentBet aiState = Some 100 /\
  Player.chips aiSeat < 100 - Player.currentBet aiSeat + amountOf aiRaise.
Proof.
  split; [reflexivity|]. split; [reflexivity|]. split; [vm_compute; reflexivity|].
  split; [vm_compute; reflexivity|]. vm_compute. reflexivity.
Qed.

(** Three seats of 1000 chips, dealer 0, blinds 5/10, before the blinds. *)
Definition tableAt (board h0 h1 h2 : list Card.t) : Engine :=
  mkEngine [] board [seatWith 0 1000 h0 false; seatWith 1 1000 h1 true; seatWith 2 1000 h2 true]
           0 0 5 10 0 preflop.

(** A royal flush on the board: every seat left plays the board. *)
Definition splitTable : Engine :=
  tableAt [Card.mk 10 spades; Card.mk 11 spades; Card.mk 12 spades; Card.mk 13 spades;
           Card.mk 14 spades]
          [Card.mk 2 hearts; Card.mk 3 clubs] [Card.mk 4 hearts; Card.mk 5 clubs]
          [Card.mk 6 hearts; Card.mk 7 clubs].

(** The button calls, the small blind folds, the big blind checks: a pot
    of 25 split between two seats. *)
Definition splitHand : list Event :=
  [EvBlinds; EvAction 0 Call 0; EvAction 1 Fold 0; EvAction 2 Check 0; EvRoundEnd; EvShowdown].

Lemma chips_conserved_but_split_remainder_witness :
  exists s', run splitTable splitHand = Some s' /\
    totalChips s' + droppedChips splitTable splitHand == totalChips splitTable.
Proof.
  destruct (run splitTable splitHand) as [s'|] eqn:E; [|vm_compute in E; discriminate].
  exists s'. split; [reflexivity|].
  exact (proj2 (proj2 (proj2 (proj2 chips_conserved_but_split_remainder))) _ _ _ E).
Defined.

(** C4 counterexample: the hand above starts with 3000 chips in play and
    ends with 2999 in the stacks and an empty pot; the odd chip of the
    split is lost. *)
Lemma split_remainder_lost :
  match run splitTable splitHand with
  | Some s' => totalChips splitTable == 3000 /\ totalChips s' == 2999 /\ pot s' == 0
  | None => False
  end.
Proof. vm_compute. split; [reflexivity|]. split; reflexivity. Qed.

(** A hand where the button raises by the agent's fractional amount of
    [aiRaise], the small blind folds and the big blind calls; the pocket
    aces of seat 0 are the only best hand. *)
Definition raisedTable : Engine :=
  let s := tableAt [Card.mk 2 clubs; Card.mk 7 diamonds; Card.mk 9 hearts; Card.mk 11 spades;
                    Card.mk 13 clubs]
                   [Card.mk 14 hearts; Card.mk 14 diamonds] [Card.mk 4 hearts; Card.mk 5 clubs]
                   [Card.mk 3 hearts; Card.mk 8 clubs] in
  match run s [EvBlinds; EvAction 0 Raise (201945975000 # 140000000000); EvAction 1 Fold 0;
               EvAction 2 Call 0; EvRoundEnd] with
  | Some s' => s'
  | None => s
  end.

Lemma showdown_pays_top_seats_witness :
  contenders raisedTable <> [] /\
  exists s', showdown raisedTable = Some s' /\ pot s' == 0 /\
    forall k p, nth_error (players raisedTable) k = Some p ->
      exists p', nth_error (players s') k = Some p' /\
                 Player.chips p' == Player.chips p + share raisedTable k.
Proof.
  assert (H : contenders raisedTable <> []) by (vm_compute; discriminate).
  split; [exact H|]. exact (showdown_pays_top_seats raisedTable H).
Defined.

(** C5 counterexample: two seats reach the showdown with a pot of about
    27.88; the single best seat receives all of it, not
    [floor(pot / 1) = 27]. *)
Lemma single_winner_gets_whole_pot :
  length (contenders raisedTable) = 2%nat /\ topSeats raisedTable = [0%nat] /\
  Qfloor (pot raisedTable / inject_Z 1) = 27%Z /\
  ~ (pot raisedTable == 27) /\
  match showdown raisedTable, nth_error (players raisedTable) 0 with
  | Some s', Some p =>
      exists p', nth_error (players s') 0 = Some p' /\
                 Player.chips p' == Player.chips p + pot raisedTable
  | _, _ => False
  end.
Proof.
  split; [vm_compute; reflexivity|]. split; [vm_compute; reflexivity|].
  split; [vm_compute; reflexivity|]. split; [vm_compute; discriminate|].
  vm_compute. eexists. split; reflexivity.
Qed.

Lemma postBlinds_never_sets_allin_witness :
  exists p', nth_error (players (postBlinds shortBigBlind)) 1%nat = Some p' /\
             Player.isAllIn p' = false.
Proof.
  exact (proj1 postBlinds_never_sets_allin shortBigBlind 1%nat (seatWith 1 1000 [] true) eq_refl).
Defined.

Lemma dealCard_spec_witness :
  dealCard emptyDeckEngine = (None, emptyDeckEngine) /\
  dealCard (withDeck emptyDeckEngine [Card.mk 2 clubs; Card.mk 14 spades])
    = (Some (Card.mk 14 spades), withDeck (withDeck emptyDeckEngine [Card.mk 2 clubs;
                                                                      Card.mk 14 spades])
                                            [Card.mk 2 clubs]).
Proof.
  split.
  - exact (proj1 (dealCard_spec emptyDeckEngine) eq_refl).
  - apply (proj2 (dealCard_spec _) [Card.mk 2 clubs] (Card.mk 14 spades)). reflexivity.
Defined.

End PokerEngineFacts.

(** ** More of the hand evaluator: every board size, kicker origins, strength *)
Module HandEvaluatorMore.
Import JS HandEvaluator HandEvaluatorFacts.
Local Open Scope Z_scope.

Ltac some_inj H :=
  apply (f_equal (fun o => match o with Some y => y | None => HandResult.mk 0 [] end)) in H;
  cbv beta iota in H.

Lemma firstSome_inv_in {A B} (P : B -> Prop) (f : A -> option B) l r :
  (forall x r, In x l -> f x = Some r -> P r) -> firstSome f l = Some r -> P r.
Proof.
  intro Hf. induction l as [|x t IH]; simpl; [discriminate|].
  destruct (f x) eqn:E.
  - intro H. inversion H; subst. eapply Hf; [left; reflexivity | exact E].
  - apply IH. intros y r' Hy. apply Hf. right. exact Hy.
Qed.

Lemma in_firstn_in {A} n (l : list A) x : In x (firstn n l) -> In x l.
Proof.
  intro H. rewrite <- (firstn_skipn n l). apply in_or_app. left. exact H.
Qed.

Lemma subseq_in {A} (s l : list A) x : subseq s l -> In x s -> In x l.
Proof. induction 1; simpl; intuition. Qed.

Lemma bump_keys r r' c m :
  In (r', c) (bump r m) -> r' = r \/ In r' (map fst m).
Proof.
  induction m as [|[k n] t IH]; simpl.
  - intros [E|[]]. inversion E. auto.
  - destruct (r =? k) eqn:E1.
    + intros [E|H]; [inversion E; subst; auto|].
      right. right. apply (in_map fst) in H. exact H.
    + destruct (r <? k).
      * intros [E|[E|H]]; [inversion E; auto|inversion E; subst; auto|].
        right. right. apply (in_map fst) in H. exact H.
      * intros [E|H]; [inversion E; subst; auto|].
        destruct (IH H); auto.
Qed.

Lemma getRankCounts_keys cards r c :
  In (r, c) (getRankCounts cards) -> In r (map rank cards).
Proof.
  unfold getRankCounts.
  assert (G : forall cs m0 c0, In (r, c0) (fold_left (fun m c => bump (rank c) m) cs m0) ->
                In r (map fst m0) \/ In r (map rank cs)).
  { induction cs as [|x cs IH]; intros m0 c0 H; simpl in *.
    { left. apply (in_map fst) in H. exact H. }
    destruct (IH _ _ H) as [H1|H1]; [|auto].
    apply in_map_iff in H1 as ([r1 c1] & E & H1). simpl in E. subst r1.
    destruct (bump_keys _ _ _ _ H1); auto. }
  intro H. destruct (G _ _ _ H) as [[]|H1]. exact H1.
Qed.

Lemma pushSuit_members c g sg x :
  In sg (pushSuit c g) -> In x (snd sg) ->
  x = c \/ exists sg', In sg' g /\ In x (snd sg').
Proof.
  induction g as [|[s cs] t IH]; simpl.
  - intros [<-|[]] [<-|[]]. auto.
  - destruct (Suit_eqb s (esuit c)).
    + intros [<-|H] Hx.
      * simpl in Hx. apply in_app_or in Hx as [Hx|[<-|[]]]; [|auto].
        right. exists (s, cs). auto.
      * right. exists sg. auto.
    + intros [<-|H] Hx.
      * right. exists (s, cs). auto.
      * destruct (IH H Hx) as [E|(sg' & H1 & H2)]; [auto|].
        right. exists sg'. auto.
Qed.

Lemma getFlushCards_members cards g x :
  In g (getFlushCards cards) -> In x g -> In x cards.
Proof.
  unfold getFlushCards, suitGroups. intros Hg Hx.
  apply in_map_iff in Hg as (sg & <- & Hsg).
  apply (Permutation_in _ (sortBy_perm _ _)) in Hx.
  assert (G : forall cs g0 sg0,
            In sg0 (fold_left (fun g c => pushSuit c g) cs g0) -> In x (snd sg0) ->
            In x cs \/ exists sg', In sg' g0 /\ In x (snd sg')).
  { induction cs as [|y cs IH]; intros g0 sg0 H1 H2; simpl in *.
    - right. exists sg0. auto.
    - destruct (IH _ _ H1 H2) as [H|(sg' & H3 & H4)]; [auto|].
      destruct (pushSuit_members _ _ _ _ H3 H4) as [<-|H]; auto. }
  destruct (G _ _ _ Hsg Hx) as [H|(sg' & [] & _)]. exact H.
Qed.

Lemma scanStraight_in u h : scanStraight u = Some h -> In h u.
Proof.
  induction u as [|a t IH]; [discriminate|].
  intro H.
  change (match nth_error (a :: t) 4 with
          | Some e => if (a - e =? 4) then Some a else scanStraight t
          | None => None end = Some h) in H.
  destruct (nth_error (a :: t) 4); [|discriminate].
  destruct (a - z =? 4); [inversion H; left; reflexivity|right; auto].
Qed.

Lemma findStraight_in cards h :
  findStraight cards = Some h -> In h (map rank cards).
Proof.
  unfold findStraight.
  set (u := sortBy numDesc (setOf (map rank cards))).
  assert (Hin : forall v, In v u -> In v (map rank cards)).
  { intros v Hv. apply in_setOf. apply (Permutation_in _ (sortBy_perm numDesc _)). exact Hv. }
  destruct (includes u 14 && includes u 5 && includes u 4 && includes u 3 &&
            includes u 2) eqn:W.
  - intro H. inversion H; subst h. repeat rewrite andb_true_iff in W.
    destruct W as [[[[_ W5] _] _] _]. apply includes_iff in W5. auto.
  - intro H. apply Hin. apply scanStraight_in. exact H.
Qed.

(** A kicker is a rank of one of the cards, or the padding 0. *)
Definition fromCards (cards : list EvalCard.t) (k : Z) : Prop :=
  k = 0 \/ In k (map rank cards).

Definition kickersFrom (cards : list EvalCard.t) (h : HandResult.t) : Prop :=
  Forall (fromCards cards) (HandResult.kickers h).

Lemma map_rank_sub cards l :
  (forall x, In x l -> In x cards) -> Forall (fromCards cards) (map rank l).
Proof.
  intro H. apply Forall_forall. intros k Hk. right.
  apply in_map_iff in Hk as (x & <- & Hx). apply in_map. auto.
Qed.

Lemma sortBy_in {A} (cmp : A -> A -> Z) l x : In x (sortBy cmp l) -> In x l.
Proof. apply Permutation_in, sortBy_perm. Qed.

Lemma find_rank_from cards p :
  fromCards cards (match find p cards with Some k => rank k | None => 0 end).
Proof.
  unfold find. destruct (List.find p cards) eqn:E; [|left; reflexivity].
  right. apply in_map. apply (find_some _ _ E).
Qed.

Lemma checkRoyalFlush_kickers cards h :
  checkRoyalFlush cards = Some h -> kickersFrom cards h.
Proof.
  unfold checkRoyalFlush. apply firstSome_inv_in. intros g r Hg H.
  destruct (5 <=? length g)%nat; [|discriminate].
  destruct (sortBy numDesc (map rank g)) as [|r0 [|r1 [|r2 [|r3 [|r4 t]]]]] eqn:E;
    try discriminate.
  destruct ((r0 =? 14) && (r1 =? 13) && (r2 =? 12) && (r3 =? 11) && (r4 =? 10)) eqn:C;
    [|discriminate].
  inversion H; subst r. repeat rewrite andb_true_iff in C.
  destruct C as [[[[C _] _] _] _]. apply Z.eqb_eq in C. subst r0.
  constructor; [|constructor]. right.
  assert (I : In 14 (map rank g)) by (apply (sortBy_in numDesc); rewrite E; left; reflexivity).
  apply in_map_iff in I as (x & Ex & Ix). rewrite <- Ex. apply in_map.
  apply (getFlushCards_members _ _ _ Hg Ix).
Qed.

Lemma checkStraightFlush_kickers cards h :
  checkStraightFlush cards = Some h -> kickersFrom cards h.
Proof.
  unfold checkStraightFlush. apply firstSome_inv_in. intros g r Hg H.
  destruct (5 <=? length g)%nat; [|discriminate].
  destruct (findStraight g) as [high|] eqn:E; [|discriminate].
  inversion H; subst r. constructor; [|constructor]. right.
  apply findStraight_in in E. apply in_map_iff in E as (x & <- & Ix).
  apply in_map. apply (getFlushCards_members _ _ _ Hg Ix).
Qed.

Lemma checkFourOfAKind_kickers cards h :
  checkFourOfAKind cards = Some h -> kickersFrom cards h.
Proof.
  unfold checkFourOfAKind. apply firstSome_inv_in. intros [r0 n] r Hx H.
  destruct (4 <=? n)%nat; [|discriminate]. inversion H; subst r.
  constructor; [right; apply (getRankCounts_keys _ _ _ Hx)|].
  constructor; [apply find_rank_from | constructor].
Qed.

Lemma find_key_in (p : Z * nat -> bool) m r c :
  find p m = Some (r, c) -> In (r, c) m.
Proof. unfold find. apply find_some. Qed.

Lemma checkFullHouse_kickers cards h :
  checkFullHouse cards = Some h -> kickersFrom cards h.
Proof.
  unfold checkFullHouse.
  destruct (find (fun rc => (3 <=? snd rc)%nat) (getRankCounts cards)) as [[t c]|] eqn:E1;
    [|discriminate].
  destruct (t =? 0); [discriminate|].
  destruct (find (fun rc => negb (fst rc =? t) && (2 <=? snd rc)%nat) (getRankCounts cards))
    as [[q c']|] eqn:E2; [|discriminate].
  destruct (q =? 0); [discriminate|].
  intro H. inversion H; subst h.
  apply find_key_in, getRankCounts_keys in E1. apply find_key_in, getRankCounts_keys in E2.
  constructor; [right; exact E1|]. constructor; [right; exact E2|constructor].
Qed.

Lemma checkFlush_kickers cards h :
  checkFlush cards = Some h -> kickersFrom cards h.
Proof.
  unfold checkFlush. apply firstSome_inv_in. intros g r Hg H.
  destruct (5 <=? length g)%nat; [|discriminate]. some_inj H. subst r.
  apply map_rank_sub. intros x Hx. apply in_firstn_in in Hx.
  apply (getFlushCards_members _ _ _ Hg Hx).
Qed.

Lemma checkStraight_kickers cards h :
  checkStraight cards = Some h -> kickersFrom cards h.
Proof.
  unfold checkStraight. destruct (findStraight cards) as [high|] eqn:E; [|discriminate].
  intro H. inversion H; subst h. constructor; [|constructor].
  right. apply findStraight_in. exact E.
Qed.

Lemma filter_sorted_firstn_sub cards n (p : EvalCard.t -> bool) x :
  In x (firstn n (sortBy byRankDesc (filter p cards))) -> In x cards.
Proof.
  intro H. apply in_firstn_in, sortBy_in in H. apply filter_In in H. apply H.
Qed.

Lemma checkThreeOfAKind_kickers cards h :
  checkThreeOfAKind cards = Some h -> kickersFrom cards h.
Proof.
  unfold checkThreeOfAKind. apply firstSome_inv_in. intros [r0 n] r Hx H.
  destruct (3 <=? n)%nat; [|discriminate]. some_inj H. subst r.
  constructor; [right; apply (getRankCounts_keys _ _ _ Hx)|].
  apply map_rank_sub. intros x. apply filter_sorted_firstn_sub.
Qed.

Lemma checkPair_kickers cards h :
  checkPair cards = Some h -> kickersFrom cards h.
Proof.
  unfold checkPair. apply firstSome_inv_in. intros [r0 n] r Hx H.
  destruct (2 <=? n)%nat; [|discriminate]. some_inj H. subst r.
  constructor; [right; apply (getRankCounts_keys _ _ _ Hx)|].
  apply map_rank_sub. intros x. apply filter_sorted_firstn_sub.
Qed.

Lemma nth_pairs_from cards i :
  fromCards cards
    (nth i (sortBy numDesc
              (map fst (filter (fun rc => (2 <=? snd rc)%nat) (getRankCounts cards)))) 0).
Proof.
  destruct (nth_in_or_default i (sortBy numDesc
              (map fst (filter (fun rc => (2 <=? snd rc)%nat) (getRankCounts cards)))) 0)
    as [H|H].
  - right. apply sortBy_in in H. apply in_map_iff in H as ([r c] & <- & H).
    apply filter_In in H as [H _]. apply (getRankCounts_keys _ _ _ H).
  - rewrite H. left. reflexivity.
Qed.

Lemma checkTwoPair_kickers cards h :
  checkTwoPair cards = Some h -> kickersFrom cards h.
Proof.
  unfold checkTwoPair. destruct (_ <? 2)%nat; [discriminate|].
  intro H. some_inj H. subst h. unfold kickersFrom. cbn [HandResult.kickers].
  constructor; [apply nth_pairs_from|].
  constructor; [apply nth_pairs_from|].
  constructor; [apply find_rank_from|constructor].
Qed.

Lemma checkHighCard_kickers cards : kickersFrom cards (checkHighCard cards).
Proof.
  unfold checkHighCard, kickersFrom. cbn [HandResult.kickers].
  apply map_rank_sub. intros x Hx. apply in_firstn_in, sortBy_in in Hx. exact Hx.
Qed.

Lemma evaluateHand_kickers cards :
  Forall (fun k => k = 0 \/ In k (map Card.value cards))
         (HandResult.kickers (evaluateHand cards)).
Proof.
  set (ec := sortBy byRankDesc (map toEval cards)).
  assert (Hec : forall k, fromCards ec k -> k = 0 \/ In k (map Card.value cards)).
  { intros k [H|H]; [left; exact H|right].
    rewrite <- map_rank_toEval. apply in_map_iff in H as (x & <- & Hx).
    apply in_map. apply sortBy_in in Hx. exact Hx. }
  assert (K : kickersFrom ec (evaluateHand cards)).
  { unfold evaluateHand. fold ec.
    destruct (checkRoyalFlush ec) eqn:E1; [apply checkRoyalFlush_kickers; exact E1|].
    destruct (checkStraightFlush ec) eqn:E2; [apply checkStraightFlush_kickers; exact E2|].
    destruct (checkFourOfAKind ec) eqn:E3; [apply checkFourOfAKind_kickers; exact E3|].
    destruct (checkFullHouse ec) eqn:E4; [apply checkFullHouse_kickers; exact E4|].
    destruct (checkFlush ec) eqn:E5; [apply checkFlush_kickers; exact E5|].
    destruct (checkStraight ec) eqn:E6; [apply checkStraight_kickers; exact E6|].
    destruct (checkThreeOfAKind ec) eqn:E7; [apply checkThreeOfAKind_kickers; exact E7|].
    destruct (checkTwoPair ec) eqn:E8; [apply checkTwoPair_kickers; exact E8|].
    destruct (checkPair ec) eqn:E9; [apply checkPair_kickers; exact E9|].
    apply checkHighCard_kickers. }
  eapply Forall_impl; [exact Hec | exact K].
Qed.

Lemma getBestFiveCardHand_from_subset playerCards communityCards h :
  getBestFiveCardHand playerCards communityCards = Some h ->
  exists sub, (forall x, In x sub -> In x (playerCards ++ communityCards)) /\
              h = evaluateHand sub.
Proof.
  unfold getBestFiveCardHand. set (all := playerCards ++ communityCards).
  destruct (length all <? 5)%nat.
  - intro H. inversion H; subst h. exists all. auto.
  - pose proof (fold_bestStep_inv (generateCombinations all 5) (None, 0) []
                  (or_introl (conj eq_refl eq_refl))) as Hinv.
    rewrite app_nil_l in Hinv.
    destruct Hinv as [[-> _] | (b & -> & _ & (c & Hc & ->))]; [discriminate|].
    intro H. inversion H; subst h. exists c. split; [|reflexivity].
    destruct (generateCombinations_sound 4 all c Hc) as [Hsub _].
    intros x Hx. apply (subseq_in _ _ _ Hsub Hx).
Qed.

(** The strength table applied to one hand result. *)
Definition strengthOf (hand : HandResult.t) : option Q :=
  match baseStrength (HandResult.rank hand) with
  | None => None
  | Some base =>
      let strength :=
        match HandResult.kickers hand with
        | [] => base
        | k0 :: _ => (base + inject_Z k0 / 14 * 0.05)%Q
        end in
      Some (Qmin strength 1)
  end.

Lemma getHandStrength_strengthOf playerCards communityCards :
  getHandStrength playerCards communityCards =
  match getBestFiveCardHand playerCards communityCards with
  | Some h => strengthOf h
  | None => None
  end.
Proof. reflexivity. Qed.

Lemma baseStrength_some r :
  1 <= r <= 10 -> exists b, baseStrength r = Some b /\ (0 <= b <= 1)%Q.
Proof.
  intro H.
  assert (r = 1 \/ r = 2 \/ r = 3 \/ r = 4 \/ r = 5 \/ r = 6 \/ r = 7 \/ r = 8 \/
          r = 9 \/ r = 10) as E by lia.
  repeat destruct E as [->|E]; try (subst r); eexists; (split; [reflexivity|]); lra.
Qed.

Lemma strengthOf_bounds h :
  1 <= HandResult.rank h <= 10 ->
  Forall (fun k => 0 <= k <= 14) (HandResult.kickers h) ->
  exists b q, baseStrength (HandResult.rank h) = Some b /\ strengthOf h = Some q /\
    (b <= q)%Q /\ (q <= 1)%Q /\ (q <= b + 0.05)%Q.
Proof.
  intros Hr Hk. destruct (baseStrength_some _ Hr) as (b & Hb & Hb01).
  unfold strengthOf. rewrite Hb. eexists b, _. split; [reflexivity|]. split; [reflexivity|].
  destruct (HandResult.kickers h) as [|k0 t].
  - pose proof (Q.le_min_r b 1). pose proof (Q.min_glb b b 1). split; [|split]; try lra.
    + apply Q.min_glb; lra.
    + pose proof (Q.le_min_l b 1). lra.
  - inversion Hk as [|? ? Hk0 _]; subst.
    assert (K : (0 <= inject_Z k0 <= 14)%Q).
    { split; [change 0%Q with (inject_Z 0)|change 14%Q with (inject_Z 14)];
        rewrite <- Zle_Qle; lia. }
    assert (K2 : (0 <= inject_Z k0 / 14 * 0.05 <= 0.05)%Q).
    { assert (E : (inject_Z k0 / 14 * 0.05 == inject_Z k0 * (1#280))%Q) by field.
      rewrite E. lra. }
    pose proof (Q.le_min_r (b + inject_Z k0 / 14 * 0.05) 1).
    pose proof (Q.le_min_l (b + inject_Z k0 / 14 * 0.05) 1).
    split; [apply Q.min_glb; lra|]. split; lra.
Qed.

Lemma getBestFiveCardHand_bounded playerCards communityCards h :
  Forall (fun c => 0 <= Card.value c <= 14) (playerCards ++ communityCards) ->
  getBestFiveCardHand playerCards communityCards = Some h ->
  1 <= HandResult.rank h <= 10 /\ Forall (fun k => 0 <= k <= 14) (HandResult.kickers h).
Proof.
  intros Hv H. destruct (getBestFiveCardHand_from_subset _ _ _ H) as (sub & Hsub & ->).
  split; [apply evaluateHand_rank_range|].
  eapply Forall_impl; [|apply evaluateHand_kickers].
  intros k [->|Hk]; [lia|]. apply in_map_iff in Hk as (c & <- & Hc).
  rewrite Forall_forall in Hv. apply Hv, Hsub, Hc.
Qed.

(** X1: for every input of five cards or more (the flop, the turn and
    the river), [getBestFiveCardHand] returns a result that is [>= 0]
    under [compareHands] against every five-card subsequence of the
    cards, and is the evaluation of one of them. *)
Theorem getBestFiveCardHand_best_of_all_subsets playerCards communityCards :
  (5 <= length (playerCards ++ communityCards))%nat ->
  exists best,
    getBestFiveCardHand playerCards communityCards = Some best /\
    (forall sub, subseq sub (playerCards ++ communityCards) -> length sub = 5%nat ->
       compareHands best (evaluateHand sub) >= 0) /\
    (exists sub, subseq sub (playerCards ++ communityCards) /\ length sub = 5%nat /\
       best = evaluateHand sub).
Proof.
  intro H5. unfold getBestFiveCardHand.
  set (all := playerCards ++ communityCards) in *.
  replace (length all <? 5)%nat with false by (symmetry; apply Nat.ltb_ge; exact H5).
  pose proof (fold_bestStep_inv (generateCombinations all 5) (None, 0) []
                (or_introl (conj eq_refl eq_refl))) as Hinv.
  rewrite app_nil_l in Hinv.
  destruct Hinv as [[_ Hs] | (b & Hb & Hge & (c & Hc & ->))].
  - exfalso.
    assert (Hin : In (firstn 5 all) (generateCombinations all 5)).
    { apply generateCombinations_complete; [apply subseq_firstn|].
      rewrite length_firstn. lia. }
    rewrite Hs in Hin. destruct Hin.
  - exists (evaluateHand c). rewrite Hb. split; [reflexivity|]. split.
    + intros sub Hsub Hlen. apply Hge.
      apply generateCombinations_complete; [exact Hsub | exact Hlen].
    + exists c. destruct (generateCombinations_sound 4 all c Hc) as [Hsub Hlen]. auto.
Qed.

Definition turnHole : list Card.t := [Card.mk 9 hearts; Card.mk 9 clubs].
Definition turnBoard : list Card.t :=
  [Card.mk 9 spades; Card.mk 4 diamonds; Card.mk 4 clubs; Card.mk 13 hearts].

Lemma getBestFiveCardHand_best_of_all_subsets_witness :
  (5 <= length (turnHole ++ turnBoard))%nat /\
  exists best,
    getBestFiveCardHand turnHole turnBoard = Some best /\
    (forall sub, subseq sub (turnHole ++ turnBoard) -> length sub = 5%nat ->
       compareHands best (evaluateHand sub) >= 0) /\
    (exists sub, subseq sub (turnHole ++ turnBoard) /\ length sub = 5%nat /\
       best = evaluateHand sub).
Proof.
  assert (H : (5 <= length (turnHole ++ turnBoard))%nat) by (simpl; lia).
  split; [exact H|]. exact (getBestFiveCardHand_best_of_all_subsets turnHole turnBoard H).
Defined.

(** X2: on every input [getBestFiveCardHand] returns a result whose
    category is between 1 (High Card) and 10 (Royal Flush) and whose
    kickers are each the value of one of the given cards or the padding
    0. *)
Theorem getBestFiveCardHand_kickers_from_cards playerCards communityCards :
  exists h, getBestFiveCardHand playerCards communityCards = Some h /\
    1 <= HandResult.rank h <= 10 /\
    Forall (fun k => k = 0 \/ In k (map Card.value (playerCards ++ communityCards)))
           (HandResult.kickers h).
Proof.
  destruct (getBestFiveCardHand_some playerCards communityCards) as [h H].
  exists h. split; [exact H|].
  destruct (getBestFiveCardHand_from_subset _ _ _ H) as (sub & Hsub & ->).
  split; [apply evaluateHand_rank_range|].
  eapply Forall_impl; [|apply evaluateHand_kickers].
  intros k [->|Hk]; [left; reflexivity|right].
  apply in_map_iff in Hk as (c & <- & Hc). apply in_map. apply Hsub, Hc.
Qed.

(** X3: for cards whose values lie in 0..14 (the deck's are 2..14),
    [getHandStrength] is defined and lies in [0, 1]: at least the table
    entry of the best hand's category, at most 0.05 above it. *)
Theorem getHandStrength_in_unit_interval playerCards communityCards :
  Forall (fun c => 0 <= Card.value c <= 14) (playerCards ++ communityCards) ->
  exists h b q,
    getBestFiveCardHand playerCards communityCards = Some h /\
    baseStrength (HandResult.rank h) = Some b /\
    getHandStrength playerCards communityCards = Some q /\
    (0 <= q <= 1)%Q /\ (b <= q <= b + 0.05)%Q.
Proof.
  intro Hv. destruct (getBestFiveCardHand_some playerCards communityCards) as [h H].
  destruct (getBestFiveCardHand_bounded _ _ _ Hv H) as [Hr Hk].
  destruct (strengthOf_bounds h Hr Hk) as (b & q & Hb & Hq & H1 & H2 & H3).
  destruct (baseStrength_some _ Hr) as (b' & Hb' & Hb01). rewrite Hb in Hb'.
  inversion Hb'; subst b'.
  exists h, b, q. rewrite getHandStrength_strengthOf, H.
  split; [reflexivity|]. split; [exact Hb|]. split; [exact Hq|].
  split; split; lra.
Qed.

Definition deckValues (cs : list Card.t) : Prop :=
  Forall (fun c => 0 <= Card.value c <= 14) cs.

Lemma getHandStrength_in_unit_interval_witness :
  deckValues (turnHole ++ turnBoard) /\
  exists h b q,
    getBestFiveCardHand turnHole turnBoard = Some h /\
    baseStrength (HandResult.rank h) = Some b /\
    getHandStrength turnHole turnBoard = Some q /\
    (0 <= q <= 1)%Q /\ (b <= q <= b + 0.05)%Q.
Proof.
  assert (H : deckValues (turnHole ++ turnBoard))
    by (repeat constructor; cbn; lia).
  split; [exact H|]. exact (getHandStrength_in_unit_interval turnHole turnBoard H).
Defined.

Lemma baseStrength_gap r1 r2 b1 b2 :
  1 <= r2 -> r2 < r1 -> r1 <= 10 ->
  baseStrength r1 = Some b1 -> baseStrength r2 = Some b2 ->
  (r1 = 10 /\ b1 = 1%Q) \/ (b2 + 0.05 <= b1)%Q.
Proof.
  intros H1 H2 H3 E1 E2.
  assert (r1 = 2 \/ r1 = 3 \/ r1 = 4 \/ r1 = 5 \/ r1 = 6 \/ r1 = 7 \/ r1 = 8 \/
          r1 = 9 \/ r1 = 10) as R1 by lia.
  assert (r2 = 1 \/ r2 = 2 \/ r2 = 3 \/ r2 = 4 \/ r2 = 5 \/ r2 = 6 \/ r2 = 7 \/ r2 = 8 \/
          r2 = 9) as R2 by lia.
  repeat destruct R1 as [->|R1]; try subst r1;
  (repeat destruct R2 as [->|R2]; try subst r2);
  try lia; inversion E1; inversion E2; subst;
  first [left; split; reflexivity | right; lra].
Qed.

(** X4: for cards whose values lie in 0..14, [getHandStrength] never
    ranks a hand of a lower category above a hand of a higher category:
    a better category gives a strength at least as large. *)
Theorem getHandStrength_monotone_in_category pc1 cc1 pc2 cc2 h1 h2 q1 q2 :
  deckValues (pc1 ++ cc1) -> deckValues (pc2 ++ cc2) ->
  getBestFiveCardHand pc1 cc1 = Some h1 -> getBestFiveCardHand pc2 cc2 = Some h2 ->
  getHandStrength pc1 cc1 = Some q1 -> getHandStrength pc2 cc2 = Some q2 ->
  HandResult.rank h2 < HandResult.rank h1 ->
  (q2 <= q1)%Q.
Proof.
  intros V1 V2 B1 B2 S1 S2 Hlt.
  destruct (getBestFiveCardHand_bounded _ _ _ V1 B1) as [Hr1 Hk1].
  destruct (getBestFiveCardHand_bounded _ _ _ V2 B2) as [Hr2 Hk2].
  destruct (strengthOf_bounds h1 Hr1 Hk1) as (b1 & q1' & Hb1 & Hq1 & L1 & U1 & _).
  destruct (strengthOf_bounds h2 Hr2 Hk2) as (b2 & q2' & Hb2 & Hq2 & L2 & U2 & V).
  rewrite getHandStrength_strengthOf, B1, Hq1 in S1. inversion S1; subst q1'.
  rewrite getHandStrength_strengthOf, B2, Hq2 in S2. inversion S2; subst q2'.
  destruct (baseStrength_gap _ _ _ _ (proj1 Hr2) Hlt (proj2 Hr1) Hb1 Hb2)
    as [[_ ->]|G]; lra.
Qed.

Definition flopHoleA : list Card.t := [Card.mk 9 hearts; Card.mk 9 clubs].
Definition flopHoleB : list Card.t := [Card.mk 14 hearts; Card.mk 13 clubs].
Definition flopBoard : list Card.t := [Card.mk 9 spades; Card.mk 4 diamonds; Card.mk 2 clubs].

Lemma getHandStrength_monotone_in_category_witness :
  exists h1 h2 q1 q2,
    getBestFiveCardHand flopHoleA flopBoard = Some h1 /\
    getBestFiveCardHand flopHoleB flopBoard = Some h2 /\
    getHandStrength flopHoleA flopBoard = Some q1 /\
    getHandStrength flopHoleB flopBoard = Some q2 /\
    HandResult.rank h2 < HandResult.rank h1 /\ (q2 <= q1)%Q.
Proof.
  assert (V1 : deckValues (flopHoleA ++ flopBoard)) by (repeat constructor; cbn; lia).
  assert (V2 : deckValues (flopHoleB ++ flopBoard)) by (repeat constructor; cbn; lia).
  assert (B1 : getBestFiveCardHand flopHoleA flopBoard
               = Some (evaluateHand (flopHoleA ++ flopBoard))) by reflexivity.
  assert (B2 : getBestFiveCardHand flopHoleB flopBoard
               = Some (evaluateHand (flopHoleB ++ flopBoard))) by reflexivity.
  destruct (getHandStrength flopHoleA flopBoard) as [q1|] eqn:S1; [|discriminate].
  destruct (getHandStrength flopHoleB flopBoard) as [q2|] eqn:S2; [|discriminate].
  assert (R : HandResult.rank (evaluateHand (flopHoleB ++ flopBoard))
              < HandResult.rank (evaluateHand (flopHoleA ++ flopBoard))) by (vm_compute; reflexivity).
  exists (evaluateHand (flopHoleA ++ flopBoard)), (evaluateHand (flopHoleB ++ flopBoard)), q1, q2.
  split; [exact B1|]. split; [exact B2|]. split; [reflexivity|]. split; [reflexivity|].
  split; [exact R|].
  exact (getHandStrength_monotone_in_category _ _ _ _ _ _ _ _ V1 V2 B1 B2 S1 S2 R).
Defined.

End HandEvaluatorMore.

(** ** Deck, dealing and phases *)

Module PokerEngineMore.
Import JS HandEvaluator PokerEngine PokerEngineFacts.
Local Open Scope Q_scope.

Definition holes (s : Engine) : list Card.t := flat_map Player.cards (players s).

(** *** Shuffling permutes the deck *)

Lemma updateAt_perm {A} i (y : A) l x :
  nth_error l i = Some x ->
  exists rest, Permutation l (x :: rest) /\
               Permutation (updateAt i (fun _ => y) l) (y :: rest).
Proof.
  revert i; induction l as [|h t IH]; intros [|i] H; simpl in *; try discriminate.
  - injection H as ->. exists t. split; reflexivity.
  - destruct (IH i H) as (rest & H1 & H2). exists (h :: rest). split.
    + etransitivity; [apply perm_skip, H1 | apply perm_swap].
    + etransitivity; [apply perm_skip, H2 | apply perm_swap].
Qed.

Lemma swap_perm {A} i j (l : list A) : Permutation l (swap i j l).
Proof.
  unfold swap. destruct (nth_error l i) as [x|] eqn:Ei; [|reflexivity].
  destruct (nth_error l j) as [y|] eqn:Ej; [|reflexivity].
  destruct (updateAt_perm i y l x Ei) as (R & P1 & P2).
  assert (E1 : nth_error (updateAt i (fun _ => y) l) j = Some y).
  { destruct (Nat.eq_dec i j) as [<-|Hne].
    - exact (nth_updateAt_same i (fun _ => y) l x Ei).
    - rewrite nth_updateAt_other by exact Hne. exact Ej. }
  destruct (updateAt_perm j x _ y E1) as (R' & P3 & P4).
  assert (PR : Permutation R R').
  { apply (Permutation_cons_inv (a:=y)). etransitivity; [symmetry; exact P2 | exact P3]. }
  transitivity (x :: R); [exact P1|].
  transitivity (x :: R'); [apply perm_skip, PR | symmetry; exact P4].
Qed.

Lemma shuffleFrom_perm {A} i (l : list A) rng k :
  Permutation l (fst (shuffleFrom i l rng k)).
Proof.
  revert l k; induction i as [|i IH]; intros l k; [reflexivity|].
  cbn [shuffleFrom]. unfold PokerAI.bind, PokerAI.random.
  etransitivity; [apply swap_perm | apply IH].
Qed.

(** *** The deck of [createDeck] *)

Definition Card_eqb (a b : Card.t) : bool :=
  Z.eqb (Card.value a) (Card.value b) && Suit_eqb (Card.suit a) (Card.suit b).

Lemma Card_eqb_eq a b : Card_eqb a b = true -> a = b.
Proof.
  destruct a as [va sa], b as [vb sb]. unfold Card_eqb; simpl.
  intro H. apply andb_true_iff in H as [H1 H2]. apply Z.eqb_eq in H1. subst.
  destruct sa, sb; try discriminate; reflexivity.
Qed.

Lemma Card_eqb_refl a : Card_eqb a a = true.
Proof. destruct a as [v su]. unfold Card_eqb; simpl. rewrite Z.eqb_refl. destruct su; reflexivity. Qed.

Fixpoint nodupb (l : list Card.t) : bool :=
  match l with
  | [] => true
  | x :: t => negb (existsb (Card_eqb x) t) && nodupb t
  end.

Lemma nodupb_NoDup l : nodupb l = true -> NoDup l.
Proof.
  induction l as [|x t IH]; simpl; intro H; [constructor|].
  apply andb_true_iff in H as [H1 H2]. constructor; [|auto].
  intro Hin. apply negb_true_iff in H1.
  assert (existsb (Card_eqb x) t = true)
    by (apply existsb_exists; exists x; split; [exact Hin | apply Card_eqb_refl]).
  congruence.
Qed.

Lemma In_of_existsb c l : existsb (Card_eqb c) l = true -> In c l.
Proof.
  intro H. apply existsb_exists in H as (y & Hy & E). apply Card_eqb_eq in E. subst. exact Hy.
Qed.

Lemma createDeck_NoDup : NoDup createDeck.
Proof. apply nodupb_NoDup. vm_compute. reflexivity. Qed.

Lemma createDeck_length : length createDeck = 52%nat.
Proof. vm_compute. reflexivity. Qed.

Lemma createDeck_values c : In c createDeck -> (2 <= Card.value c <= 14)%Z.
Proof.
  assert (H : forallb (fun c => (2 <=? Card.value c)%Z && (Card.value c <=? 14)%Z) createDeck
              = true) by (vm_compute; reflexivity).
  rewrite forallb_forall in H. intro Hc. specialize (H c Hc).
  apply andb_true_iff in H as [H1 H2]. apply Z.leb_le in H1, H2. lia.
Qed.

Lemma createDeck_complete c : (2 <= Card.value c <= 14)%Z -> In c createDeck.
Proof.
  destruct c as [v su]. intro H. simpl in H. apply In_of_existsb.
  assert (v = 2 \/ v = 3 \/ v = 4 \/ v = 5 \/ v = 6 \/ v = 7 \/ v = 8 \/ v = 9 \/ v = 10 \/
          v = 11 \/ v = 12 \/ v = 13 \/ v = 14)%Z as E by lia.
  repeat destruct E as [->|E]; try subst v; destruct su; vm_compute; reflexivity.
Qed.

(** *** Dealing the pocket cards *)

Definition Card_eq_dec (a b : Card.t) : {a = b} + {a <> b}.
Proof. decide equality; [decide equality | apply Z.eq_dec]. Defined.

Ltac perm_by_count :=
  apply (Permutation_count_occ Card_eq_dec);
  let x := fresh "x" in intro x;
  repeat match goal with
  | H : Permutation _ _ |- _ =>
      pose proof (proj1 (Permutation_count_occ Card_eq_dec _ _) H x); clear H
  end;
  repeat rewrite count_occ_app in *; lia.

(** A seat without its cards. *)
Definition noCards (p : Player.t) : Player.t :=
  Player.mk (Player.id p) (Player.chips p) [] (Player.currentBet p) (Player.totalInvested p)
            (Player.isAI p) (Player.isActive p) (Player.isAllIn p) (Player.isFolded p).

(** [dealPocketRound] as a recursion over the seats. *)
Fixpoint dealSeats (d : list Card.t) (ps : list Player.t) : list Card.t * list Player.t :=
  match ps with
  | [] => (d, [])
  | p :: t =>
      if Player.isActive p then
        match rev d with
        | [] => let r := dealSeats d t in (fst r, p :: snd r)
        | c :: rest => let r := dealSeats (rev rest) t in (fst r, pushCard c p :: snd r)
        end
      else let r := dealSeats d t in (fst r, p :: snd r)
  end.

Lemma updateAt_app_len {A} (pre : list A) f x t :
  updateAt (length pre) f (pre ++ x :: t) = pre ++ f x :: t.
Proof. induction pre as [|y pre IH]; simpl; [reflexivity|]. rewrite IH. reflexivity. Qed.

Lemma nth_error_app_len {A} (pre : list A) x t : nth_error (pre ++ x :: t) (length pre) = Some x.
Proof. induction pre as [|y pre IH]; simpl; auto. Qed.

Lemma fold_dealTo_dealSeats t : forall pre s,
  players s = pre ++ t ->
  fold_left dealTo (seq (length pre) (length t)) s =
  mkEngine (fst (dealSeats (deck s) t)) (communityCards s) (pre ++ snd (dealSeats (deck s) t))
           (currentPlayerIndex s) (dealerPosition s) (smallBlind s) (bigBlind s) (pot s)
           (gamePhase s).
Proof.
  induction t as [|p t IH]; intros pre s Hs.
  - destruct s; simpl in *. subst. rewrite app_nil_r. reflexivity.
  - cbn [length seq fold_left dealSeats].
    assert (Hn : nth_error (players s) (length pre) = Some p)
      by (rewrite Hs; apply nth_error_app_len).
    assert (Hlen : forall q, S (length pre) = length (pre ++ [q]))
      by (intro q; rewrite length_app; simpl; lia).
    destruct (Player.isActive p) eqn:Ha.
    + destruct (rev (deck s)) as [|c rest] eqn:Ed.
      * assert (E : dealTo s (length pre) = s)
          by (unfold dealTo, dealCard; rewrite Hn, Ha, Ed; reflexivity).
        rewrite E, (Hlen p), (IH (pre ++ [p]) s) by (rewrite Hs, <- app_assoc; reflexivity).
        rewrite <- app_assoc. reflexivity.
      * set (s1 := mkEngine (rev rest) (communityCards s) (pre ++ pushCard c p :: t)
                     (currentPlayerIndex s) (dealerPosition s) (smallBlind s) (bigBlind s)
                     (pot s) (gamePhase s)).
        assert (E : dealTo s (length pre) = s1).
        { unfold dealTo, dealCard. rewrite Hn, Ha, Ed. unfold s1, withPlayers, withDeck.
          cbn [players deck communityCards currentPlayerIndex dealerPosition smallBlind
               bigBlind pot gamePhase].
          rewrite Hs, updateAt_app_len. reflexivity. }
        rewrite E, (Hlen (pushCard c p)), (IH (pre ++ [pushCard c p]) s1)
          by (unfold s1; simpl; rewrite <- app_assoc; reflexivity).
        unfold s1; simpl. rewrite <- app_assoc. reflexivity.
    + assert (E : dealTo s (length pre) = s) by (unfold dealTo; rewrite Hn, Ha; reflexivity).
      rewrite E, (Hlen p), (IH (pre ++ [p]) s) by (rewrite Hs, <- app_assoc; reflexivity).
      rewrite <- app_assoc. reflexivity.
Qed.

Lemma dealPocketRound_eq s :
  dealPocketRound s =
  mkEngine (fst (dealSeats (deck s) (players s))) (communityCards s)
           (snd (dealSeats (deck s) (players s)))
           (currentPlayerIndex s) (dealerPosition s) (smallBlind s) (bigBlind s) (pot s)
           (gamePhase s).
Proof. unfold dealPocketRound. apply (fold_dealTo_dealSeats (players s) [] s). reflexivity. Qed.

Lemma dealSeats_noCards d ps : map noCards (snd (dealSeats d ps)) = map noCards ps.
Proof.
  revert d; induction ps as [|p t IH]; intro d; simpl; [reflexivity|].
  destruct (Player.isActive p); [destruct (rev d)|]; simpl; rewrite IH; reflexivity.
Qed.

Lemma rev_cons_eq (d : list Card.t) c rest : rev d = c :: rest -> d = rev rest ++ [c].
Proof. intro H. rewrite <- (rev_involutive d), H. reflexivity. Qed.

Lemma dealSeats_perm d ps :
  Permutation (d ++ flat_map Player.cards ps)
              (fst (dealSeats d ps) ++ flat_map Player.cards (snd (dealSeats d ps))).
Proof.
  revert d; induction ps as [|p t IH]; intro d; simpl; [reflexivity|].
  destruct (Player.isActive p); [destruct (rev d) as [|c rest] eqn:Ed|]; simpl.
  - specialize (IH d). perm_by_count.
  - specialize (IH (rev rest)). apply rev_cons_eq in Ed. subst d. simpl. perm_by_count.
  - specialize (IH d). perm_by_count.
Qed.

Definition cardCount (p : Player.t) : nat := length (Player.cards p).

Lemma dealSeats_counts d ps :
  (length (filter Player.isActive ps) <= length d)%nat ->
  length (fst (dealSeats d ps)) = (length d - length (filter Player.isActive ps))%nat /\
  map cardCount (snd (dealSeats d ps)) =
  map (fun p => (cardCount p + if Player.isActive p then 1 else 0)%nat) ps.
Proof.
  revert d; induction ps as [|p t IH]; intros d H; simpl in *; [split; [lia|reflexivity]|].
  destruct (Player.isActive p); [destruct (rev d) as [|c rest] eqn:Ed|]; simpl in *.
  - apply (f_equal (@length _)) in Ed. rewrite length_rev in Ed. simpl in Ed. lia.
  - apply rev_cons_eq in Ed. subst d. rewrite length_app, length_rev in *. simpl in *.
    destruct (IH (rev rest)) as [H1 H2]; [rewrite length_rev; lia|].
    rewrite H1, H2, length_rev. split; [lia|]. f_equal.
    unfold cardCount; simpl. rewrite length_app. simpl. lia.
  - destruct (IH d H) as [H1 H2]. rewrite H1, H2. split; [lia|]. f_equal. lia.
Qed.

Lemma filter_isActive_noCards ps ps' :
  map noCards ps' = map noCards ps ->
  length (filter Player.isActive ps') = length (filter Player.isActive ps).
Proof.
  revert ps; induction ps' as [|p t IH]; intros [|q u] H; simpl in *; try discriminate; auto.
  assert (E1 : noCards p = noCards q) by congruence.
  assert (E2 : map noCards t = map noCards u) by congruence.
  apply (f_equal Player.isActive) in E1. simpl in E1. rewrite E1.
  destruct (Player.isActive q); simpl; rewrite (IH u E2); reflexivity.
Qed.

Lemma map_noCards_isActive ps ps' :
  map noCards ps' = map noCards ps -> map Player.isActive ps' = map Player.isActive ps.
Proof.
  intro H. apply (f_equal (map Player.isActive)) in H. rewrite !map_map in H. exact H.
Qed.

Lemma map_updateAt_inv {A B} (f : A -> B) g i l :
  (forall x, f (g x) = f x) -> map f (updateAt i g l) = map f l.
Proof.
  intro H. revert i; induction l as [|x t IH]; intros [|i]; simpl; try rewrite H; auto.
  rewrite IH. reflexivity.
Qed.

Definition seatCards (p : Player.t) : bool * list Card.t := (Player.isActive p, Player.cards p).

Lemma postBlind_keeps s idx b :
  deck (postBlind s idx b) = deck s /\ communityCards (postBlind s idx b) = communityCards s /\
  map seatCards (players (postBlind s idx b)) = map seatCards (players s) /\
  gamePhase (postBlind s idx b) = gamePhase s /\
  dealerPosition (postBlind s idx b) = dealerPosition s.
Proof.
  unfold postBlind. destruct (nth_error (players s) idx); [|auto].
  destruct (Player.isActive t); [|auto]. simpl.
  rewrite map_updateAt_inv by reflexivity. auto.
Qed.

Lemma postBlinds_keeps s :
  deck (postBlinds s) = deck s /\ communityCards (postBlinds s) = communityCards s /\
  map seatCards (players (postBlinds s)) = map seatCards (players s) /\
  gamePhase (postBlinds s) = gamePhase s /\
  dealerPosition (postBlinds s) = dealerPosition s.
Proof.
  unfold postBlinds. destruct (_ <? 2)%nat; [auto|]. simpl.
  destruct (postBlind_keeps s ((dealerPosition s + 1) mod length (players s)) (smallBlind s))
    as (A1 & B1 & C1 & D1 & E1).
  destruct (postBlind_keeps (postBlind s ((dealerPosition s + 1) mod length (players s))
                              (smallBlind s))
              ((dealerPosition s + 2) mod length (players s)) (bigBlind s))
    as (A2 & B2 & C2 & D2 & E2).
  rewrite A2, B2, C2, D2, E2, A1, B1, C1, D1, E1. auto.
Qed.

(** *** Seat counts *)

Lemma flat_map_seatCards l l' :
  map seatCards l = map seatCards l' ->
  flat_map Player.cards l = flat_map Player.cards l'.
Proof.
  revert l'; induction l as [|p t IH]; intros [|q u] H; simpl in *; try discriminate; auto.
  assert (E1 : seatCards p = seatCards q) by congruence.
  assert (E2 : map seatCards t = map seatCards u) by congruence.
  apply (f_equal snd) in E1. simpl in E1. rewrite E1, (IH u E2). reflexivity.
Qed.

Lemma filter_isActive_map l l' :
  map Player.isActive l = map Player.isActive l' ->
  length (filter Player.isActive l) = length (filter Player.isActive l').
Proof.
  revert l'; induction l as [|p t IH]; intros [|q u] H; simpl in *; try discriminate; auto.
  assert (E1 : Player.isActive p = Player.isActive q) by congruence.
  assert (E2 : map Player.isActive t = map Player.isActive u) by congruence.
  rewrite E1. destruct (Player.isActive q); simpl; rewrite (IH u E2); reflexivity.
Qed.

Definition seatCount (p : Player.t) : bool * nat := (Player.isActive p, cardCount p).
Definition dealtOne (bc : bool * nat) : bool * nat :=
  (fst bc, (snd bc + if fst bc then 1 else 0)%nat).

Lemma dealSeats_seatCount d ps :
  (length (filter Player.isActive ps) <= length d)%nat ->
  map seatCount (snd (dealSeats d ps)) = map dealtOne (map seatCount ps).
Proof.
  intro H. destruct (dealSeats_counts d ps H) as [_ H2].
  pose proof (map_noCards_isActive _ _ (dealSeats_noCards d ps)) as H3.
  revert H2 H3. generalize (snd (dealSeats d ps)) as l. clear H.
  induction ps as [|p t IH]; intros [|q u] H2 H3; simpl in *; try discriminate; auto.
  assert (A1 : cardCount q = (cardCount p + if Player.isActive p then 1 else 0)%nat)
    by congruence.
  assert (A2 : Player.isActive q = Player.isActive p) by congruence.
  assert (A3 : map cardCount u =
               map (fun p => (cardCount p + if Player.isActive p then 1 else 0)%nat) t)
    by congruence.
  assert (A4 : map Player.isActive u = map Player.isActive t) by congruence.
  unfold seatCount at 1, dealtOne at 1. simpl. rewrite A1, A2, (IH u A3 A4). reflexivity.
Qed.

Lemma map_seatCount_seatCards l l' :
  map seatCards l = map seatCards l' -> map seatCount l = map seatCount l'.
Proof.
  intro H. apply (f_equal (map (fun bc => (fst bc, length (snd bc))))) in H.
  rewrite !map_map in H. exact H.
Qed.

Lemma map_isActive_seatCards l l' :
  map seatCards l = map seatCards l' -> map Player.isActive l = map Player.isActive l'.
Proof.
  intro H. apply (f_equal (map fst)) in H. rewrite !map_map in H. exact H.
Qed.



Definition hasChips (p : Player.t) : bool := Qltb 0 (Player.chips p).

Lemma filter_isActive_resetPlayer l :
  length (filter Player.isActive (map resetPlayer l)) = length (filter hasChips l).
Proof.
  induction l as [|p t IH]; simpl; [reflexivity|].
  unfold hasChips. destruct (Qltb 0 (Player.chips p)); simpl; rewrite IH; reflexivity.
Qed.

Lemma filter_length_le' {A} (f : A -> bool) l : (length (filter f l) <= length l)%nat.
Proof. induction l as [|x t IH]; simpl; [lia|]. destruct (f x); simpl; lia. Qed.

Lemma holes_resetPlayer l : flat_map Player.cards (map resetPlayer l) = [].
Proof. induction l; simpl; auto. Qed.


(** *** Seat lists *)

Lemma In_updateAt {A} i (f : A -> A) l x p :
  nth_error l i = Some x -> In p (updateAt i f l) -> In p l \/ p = f x.
Proof.
  revert i; induction l as [|y t IH]; intros [|i] H Hp; simpl in *; try discriminate.
  - injection H as ->. destruct Hp as [<-|Hp]; [right; reflexivity | left; right; exact Hp].
  - destruct Hp as [<-|Hp]; [left; left; reflexivity|].
    destruct (IH i H Hp) as [H'|H']; [left; right; exact H' | right; exact H'].
Qed.

Lemma In_updateAt_other {A} i (f : A -> A) l x q :
  nth_error l i = Some x -> In q l -> q <> x -> In q (updateAt i f l).
Proof.
  revert i; induction l as [|y t IH]; intros [|i] H Hq Hne; simpl in *; try discriminate.
  - injection H as ->. destruct Hq as [<-|Hq]; [congruence | right; exact Hq].
  - destruct Hq as [<-|Hq]; [left; reflexivity | right; exact (IH i H Hq Hne)].
Qed.

Definition stacksNonneg (ps : list Player.t) : Prop :=
  forall p, In p ps -> 0 <= Player.chips p.

Lemma commitChips_min_nonneg amt p :
  0 <= Player.chips (commitChips (Qmin amt (Player.chips p)) p).
Proof.
  unfold commitChips. cbn [Player.chips]. pose proof (Q.le_min_r amt (Player.chips p)). lra.
Qed.

Lemma stacksNonneg_updateAt i f ps x :
  stacksNonneg ps -> nth_error ps i = Some x -> 0 <= Player.chips (f x) ->
  stacksNonneg (updateAt i f ps).
Proof.
  intros H Ex Hf p Hp. destruct (In_updateAt _ _ _ _ _ Ex Hp) as [Hp' | ->]; [apply H, Hp'|exact Hf].
Qed.

Lemma stacksNonneg_addChips i a ps :
  0 <= a -> stacksNonneg ps -> stacksNonneg (updateAt i (addChips a) ps).
Proof.
  intros Ha H. destruct (nth_error ps i) as [x|] eqn:Ex.
  - apply (stacksNonneg_updateAt _ _ _ x H Ex). unfold addChips. cbn [Player.chips].
    pose proof (H x (nth_error_In _ _ Ex)). lra.
  - rewrite updateAt_out by exact Ex. exact H.
Qed.

Lemma postBlind_nonneg s idx blind :
  stacksNonneg (players s) -> stacksNonneg (players (postBlind s idx blind)).
Proof.
  intro H. unfold postBlind.
  destruct (nth_error (players s) idx) as [x|] eqn:Ex; [|exact H].
  destruct (Player.isActive x); [|exact H]. cbn [players withPot withPlayers].
  apply (stacksNonneg_updateAt _ _ _ x H Ex).
  unfold postBlindBy. cbn [Player.chips]. pose proof (Q.le_min_r blind (Player.chips x)). lra.
Qed.





(** *** Cards of a state *)

Definition cardsOf (s : Engine) : list Card.t := deck s ++ holes s ++ communityCards s.

Lemma holes_eq s s' :
  map Player.cards (players s') = map Player.cards (players s) -> holes s' = holes s.
Proof. unfold holes. rewrite !flat_map_concat_map. intro H. rewrite H. reflexivity. Qed.

Lemma cardsOf_eq s s' :
  deck s' = deck s -> communityCards s' = communityCards s ->
  map Player.cards (players s') = map Player.cards (players s) -> cardsOf s' = cardsOf s.
Proof. intros H1 H2 H3. unfold cardsOf. rewrite H1, H2, (holes_eq s s' H3). reflexivity. Qed.

Lemma executePlayerAction_cardsOf s i a amt :
  cardsOf (executePlayerAction s i a amt) = cardsOf s.
Proof.
  unfold executePlayerAction.
  destruct (nth_error (players s) i); [|reflexivity].
  destruct (getCurrentBet s); [|reflexivity].
  destruct a; apply cardsOf_eq; try reflexivity; simpl; apply map_updateAt_inv; reflexivity.
Qed.

Lemma resetBets_cardsOf s : cardsOf (resetBets s) = cardsOf s.
Proof.
  apply cardsOf_eq; try reflexivity. simpl. rewrite map_map. reflexivity.
Qed.

Lemma splitPot_cardsOf s ws amt : cardsOf (splitPot s ws amt) = cardsOf s.
Proof.
  unfold splitPot. revert s; induction ws as [|w t IH]; intro s; simpl; [reflexivity|].
  rewrite IH. apply cardsOf_eq; try reflexivity. simpl. apply map_updateAt_inv; reflexivity.
Qed.

Lemma awardPot_cardsOf s i : cardsOf (awardPot s i) = cardsOf s.
Proof. apply cardsOf_eq; try reflexivity. simpl. apply map_updateAt_inv; reflexivity. Qed.

Lemma evaluateWinner_cardsOf s ps s' : evaluateWinner s ps = Some s' -> cardsOf s' = cardsOf s.
Proof.
  unfold evaluateWinner. destruct (handsOf _ _); [|discriminate].
  destruct (sortBy _ _) as [|[i h] t]; [discriminate|].
  destruct (filter _ _) as [|w [|w2 u]]; intro H;
    apply (f_equal (fun o => match o with Some y => y | None => s end)) in H;
    cbv beta iota in H; subst s'.
  - etransitivity; [|apply splitPot_cardsOf]. reflexivity.
  - apply awardPot_cardsOf.
  - etransitivity; [|apply splitPot_cardsOf]. reflexivity.
Qed.

Lemma showdown_cardsOf s s' : showdown s = Some s' -> cardsOf s' = cardsOf s.
Proof.
  unfold showdown.
  assert (E : forall ph, cardsOf (withPhase s ph) = cardsOf s) by reflexivity.
  destruct (filter _ _) as [|[i p] [|q u]]; intro H.
  - etransitivity; [apply (evaluateWinner_cardsOf _ _ _ H) | apply E].
  - injection H as <-. rewrite awardPot_cardsOf. apply E.
  - etransitivity; [apply (evaluateWinner_cardsOf _ _ _ H) | apply E].
Qed.

Definition shrinks (s s' : Engine) : Prop :=
  exists extra, Permutation (cardsOf s) (cardsOf s' ++ extra).

Lemma shrinks_refl s : shrinks s s.
Proof. exists []. rewrite app_nil_r. reflexivity. Qed.

Lemma shrinks_eq s s' : cardsOf s' = cardsOf s -> shrinks s s'.
Proof. intro H. exists []. rewrite H, app_nil_r. reflexivity. Qed.

Lemma shrinks_trans s1 s2 s3 : shrinks s1 s2 -> shrinks s2 s3 -> shrinks s1 s3.
Proof.
  intros (e1 & H1) (e2 & H2). exists (e2 ++ e1).
  etransitivity; [exact H1|]. rewrite app_assoc. apply Permutation_app_tail. exact H2.
Qed.

Lemma dealCard_shrinks s : shrinks s (snd (dealCard s)).
Proof.
  unfold dealCard. destruct (rev (deck s)) as [|c rest] eqn:E; [apply shrinks_refl|].
  exists [c]. apply rev_cons_eq in E. unfold cardsOf. simpl.
  change (holes (withDeck s (rev rest))) with (holes s). rewrite E. perm_by_count.
Qed.

Lemma dealCommunity_shrinks s s' : dealCommunity s = Some s' -> shrinks s s'.
Proof.
  unfold dealCommunity, dealCard. destruct (rev (deck s)) as [|c rest] eqn:E; [discriminate|].
  intro H. injection H as <-. exists []. apply rev_cons_eq in E.
  unfold cardsOf, holes. simpl. rewrite E, app_nil_r. perm_by_count.
Qed.

Lemma dealFlop_shrinks s s' : dealFlop s = Some s' -> shrinks s s'.
Proof.
  unfold dealFlop. destruct (dealCommunity (burnCard s)) as [s1|] eqn:E1; [|discriminate].
  destruct (dealCommunity s1) as [s2|] eqn:E2; [|discriminate]. intro E3.
  eapply shrinks_trans; [apply dealCard_shrinks|].
  eapply shrinks_trans; [apply (dealCommunity_shrinks _ _ E1)|].
  eapply shrinks_trans; [apply (dealCommunity_shrinks _ _ E2)|].
  apply (dealCommunity_shrinks _ _ E3).
Qed.

Lemma dealOne_shrinks s s' : dealCommunity (burnCard s) = Some s' -> shrinks s s'.
Proof.
  intro E. eapply shrinks_trans; [apply dealCard_shrinks | apply (dealCommunity_shrinks _ _ E)].
Qed.

Lemma shrinks_NoDup s s' : shrinks s s' -> NoDup (cardsOf s) -> NoDup (cardsOf s').
Proof.
  intros (e & P) H. apply (Permutation_NoDup P) in H. exact (NoDup_app_remove_r _ _ H).
Qed.

Lemma shrinks_In s s' c : shrinks s s' -> In c (cardsOf s') -> In c (cardsOf s).
Proof.
  intros (e & P) H. apply (Permutation_in _ (Permutation_sym P)), in_or_app. left. exact H.
Qed.

(** *** Dealing the board keeps the seats and the pot *)

Lemma dealCard_keeps s :
  players (snd (dealCard s)) = players s /\ pot (snd (dealCard s)) = pot s.
Proof. unfold dealCard. destruct (rev (deck s)); split; reflexivity. Qed.

Lemma dealCommunity_keeps s s' :
  dealCommunity s = Some s' -> players s' = players s /\ pot s' = pot s.
Proof.
  unfold dealCommunity, dealCard. destruct (rev (deck s)); intro H; [discriminate|].
  injection H as <-. split; reflexivity.
Qed.

Lemma dealOne_keeps s s' :
  dealCommunity (burnCard s) = Some s' -> players s' = players s /\ pot s' = pot s.
Proof.
  intro H. destruct (dealCommunity_keeps _ _ H) as [H1 H2].
  destruct (dealCard_keeps s) as [H3 H4]. unfold burnCard in *. split; congruence.
Qed.

Lemma dealFlop_keeps s s' :
  dealFlop s = Some s' -> players s' = players s /\ pot s' = pot s.
Proof.
  unfold dealFlop. destruct (dealCommunity (burnCard s)) as [s1|] eqn:E1; [|discriminate].
  destruct (dealCommunity s1) as [s2|] eqn:E2; [|discriminate]. intro E3.
  destruct (dealOne_keeps _ _ E1) as [A1 B1].
  destruct (dealCommunity_keeps _ _ E2) as [A2 B2].
  destruct (dealCommunity_keeps _ _ E3) as [A3 B3]. split; congruence.
Qed.

(** *** The outcome of [showdown] *)

Lemma evaluateWinner_cases s ps s' :
  evaluateWinner s ps = Some s' ->
  (exists i, s' = awardPot s i) \/
  (exists ws : list (nat * HandResult.t),
     s' = withPot (splitPot s ws
                     (inject_Z (Qfloor (pot s / inject_Z (Z.of_nat (length ws)))))) 0).
Proof.
  unfold evaluateWinner. destruct (handsOf _ _); [|discriminate].
  destruct (sortBy _ _) as [|[i h] t]; [discriminate|].
  destruct (filter _ _) as [|w [|w2 u]]; intro H;
    apply (f_equal (fun o => match o with Some y => y | None => s end)) in H;
    cbv beta iota in H; subst s'.
  - right. exists []. reflexivity.
  - left. exists (fst w). reflexivity.
  - right. eexists. reflexivity.
Qed.

Lemma showdown_cases s s' :
  showdown s = Some s' ->
  (exists i, s' = awardPot (withPhase s showdownPhase) i) \/
  (exists ws : list (nat * HandResult.t),
     s' = withPot (splitPot (withPhase s showdownPhase) ws
                     (inject_Z (Qfloor (pot s / inject_Z (Z.of_nat (length ws)))))) 0).
Proof.
  unfold showdown.
  destruct (filter _ _) as [|[i p] [|q u]]; intro H.
  - exact (evaluateWinner_cases _ _ _ H).
  - left. exists i. injection H as <-. reflexivity.
  - exact (evaluateWinner_cases _ _ _ H).
Qed.

Lemma splitPot_keeps s ws a :
  gamePhase (splitPot s ws a) = gamePhase s /\
  map Player.cards (players (splitPot s ws a)) = map Player.cards (players s).
Proof.
  unfold splitPot. revert s; induction ws as [|w t IH]; intro s; cbn [fold_left]; [auto|].
  destruct (IH (withPlayers s (updateAt (fst w) (addChips a) (players s)))) as (H1 & H2).
  rewrite H1, H2. cbn [gamePhase players withPlayers].
  rewrite map_updateAt_inv by reflexivity. auto.
Qed.

Lemma splitPot_nonneg s ws a :
  0 <= a -> stacksNonneg (players s) -> stacksNonneg (players (splitPot s ws a)).
Proof.
  intro Ha. unfold splitPot. revert s; induction ws as [|w t IH]; intros s H; cbn [fold_left];
    [exact H|].
  apply IH. cbn [players withPlayers]. apply stacksNonneg_addChips; assumption.
Qed.

Lemma showdown_phase s s' : showdown s = Some s' -> gamePhase s' = showdownPhase.
Proof.
  intro H. destruct (showdown_cases s s' H) as [[i ->]|[ws ->]]; [reflexivity|].
  cbn [gamePhase withPot]. rewrite (proj1 (splitPot_keeps _ _ _)). reflexivity.
Qed.

Lemma showdown_hands s s' :
  showdown s = Some s' -> map Player.cards (players s') = map Player.cards (players s).
Proof.
  intro H. destruct (showdown_cases s s' H) as [[i ->]|[ws ->]].
  - cbn [awardPot players withPot withPlayers withPhase].
    apply map_updateAt_inv. reflexivity.
  - cbn [players withPot]. rewrite (proj2 (splitPot_keeps _ _ _)). reflexivity.
Qed.

Lemma floor_div_nonneg q n : 0 <= q -> 0 <= inject_Z (Qfloor (q / inject_Z (Z.of_nat n))).
Proof.
  intro H.
  assert (Hn : 0 <= inject_Z (Z.of_nat n))
    by (change 0 with (inject_Z 0); rewrite <- Zle_Qle; lia).
  assert (Hd : 0 <= q / inject_Z (Z.of_nat n))
    by (apply Qmult_le_0_compat; [exact H | apply Qinv_le_0_compat, Hn]).
  pose proof (Qfloor_resp_le 0 _ Hd) as E. simpl in E.
  change 0 with (inject_Z 0). rewrite <- Zle_Qle. exact E.
Qed.

Lemma showdown_nonneg s s' :
  showdown s = Some s' -> 0 <= pot s -> stacksNonneg (players s) ->
  stacksNonneg (players s') /\ 0 <= pot s'.
Proof.
  intros H Hp Hs. destruct (showdown_cases s s' H) as [[i ->]|[ws ->]].
  - cbn [awardPot players pot withPot withPlayers withPhase].
    split; [apply stacksNonneg_addChips; assumption | apply Qle_refl].
  - cbn [players pot withPot]. split; [|apply Qle_refl].
    apply splitPot_nonneg; [apply floor_div_nonneg, Hp | exact Hs].
Qed.


(** *** The turn logic *)

Lemma withIndex_same s : withIndex s (currentPlayerIndex s) = s.
Proof. destruct s; reflexivity. Qed.

Lemma inHand_resetBet p : inHand (resetBet p) = inHand p.
Proof. reflexivity. Qed.

Lemma map_resetBet_idem ps : map resetBet (map resetBet ps) = map resetBet ps.
Proof. rewrite map_map. reflexivity. Qed.

Lemma resetBets_fixed s : map resetBet (players s) = players s -> resetBets s = s.
Proof. intro H. unfold resetBets. rewrite H. destruct s; reflexivity. Qed.

Lemma out_resetBet ps i :
  (forall p, nth_error ps i = Some p -> inHand p = false) ->
  forall p, nth_error (map resetBet ps) i = Some p -> inHand p = false.
Proof.
  intros H p Hp. rewrite nth_error_map in Hp.
  destruct (nth_error ps i) as [q|] eqn:E; [|discriminate].
  injection Hp as <-. rewrite inHand_resetBet. exact (H q eq_refl).
Qed.

Lemma complete_when_bets_settled s :
  (forall p, In p (players s) ->
     Player.currentBet p <= 0 /\ (Player.currentBet p == 0 \/ Player.isAllIn p = true)) ->
  isBettingRoundComplete s = true.
Proof.
  intro H. unfold isBettingRoundComplete. cbv zeta.
  destruct (length (filter inHand (players s)) <=? 1)%nat; [reflexivity|].
  destruct (getCurrentBet s) as [m|] eqn:Em.
  - apply forallb_forall. intros p Hp. apply filter_In in Hp as [Hp _].
    destruct (getCurrentBet_spec s m Em) as [[q [Hq Eq]] Hup].
    destruct (H p Hp) as [Hle [Hz|Ha]].
    + apply orb_true_iff. left. apply Qeq_bool_iff.
      destruct (H q Hq) as [Hq0 _]. pose proof (Hup p Hp). lra.
    + rewrite Ha, orb_true_r. reflexivity.
  - unfold getCurrentBet in Em. destruct (players s); [reflexivity | simpl in Em; discriminate].
Qed.

Lemma complete_when_reset s :
  map resetBet (players s) = players s -> isBettingRoundComplete s = true.
Proof.
  intro H. apply complete_when_bets_settled. intros p Hp.
  rewrite <- H in Hp. apply in_map_iff in Hp as [x [<- _]].
  cbn [resetBet Player.currentBet]. split; [apply Qle_refl | left; reflexivity].
Qed.

Lemma moveToNextPlayerWith_cases adv s s' :
  moveToNextPlayerWith adv s = Some s' ->
  (exists j, s' = withIndex s j) \/ adv (resetBets s) = Some s'.
Proof.
  unfold moveToNextPlayerWith.
  destruct (isBettingRoundComplete s); [intro H; right; exact H|]. cbv zeta.
  destruct (nextInHand _ _ _ _) as [j|]; intro H; [|discriminate].
  injection H as <-. left. exists j. reflexivity.
Qed.

Lemma processNextPlayerWith_cases adv s s' :
  processNextPlayerWith adv s = Some s' ->
  (exists j, s' = withIndex s j) \/ adv (resetBets s) = Some s'.
Proof.
  unfold processNextPlayerWith. destruct (nth_error _ _) as [p|].
  - destruct (inHand p); [|apply moveToNextPlayerWith_cases].
    intro H. injection H as <-. left. exists (currentPlayerIndex s).
    symmetry. apply withIndex_same.
  - apply moveToNextPlayerWith_cases.
Qed.

Lemma startBettingRoundWith_cases adv s s' :
  startBettingRoundWith adv s = Some s' ->
  (exists j, s' = withIndex s j) \/ exists i, adv (resetBets (withIndex s i)) = Some s'.
Proof.
  unfold startBettingRoundWith. cbv zeta. intro H.
  destruct (processNextPlayerWith_cases _ _ _ H) as [[j ->]|H'].
  - left. exists j. reflexivity.
  - right. eexists. exact H'.
Qed.

(** When the first seat to act after the flop is in the hand, the round
    waits for it. *)
Lemma startBettingRoundWith_in adv s p :
  Phase_eqb (gamePhase s) preflop = false ->
  nth_error (players s) ((dealerPosition s + 1) mod length (players s))%nat = Some p ->
  inHand p = true ->
  startBettingRoundWith adv s =
    Some (withIndex s ((dealerPosition s + 1) mod length (players s))%nat).
Proof.
  intros Hph Hp Hin. unfold startBettingRoundWith. cbv zeta. rewrite Hph. cbv beta iota.
  set (i := ((dealerPosition s + 1) mod length (players s))%nat) in *.
  unfold processNextPlayerWith.
  change (players (withIndex s i)) with (players s).
  change (currentPlayerIndex (withIndex s i)) with i.
  rewrite Hp, Hin. reflexivity.
Qed.

(** When it is out of the hand and every bet is 0, the round is already
    complete: [completeBettingRound] runs at once. *)
Lemma startBettingRoundWith_out adv s :
  Phase_eqb (gamePhase s) preflop = false ->
  map resetBet (players s) = players s ->
  (forall p, nth_error (players s) ((dealerPosition s + 1) mod length (players s))%nat = Some p ->
             inHand p = false) ->
  startBettingRoundWith adv s =
    adv (withIndex s ((dealerPosition s + 1) mod length (players s))%nat).
Proof.
  intros Hph Hr Hout. unfold startBettingRoundWith. cbv zeta. rewrite Hph. cbv beta iota.
  set (i := ((dealerPosition s + 1) mod length (players s))%nat) in *.
  assert (Hm : moveToNextPlayerWith adv (withIndex s i) = adv (withIndex s i)).
  { unfold moveToNextPlayerWith. rewrite complete_when_reset by exact Hr.
    rewrite resetBets_fixed by exact Hr. reflexivity. }
  unfold processNextPlayerWith.
  change (players (withIndex s i)) with (players s).
  change (currentPlayerIndex (withIndex s i)) with i.
  destruct (nth_error (players s) i) as [p|] eqn:E; [rewrite (Hout p eq_refl)|]; exact Hm.
Qed.

Lemma startBettingRoundWith_ext adv1 adv2 s :
  (forall i,
     i = (if Phase_eqb (gamePhase s) preflop
          then ((dealerPosition s + 3) mod length (players s))%nat
          else ((dealerPosition s + 1) mod length (players s))%nat) ->
     (forall p, nth_error (players s) i = Some p -> inHand p = false) ->
     adv1 (resetBets (withIndex s i)) = adv2 (resetBets (withIndex s i))) ->
  startBettingRoundWith adv1 s = startBettingRoundWith adv2 s.
Proof.
  intro H. unfold startBettingRoundWith. cbv zeta.
  generalize (H _ eq_refl).
  generalize (if Phase_eqb (gamePhase s) preflop
              then ((dealerPosition s + 3) mod length (players s))%nat
              else ((dealerPosition s + 1) mod length (players s))%nat) as i.
  intros i Hi. unfold processNextPlayerWith, moveToNextPlayerWith.
  change (players (withIndex s i)) with (players s).
  change (currentPlayerIndex (withIndex s i)) with i.
  destruct (nth_error (players s) i) as [p|] eqn:E.
  - destruct (inHand p) eqn:Ep; [reflexivity|].
    destruct (isBettingRoundComplete _); [|reflexivity].
    apply Hi. intros q Hq. congruence.
  - destruct (isBettingRoundComplete _); [|reflexivity].
    apply Hi. intros q Hq. congruence.
Qed.

Lemma advanceGamePhaseF_S f s :
  advanceGamePhaseF (S f) s =
  match gamePhase s with
  | preflop =>
      match dealFlop s with
      | Some s1 => startBettingRoundWith (advanceGamePhaseF f) (withPhase s1 flop)
      | None => None
      end
  | flop =>
      match dealTurn s with
      | Some s1 => startBettingRoundWith (advanceGamePhaseF f) (withPhase s1 turn)
      | None => None
      end
  | turn =>
      match dealRiver s with
      | Some s1 => startBettingRoundWith (advanceGamePhaseF f) (withPhase s1 river)
      | None => None
      end
  | river => showdown s
  | _ => startBettingRoundWith (advanceGamePhaseF f) s
  end.
Proof. reflexivity. Qed.

(** Dealing a street, then [startBettingRound]. *)
Lemma advanceGamePhaseF_street f s ph s1 :
  (gamePhase s = preflop /\ ph = flop /\ dealFlop s = Some s1) \/
  (gamePhase s = flop /\ ph = turn /\ dealTurn s = Some s1) \/
  (gamePhase s = turn /\ ph = river /\ dealRiver s = Some s1) ->
  advanceGamePhaseF (S f) s = startBettingRoundWith (advanceGamePhaseF f) (withPhase s1 ph).
Proof.
  intros [(H1 & -> & H2)|[(H1 & -> & H2)|(H1 & -> & H2)]];
    rewrite advanceGamePhaseF_S, H1, H2; reflexivity.
Qed.

Lemma advanceGamePhaseF_river f s :
  gamePhase s = river -> advanceGamePhaseF (S f) s = showdown s.
Proof. intro H. rewrite advanceGamePhaseF_S, H. reflexivity. Qed.

(** In the phase [showdown], with the first seat out of the hand and
    every bet reset, each nested call repeats the same state. *)
Lemma advanceGamePhaseF_loop f v :
  gamePhase v = showdownPhase ->
  currentPlayerIndex v = ((dealerPosition v + 1) mod length (players v))%nat ->
  map resetBet (players v) = players v ->
  (forall p, nth_error (players v) (currentPlayerIndex v) = Some p -> inHand p = false) ->
  advanceGamePhaseF f v = None.
Proof.
  intros Hph Hi Hr Hout. induction f as [|f IH]; [reflexivity|].
  rewrite advanceGamePhaseF_S, Hph.
  change (startBettingRoundWith (advanceGamePhaseF f) v = None).
  unfold startBettingRoundWith. cbv zeta.
  replace (Phase_eqb (gamePhase v) preflop) with false by (rewrite Hph; reflexivity).
  cbv beta iota. rewrite <- Hi, withIndex_same.
  assert (Hm : moveToNextPlayerWith (advanceGamePhaseF f) v = None).
  { unfold moveToNextPlayerWith. rewrite (complete_when_reset v Hr), (resetBets_fixed v Hr).
    exact IH. }
  unfold processNextPlayerWith.
  destruct (nth_error (players v) (currentPlayerIndex v)) as [p|] eqn:E;
    [rewrite (Hout p eq_refl)|]; exact Hm.
Qed.

Lemma advanceGamePhaseF_showdown f s :
  gamePhase s = showdownPhase -> advanceGamePhaseF (S f) s = advanceGamePhaseF 1 s.
Proof.
  intro H. rewrite !advanceGamePhaseF_S, H.
  change (startBettingRoundWith (advanceGamePhaseF f) s =
          startBettingRoundWith (advanceGamePhaseF 0) s).
  apply startBettingRoundWith_ext. intros i Hi Hout.
  replace (Phase_eqb (gamePhase s) preflop) with false in Hi by (rewrite H; reflexivity).
  assert (L : forall g, advanceGamePhaseF g (resetBets (withIndex s i)) = None).
  { intro g. apply advanceGamePhaseF_loop.
    - exact H.
    - change (i = ((dealerPosition s + 1) mod length (map resetBet (players s)))%nat).
      rewrite length_map. exact Hi.
    - apply map_resetBet_idem.
    - apply out_resetBet, Hout. }
  rewrite !L. reflexivity.
Qed.

Lemma advanceGamePhaseF_turn f s :
  gamePhase s = turn -> advanceGamePhaseF (S (S f)) s = advanceGamePhaseF 2 s.
Proof.
  intro H. rewrite !advanceGamePhaseF_S, H. destruct (dealRiver s) as [s1|]; [|reflexivity].
  apply startBettingRoundWith_ext. intros i _ _.
  rewrite !advanceGamePhaseF_river by reflexivity. reflexivity.
Qed.

Lemma advanceGamePhaseF_flop f s :
  gamePhase s = flop -> advanceGamePhaseF (S (S (S f))) s = advanceGamePhaseF 3 s.
Proof.
  intro H. rewrite (advanceGamePhaseF_S (S (S f))), (advanceGamePhaseF_S 2), H.
  destruct (dealTurn s) as [s1|]; [|reflexivity].
  apply startBettingRoundWith_ext. intros i _ _.
  rewrite (advanceGamePhaseF_turn f) by reflexivity. reflexivity.
Qed.

Lemma advanceGamePhaseF_preflop f s :
  gamePhase s = preflop -> advanceGamePhaseF (S (S (S (S f)))) s = advanceGamePhaseF 4 s.
Proof.
  intro H. rewrite (advanceGamePhaseF_S (S (S (S f)))), (advanceGamePhaseF_S 3), H.
  destruct (dealFlop s) as [s1|]; [|reflexivity].
  apply startBettingRoundWith_ext. intros i _ _.
  rewrite (advanceGamePhaseF_flop f) by reflexivity. reflexivity.
Qed.

(** Four levels of nested calls are all [advanceGamePhase] ever makes:
    any larger bound gives the same result. *)
Lemma advanceGamePhase_fuel f s :
  (4 <= f)%nat -> advanceGamePhaseF f s = advanceGamePhase s.
Proof.
  intro Hf. unfold advanceGamePhase.
  destruct f as [|[|[|[|f]]]]; try lia.
  destruct (gamePhase s) eqn:H.
  - exact (advanceGamePhaseF_preflop f s H).
  - rewrite (advanceGamePhaseF_flop (S f) s H), (advanceGamePhaseF_flop 1 s H). reflexivity.
  - rewrite (advanceGamePhaseF_turn (S (S f)) s H), (advanceGamePhaseF_turn 2 s H).
    reflexivity.
  - rewrite (advanceGamePhaseF_river (S (S (S f))) s H), (advanceGamePhaseF_river 3 s H).
    reflexivity.
  - rewrite (advanceGamePhaseF_showdown (S (S (S f))) s H),
      (advanceGamePhaseF_showdown 3 s H). reflexivity.
Qed.

Lemma advanceGamePhaseF_not_preflop f s s' :
  advanceGamePhaseF f s = Some s' -> gamePhase s' <> preflop.
Proof.
  revert s s'; induction f as [|f IH]; intros s s' H; [discriminate|].
  rewrite advanceGamePhaseF_S in H.
  assert (K : forall u, gamePhase u <> preflop ->
            startBettingRoundWith (advanceGamePhaseF f) u = Some s' -> gamePhase s' <> preflop).
  { intros u Hu E. destruct (startBettingRoundWith_cases _ _ _ E) as [[j ->]|[i Hi]];
      [exact Hu | exact (IH _ _ Hi)]. }
  revert H. destruct (gamePhase s) eqn:Ph.
  - destruct (dealFlop s); intro H; [|discriminate]. refine (K _ _ H). cbn. discriminate.
  - destruct (dealTurn s); intro H; [|discriminate]. refine (K _ _ H). cbn. discriminate.
  - destruct (dealRiver s); intro H; [|discriminate]. refine (K _ _ H). cbn. discriminate.
  - intro H. rewrite (showdown_phase _ _ H). discriminate.
  - intro H. apply (K s); [rewrite Ph; discriminate | exact H].
Qed.

(** A first betting round that ends still preflop only moved the turn. *)
Lemma startBettingRound_preflop s s' :
  startBettingRound s = Some s' -> gamePhase s' = preflop -> exists j, s' = withIndex s j.
Proof.
  intros H Hp. unfold startBettingRound in H.
  destruct (startBettingRoundWith_cases _ _ _ H) as [Hj|[i Hi]]; [exact Hj|].
  exfalso. exact (advanceGamePhaseF_not_preflop _ _ _ Hi Hp).
Qed.

(** **** Steps that move no chip *)

(** Short of a showdown, the turn logic keeps every stack, every hand
    and the pot, and only takes cards off the deck. *)
Definition calm (s s' : Engine) : Prop :=
  map Player.chips (players s') = map Player.chips (players s) /\
  map Player.cards (players s') = map Player.cards (players s) /\
  pot s' = pot s /\ shrinks s s'.

(** Calm steps, then [showdown]. *)
Definition calmShowdown (s s' : Engine) : Prop :=
  exists u, calm s u /\ showdown u = Some s'.

Lemma calm_refl s : calm s s.
Proof. split; [|split; [|split]]; try reflexivity. apply shrinks_refl. Qed.

Lemma calm_trans a b c : calm a b -> calm b c -> calm a c.
Proof.
  intros (A1 & B1 & C1 & D1) (A2 & B2 & C2 & D2).
  split; [congruence|]. split; [congruence|]. split; [congruence|].
  eapply shrinks_trans; eassumption.
Qed.

Lemma calm_calmShowdown a b c : calm a b -> calmShowdown b c -> calmShowdown a c.
Proof. intros C (u & C' & H). exists u. split; [eapply calm_trans; eassumption | exact H]. Qed.

Lemma calm_withIndex s j : calm s (withIndex s j).
Proof. split; [|split; [|split]]; try reflexivity. apply shrinks_eq. reflexivity. Qed.

Lemma calm_withPhase s ph : calm s (withPhase s ph).
Proof. split; [|split; [|split]]; try reflexivity. apply shrinks_eq. reflexivity. Qed.

Lemma calm_resetBets s : calm s (resetBets s).
Proof.
  split; [|split; [|split]]; cbn [players resetBets withPlayers]; try (rewrite map_map; reflexivity).
  - reflexivity.
  - apply shrinks_eq, resetBets_cardsOf.
Qed.

Lemma calm_dealFlop s s' : dealFlop s = Some s' -> calm s s'.
Proof.
  intro H. destruct (dealFlop_keeps _ _ H) as [H1 H2].
  split; [|split; [|split]]; [rewrite H1; reflexivity | rewrite H1; reflexivity | exact H2 |].
  apply (dealFlop_shrinks _ _ H).
Qed.

Lemma calm_dealOne s s' : dealCommunity (burnCard s) = Some s' -> calm s s'.
Proof.
  intro H. destruct (dealOne_keeps _ _ H) as [H1 H2].
  split; [|split; [|split]]; [rewrite H1; reflexivity | rewrite H1; reflexivity | exact H2 |].
  apply (dealOne_shrinks _ _ H).
Qed.

Lemma startBettingRoundWith_calm adv s s' :
  (forall u u', adv u = Some u' -> calm u u' \/ calmShowdown u u') ->
  startBettingRoundWith adv s = Some s' -> calm s s' \/ calmShowdown s s'.
Proof.
  intros Hadv H. destruct (startBettingRoundWith_cases _ _ _ H) as [[j ->]|[i Hi]].
  - left. apply calm_withIndex.
  - assert (C : calm s (resetBets (withIndex s i)))
      by (eapply calm_trans; [apply calm_withIndex | apply calm_resetBets]).
    destruct (Hadv _ _ Hi) as [C'|C'];
      [left; eapply calm_trans | right; eapply calm_calmShowdown]; eassumption.
Qed.

Lemma advanceGamePhaseF_calm f s s' :
  advanceGamePhaseF f s = Some s' -> calm s s' \/ calmShowdown s s'.
Proof.
  revert s s'; induction f as [|f IH]; intros s s' H; [discriminate|].
  rewrite advanceGamePhaseF_S in H.
  assert (K : forall ph s1, calm s s1 ->
            startBettingRoundWith (advanceGamePhaseF f) (withPhase s1 ph) = Some s' ->
            calm s s' \/ calmShowdown s s').
  { intros ph s1 C1 E.
    assert (C2 : calm s (withPhase s1 ph))
      by (eapply calm_trans; [exact C1 | apply calm_withPhase]).
    destruct (startBettingRoundWith_calm _ _ _ IH E) as [C|C];
      [left; eapply calm_trans | right; eapply calm_calmShowdown]; eassumption. }
  revert H. destruct (gamePhase s).
  - destruct (dealFlop s) as [s1|] eqn:E; intro H; [|discriminate].
    exact (K _ _ (calm_dealFlop _ _ E) H).
  - unfold dealTurn. destruct (dealCommunity (burnCard s)) as [s1|] eqn:E; intro H;
      [|discriminate].
    exact (K _ _ (calm_dealOne _ _ E) H).
  - unfold dealRiver. destruct (dealCommunity (burnCard s)) as [s1|] eqn:E; intro H;
      [|discriminate].
    exact (K _ _ (calm_dealOne _ _ E) H).
  - intro H. right. exists s. split; [apply calm_refl | exact H].
  - intro H. exact (startBettingRoundWith_calm _ _ _ IH H).
Qed.

Lemma advanceGamePhase_calm s s' :
  advanceGamePhase s = Some s' -> calm s s' \/ calmShowdown s s'.
Proof. apply advanceGamePhaseF_calm. Qed.

Lemma completeBettingRound_calm s s' :
  completeBettingRound s = Some s' -> calm s s' \/ calmShowdown s s'.
Proof.
  intro H. destruct (advanceGamePhase_calm _ _ H) as [C|C];
    [left; eapply calm_trans | right; eapply calm_calmShowdown];
    (apply calm_resetBets || exact C).
Qed.

Lemma moveToNextPlayer_calm s s' :
  moveToNextPlayer s = Some s' -> calm s s' \/ calmShowdown s s'.
Proof.
  intro H. destruct (moveToNextPlayerWith_cases _ _ _ H) as [[j ->]|H'].
  - left. apply calm_withIndex.
  - exact (completeBettingRound_calm _ _ H').
Qed.

Lemma startBettingRound_calm s s' :
  startBettingRound s = Some s' -> calm s s' \/ calmShowdown s s'.
Proof. apply startBettingRoundWith_calm, advanceGamePhase_calm. Qed.

Lemma calm_shrinks s s' : calm s s' \/ calmShowdown s s' -> shrinks s s'.
Proof.
  intros [(_ & _ & _ & S)|(u & (_ & _ & _ & S) & H)]; [exact S|].
  eapply shrinks_trans; [exact S | apply shrinks_eq, (showdown_cardsOf _ _ H)].
Qed.

Lemma calm_hands s s' :
  calm s s' \/ calmShowdown s s' -> map Player.cards (players s') = map Player.cards (players s).
Proof.
  intros [(_ & C & _ & _)|(u & (_ & C & _ & _) & H)]; [exact C|].
  rewrite (showdown_hands _ _ H). exact C.
Qed.


Lemma calm_stacks s s' : calm s s' -> stacksNonneg (players s) -> stacksNonneg (players s').
Proof.
  intros (C & _ & _ & _) H p Hp.
  assert (Hc : In (Player.chips p) (map Player.chips (players s)))
    by (rewrite <- C; apply in_map, Hp).
  apply in_map_iff in Hc as [q [Eq Hq]]. rewrite <- Eq. apply H, Hq.
Qed.

Lemma calm_nonneg s s' :
  calm s s' \/ calmShowdown s s' -> stacksNonneg (players s) -> 0 <= pot s ->
  stacksNonneg (players s').
Proof.
  intros [C|(u & C & H)] Hs Hp; [exact (calm_stacks _ _ C Hs)|].
  destruct C as (C1 & C2 & C3 & C4).
  apply (showdown_nonneg u s' H); [rewrite C3; exact Hp|].
  apply (calm_stacks s u); [split; [|split; [|split]]; assumption | exact Hs].
Qed.

Lemma processNextPlayer_calm s s' :
  processNextPlayer s = Some s' -> calm s s' \/ calmShowdown s s'.
Proof.
  intro H. destruct (processNextPlayerWith_cases _ _ _ H) as [[j ->]|H'].
  - left. apply calm_withIndex.
  - exact (completeBettingRound_calm _ _ H').
Qed.

(** *** [startNewHand] *)

Lemma dealPocketCards_eq s : dealPocketCards s = dealPocketRound (dealPocketRound s).
Proof. reflexivity. Qed.

(** The state [startNewHand] hands to [startBettingRound], for the
    shuffled deck [d]. *)
Definition dealtState (s : Engine) (d : list Card.t) : Engine :=
  dealPocketRound (dealPocketRound (postBlinds
    (mkEngine d [] (map resetPlayer (players s)) (currentPlayerIndex s)
              (dealerPosition s) (smallBlind s) (bigBlind s) 0 preflop))).

Lemma startNewHand_shape s rng k o k' :
  startNewHand s rng k = (o, k') ->
  exists d, Permutation createDeck d /\ o = startBettingRound (dealtState s d).
Proof.
  unfold startNewHand, shuffleDeck, PokerAI.bind, PokerAI.ret.
  pose proof (shuffleFrom_perm (length (deck (withDeck s createDeck)) - 1)
                (deck (withDeck s createDeck)) rng k) as P.
  destruct (shuffleFrom (length (deck (withDeck s createDeck)) - 1)
              (deck (withDeck s createDeck)) rng k) as [d k1].
  intro H. apply (f_equal fst) in H. simpl in H. subst o.
  exists d. split; [exact P | reflexivity].
Qed.

Lemma dealtState_facts s d :
  Permutation createDeck d -> (length (players s) <= 26)%nat ->
  Permutation createDeck (deck (dealtState s d) ++ holes (dealtState s d)) /\
  map seatCount (players (dealtState s d)) =
    map (fun p => if hasChips p then (true, 2%nat) else (false, 0%nat)) (players s) /\
  communityCards (dealtState s d) = [] /\ gamePhase (dealtState s d) = preflop.
Proof.
  intros Pd Hn. unfold dealtState.
  set (s2 := mkEngine d [] (map resetPlayer (players s)) (currentPlayerIndex s)
                      (dealerPosition s) (smallBlind s) (bigBlind s) 0 preflop).
  destruct (postBlinds_keeps s2) as (Dk & Cc & Sc & Ph & Dp).
  set (s3 := postBlinds s2) in *.
  set (a := length (filter hasChips (players s))).
  assert (Ha : a = length (filter Player.isActive (players s3))).
  { unfold a. rewrite <- filter_isActive_resetPlayer.
    apply filter_isActive_map. symmetry. apply map_isActive_seatCards. exact Sc. }
  assert (Ha26 : (a <= 26)%nat)
    by (unfold a; pose proof (filter_length_le' hasChips (players s)); lia).
  assert (Hd : length (deck s3) = 52%nat)
    by (rewrite Dk; simpl; rewrite <- (Permutation_length Pd); apply createDeck_length).
  rewrite !dealPocketRound_eq.
  cbn [deck players communityCards gamePhase dealerPosition pot currentPlayerIndex].
  set (r1 := dealSeats (deck s3) (players s3)).
  set (r2 := dealSeats (fst r1) (snd r1)).
  destruct (dealSeats_counts (deck s3) (players s3)) as [L1 _]; [lia|]. fold r1 in L1.
  pose proof (dealSeats_seatCount (deck s3) (players s3) ltac:(lia)) as C1. fold r1 in C1.
  assert (Ha1 : length (filter Player.isActive (snd r1)) = a).
  { rewrite Ha. apply filter_isActive_noCards, dealSeats_noCards. }
  pose proof (dealSeats_seatCount (fst r1) (snd r1) ltac:(lia)) as C2. fold r2 in C2.
  pose proof (dealSeats_perm (deck s3) (players s3)) as P1. fold r1 in P1.
  pose proof (dealSeats_perm (fst r1) (snd r1)) as P2. fold r2 in P2.
  assert (H3 : flat_map Player.cards (players s3) = []).
  { rewrite (flat_map_seatCards _ (players s2) Sc). apply holes_resetPlayer. }
  split; [|split; [|split]].
  - unfold holes. simpl. rewrite H3, app_nil_r, Dk in P1. simpl in P1.
    etransitivity; [exact Pd|]. etransitivity; [exact P1 | exact P2].
  - rewrite C2, C1, (map_seatCount_seatCards _ _ Sc). simpl. rewrite !map_map.
    apply map_ext. intro p. unfold hasChips, dealtOne, seatCount, cardCount, resetPlayer.
    simpl. destruct (Qltb 0 (Player.chips p)); reflexivity.
  - exact Cc.
  - exact Ph.
Qed.



(** A random source that always returns [0.5]. *)
Definition halfRng : nat -> Q := fun _ => 1 # 2.

(** X5: on a table of at most 26 seats, the cards of the state that
    [startNewHand] returns (deck, hands and board) are pairwise distinct
    cards of value 2..14, and a seat that had chips holds two cards and
    any other seat none.  When the first betting round waits for a seat,
    so that the phase is still preflop, the board is empty and the deck
    and the hands hold each of the 52 cards exactly once. *)
Theorem startNewHand_deals_each_card_once s rng k s' k' :
  (length (players s) <= 26)%nat ->
  startNewHand s rng k = (Some s', k') ->
  NoDup (cardsOf s') /\
  (forall c, In c (cardsOf s') -> (2 <= Card.value c <= 14)%Z) /\
  map (fun p => length (Player.cards p)) (players s') =
    map (fun p => if Qltb 0 (Player.chips p) then 2%nat else 0%nat) (players s) /\
  (gamePhase s' = preflop ->
   communityCards s' = [] /\ NoDup (deck s' ++ holes s') /\
   length (deck s' ++ holes s') = 52%nat /\
   (forall c, In c (deck s' ++ holes s') <-> (2 <= Card.value c <= 14)%Z)).
Proof.
  intros Hn H. destruct (startNewHand_shape _ _ _ _ _ H) as (d & Pd & E). clear H.
  destruct (dealtState_facts s d Pd Hn) as (P & C & Cc & Ph).
  set (s0 := dealtState s d) in *.
  assert (N0 : NoDup (cardsOf s0)).
  { unfold cardsOf. rewrite Cc, app_nil_r. apply (Permutation_NoDup P), createDeck_NoDup. }
  assert (V0 : forall c, In c (cardsOf s0) -> (2 <= Card.value c <= 14)%Z).
  { intros c Hc. unfold cardsOf in Hc. rewrite Cc, app_nil_r in Hc.
    apply createDeck_values, (Permutation_in _ (Permutation_sym P)), Hc. }
  symmetry in E. pose proof (startBettingRound_calm _ _ E) as K.
  split; [|split; [|split]].
  - exact (shrinks_NoDup _ _ (calm_shrinks _ _ K) N0).
  - intros c Hc. apply V0, (shrinks_In _ _ _ (calm_shrinks _ _ K)), Hc.
  - transitivity (map (@length _) (map Player.cards (players s'))); [rewrite map_map; reflexivity|].
    rewrite (calm_hands _ _ K), map_map.
    apply (f_equal (map snd)) in C. rewrite !map_map in C.
    transitivity (map (fun x => snd (seatCount x)) (players s0)); [reflexivity|]. rewrite C.
    apply map_ext. intro p. unfold hasChips. destruct (Qltb 0 (Player.chips p)); reflexivity.
  - intro Hp. destruct (startBettingRound_preflop _ _ E Hp) as [j ->].
    change (communityCards s0 = [] /\ NoDup (deck s0 ++ holes s0) /\
            length (deck s0 ++ holes s0) = 52%nat /\
            (forall c, In c (deck s0 ++ holes s0) <-> (2 <= Card.value c <= 14)%Z)).
    split; [exact Cc|]. split; [|split].
    + apply (Permutation_NoDup P), createDeck_NoDup.
    + rewrite <- (Permutation_length P). apply createDeck_length.
    + intro c. split; intro Hc.
      * apply createDeck_values. apply (Permutation_in _ (Permutation_sym P)), Hc.
      * apply (Permutation_in _ P), createDeck_complete, Hc.
Qed.

Lemma startNewHand_deals_each_card_once_witness :
  exists s' k',
    (length (players newEngine) <= 26)%nat /\
    startNewHand newEngine halfRng 0%nat = (Some s', k') /\
    NoDup (cardsOf s') /\
    (forall c, In c (cardsOf s') -> (2 <= Card.value c <= 14)%Z) /\
    map (fun p => length (Player.cards p)) (players s') =
      map (fun p => if Qltb 0 (Player.chips p) then 2%nat else 0%nat) (players newEngine) /\
    (gamePhase s' = preflop ->
     communityCards s' = [] /\ NoDup (deck s' ++ holes s') /\
     length (deck s' ++ holes s') = 52%nat /\
     (forall c, In c (deck s' ++ holes s') <-> (2 <= Card.value c <= 14)%Z)).
Proof.
  exists (match fst (startNewHand newEngine halfRng 0%nat) with
          | Some u => u | None => newEngine end),
         (snd (startNewHand newEngine halfRng 0%nat)).
  assert (H1 : (length (players newEngine) <= 26)%nat) by (vm_compute; lia).
  assert (H2 : startNewHand newEngine halfRng 0%nat =
               (Some (match fst (startNewHand newEngine halfRng 0%nat) with
                      | Some u => u | None => newEngine end),
                snd (startNewHand newEngine halfRng 0%nat)))
    by (vm_compute; reflexivity).
  split; [exact H1|]. split; [exact H2|].
  exact (startNewHand_deals_each_card_once newEngine halfRng 0%nat
                 (match fst (startNewHand newEngine halfRng 0%nat) with
                    | Some u => u | None => newEngine end)
                 (snd (startNewHand newEngine halfRng 0%nat)) H1 H2).
Defined.



(** *** The board *)

Lemma dealCard_rev s c L : deck s = rev (c :: L) -> dealCard s = (Some c, withDeck s (rev L)).
Proof. unfold dealCard. intro H. rewrite H, rev_involutive. reflexivity. Qed.

Lemma burnCard_rev s c L : deck s = rev (c :: L) -> burnCard s = withDeck s (rev L).
Proof. intro H. unfold burnCard. rewrite (dealCard_rev s c L H). reflexivity. Qed.

Lemma dealCommunity_rev s c L :
  deck s = rev (c :: L) ->
  dealCommunity s = Some (withCommunity (withDeck s (rev L)) (communityCards s ++ [c])).
Proof. intro H. unfold dealCommunity. rewrite (dealCard_rev s c L H). reflexivity. Qed.

Lemma dealFlop_rev s b1 f1 f2 f3 L :
  deck s = rev (b1 :: f1 :: f2 :: f3 :: L) ->
  dealFlop s = Some (withCommunity (withDeck s (rev L)) (communityCards s ++ [f1; f2; f3])).
Proof.
  intro H. unfold dealFlop. rewrite (burnCard_rev s b1 _ H).
  erewrite dealCommunity_rev by reflexivity. cbv beta iota.
  erewrite dealCommunity_rev by reflexivity. cbv beta iota.
  erewrite dealCommunity_rev by reflexivity.
  unfold withCommunity, withDeck. cbn. rewrite <- !app_assoc. reflexivity.
Qed.

Lemma dealOne_rev s b c L :
  deck s = rev (b :: c :: L) ->
  dealCommunity (burnCard s) =
    Some (withCommunity (withDeck s (rev L)) (communityCards s ++ [c])).
Proof.
  intro H. rewrite (burnCard_rev s b _ H). erewrite dealCommunity_rev by reflexivity.
  reflexivity.
Qed.

Lemma advance_three s p b1 f1 f2 f3 b2 t b3 r T :
  gamePhase s = preflop ->
  deck s = rev (b1 :: f1 :: f2 :: f3 :: b2 :: t :: b3 :: r :: T) ->
  nth_error (players s) ((dealerPosition s + 1) mod length (players s))%nat = Some p ->
  inHand p = true ->
  exists s1 s2 s3,
    advanceGamePhase s = Some s1 /\ advanceGamePhase s1 = Some s2 /\
    advanceGamePhase s2 = Some s3 /\
    gamePhase s1 = flop /\ gamePhase s2 = turn /\ gamePhase s3 = river /\
    communityCards s1 = communityCards s ++ [f1; f2; f3] /\
    communityCards s2 = communityCards s1 ++ [t] /\
    communityCards s3 = communityCards s2 ++ [r] /\
    deck s3 = rev T /\ players s3 = players s /\ pot s3 = pot s /\
    currentPlayerIndex s3 = ((dealerPosition s + 1) mod length (players s))%nat.
Proof.
  intros Hph Hd Hp Hin.
  set (i := ((dealerPosition s + 1) mod length (players s))%nat) in *.
  set (s1 := withIndex (withPhase (withCommunity (withDeck s (rev (b2 :: t :: b3 :: r :: T)))
                                    (communityCards s ++ [f1; f2; f3])) flop) i).
  assert (A1 : advanceGamePhase s = Some s1).
  { unfold advanceGamePhase.
    rewrite (advanceGamePhaseF_street 3 s flop _
               (or_introl (conj Hph (conj eq_refl (dealFlop_rev s b1 f1 f2 f3 _ Hd))))).
    rewrite (startBettingRoundWith_in _ _ p); [reflexivity | reflexivity | exact Hp | exact Hin]. }
  set (s2 := withIndex (withPhase (withCommunity (withDeck s1 (rev (b3 :: r :: T)))
                                    (communityCards s1 ++ [t])) turn) i).
  assert (A2 : advanceGamePhase s1 = Some s2).
  { unfold advanceGamePhase.
    rewrite (advanceGamePhaseF_street 3 s1 turn _
               (or_intror (or_introl (conj eq_refl (conj eq_refl
                  (dealOne_rev s1 b2 t (b3 :: r :: T) eq_refl)))))).
    rewrite (startBettingRoundWith_in _ _ p); [reflexivity | reflexivity | exact Hp | exact Hin]. }
  set (s3 := withIndex (withPhase (withCommunity (withDeck s2 (rev T))
                                    (communityCards s2 ++ [r])) river) i).
  assert (A3 : advanceGamePhase s2 = Some s3).
  { unfold advanceGamePhase.
    rewrite (advanceGamePhaseF_street 3 s2 river _
               (or_intror (or_intror (conj eq_refl (conj eq_refl
                  (dealOne_rev s2 b3 r T eq_refl)))))).
    rewrite (startBettingRoundWith_in _ _ p); [reflexivity | reflexivity | exact Hp | exact Hin]. }
  exists s1, s2, s3.
  split; [exact A1|]. split; [exact A2|]. split; [exact A3|].
  repeat split; reflexivity.
Qed.

(** X7: from the preflop phase with at least 8 cards in the deck, and
    with the seat after the dealer in the hand (so that each new round
    waits for it), three calls of [advanceGamePhase] deal the board from
    the top of the deck (the end of [this.deck]): a burned card and the
    three flop cards, then a burned card and the turn, then a burned
    card and the river.  The phases become flop, turn and river; the
    seats and the pot are untouched; the first seat to act is the one
    after the dealer. *)
Theorem advanceGamePhase_deals_board s p :
  gamePhase s = preflop -> (8 <= length (deck s))%nat ->
  nth_error (players s) ((dealerPosition s + 1) mod length (players s))%nat = Some p ->
  inHand p = true ->
  exists s1 s2 s3 b1 f1 f2 f3 b2 t b3 r,
    advanceGamePhase s = Some s1 /\ advanceGamePhase s1 = Some s2 /\
    advanceGamePhase s2 = Some s3 /\
    gamePhase s1 = flop /\ gamePhase s2 = turn /\ gamePhase s3 = river /\
    communityCards s1 = communityCards s ++ [f1; f2; f3] /\
    communityCards s2 = communityCards s1 ++ [t] /\
    communityCards s3 = communityCards s2 ++ [r] /\
    deck s = deck s3 ++ [r; b3; t; b2; f3; f2; f1; b1] /\
    players s3 = players s /\ pot s3 = pot s /\
    currentPlayerIndex s3 = ((dealerPosition s + 1) mod length (players s))%nat.
Proof.
  intros Hph Hlen Hp Hin.
  assert (Hd : deck s = rev (rev (deck s))) by (symmetry; apply rev_involutive).
  assert (HL : (8 <= length (rev (deck s)))%nat) by (rewrite length_rev; exact Hlen).
  destruct (rev (deck s)) as [|b1 [|f1 [|f2 [|f3 [|b2 [|t [|b3 [|r T]]]]]]]];
    simpl in HL; try lia.
  destruct (advance_three s p b1 f1 f2 f3 b2 t b3 r T Hph Hd Hp Hin)
    as (s1 & s2 & s3 & A1 & A2 & A3 & P1 & P2 & P3 & C1 & C2 & C3 & D & Pl & Po & I).
  exists s1, s2, s3, b1, f1, f2, f3, b2, t, b3, r.
  repeat split; try assumption.
  rewrite Hd, D. simpl. rewrite <- !app_assoc. reflexivity.
Qed.

Lemma advanceGamePhase_deals_board_witness :
  gamePhase newEngine = preflop /\ (8 <= length (deck newEngine))%nat /\
  nth_error (players newEngine)
    ((dealerPosition newEngine + 1) mod length (players newEngine))%nat =
    Some (Player.mk 1 1000 [] 0 0 true true false false) /\
  inHand (Player.mk 1 1000 [] 0 0 true true false false) = true /\
  exists s1 s2 s3 b1 f1 f2 f3 b2 t b3 r,
    advanceGamePhase newEngine = Some s1 /\ advanceGamePhase s1 = Some s2 /\
    advanceGamePhase s2 = Some s3 /\
    gamePhase s1 = flop /\ gamePhase s2 = turn /\ gamePhase s3 = river /\
    communityCards s1 = communityCards newEngine ++ [f1; f2; f3] /\
    communityCards s2 = communityCards s1 ++ [t] /\
    communityCards s3 = communityCards s2 ++ [r] /\
    deck newEngine = deck s3 ++ [r; b3; t; b2; f3; f2; f1; b1] /\
    players s3 = players newEngine /\ pot s3 = pot newEngine /\
    currentPlayerIndex s3 =
      ((dealerPosition newEngine + 1) mod length (players newEngine))%nat.
Proof.
  assert (H1 : gamePhase newEngine = preflop) by reflexivity.
  assert (H2 : (8 <= length (deck newEngine))%nat) by (vm_compute; lia).
  assert (H3 : nth_error (players newEngine)
                 ((dealerPosition newEngine + 1) mod length (players newEngine))%nat =
               Some (Player.mk 1 1000 [] 0 0 true true false false)) by reflexivity.
  assert (H4 : inHand (Player.mk 1 1000 [] 0 0 true true false false) = true) by reflexivity.
  split; [exact H1|]. split; [exact H2|]. split; [exact H3|]. split; [exact H4|].
  exact (advanceGamePhase_deals_board newEngine _ H1 H2 H3 H4).
Defined.

(** X23: when the preflop round ends (through [completeBettingRound]
    with at least 8 cards in the deck) and the seat after the dealer is
    out of the hand, the flop, turn and river rounds are each complete
    as soon as they start: the whole board is dealt at once and the
    hand goes straight to [showdown], from the river with the bets
    reset, the pot unchanged and the turn on the seat after the
    dealer. *)
Theorem completeBettingRound_runs_to_showdown s :
  gamePhase s = preflop -> (8 <= length (deck s))%nat ->
  (forall p, nth_error (players s) ((dealerPosition s + 1) mod length (players s))%nat = Some p ->
             inHand p = false) ->
  exists u f1 f2 f3 t r b1 b2 b3,
    completeBettingRound s = showdown u /\ gamePhase u = river /\
    communityCards u = communityCards s ++ [f1; f2; f3; t; r] /\
    deck s = deck u ++ [r; b3; t; b2; f3; f2; f1; b1] /\
    players u = map resetBet (players s) /\ pot u = pot s /\
    currentPlayerIndex u = ((dealerPosition s + 1) mod length (players s))%nat.
Proof.
  intros Hph Hlen Hout.
  assert (Hd : deck s = rev (rev (deck s))) by (symmetry; apply rev_involutive).
  assert (HL : (8 <= length (rev (deck s)))%nat) by (rewrite length_rev; exact Hlen).
  destruct (rev (deck s)) as [|b1 [|f1 [|f2 [|f3 [|b2 [|t [|b3 [|r T]]]]]]]];
    simpl in HL; try lia.
  set (s0 := resetBets s).
  set (j := ((dealerPosition s0 + 1) mod length (players s0))%nat).
  assert (Out0 : forall p, nth_error (players s0) j = Some p -> inHand p = false).
  { unfold j. change (players s0) with (map resetBet (players s)).
    change (dealerPosition s0) with (dealerPosition s). rewrite length_map.
    apply out_resetBet, Hout. }
  assert (R0 : map resetBet (players s0) = players s0) by apply map_resetBet_idem.
  set (w1 := withPhase (withCommunity (withDeck s0 (rev (b2 :: t :: b3 :: r :: T)))
                                      (communityCards s ++ [f1; f2; f3])) flop).
  assert (E1 : advanceGamePhaseF 4 s0 = advanceGamePhaseF 3 (withIndex w1 j)).
  { rewrite (advanceGamePhaseF_street 3 s0 flop _
               (or_introl (conj Hph (conj eq_refl (dealFlop_rev s0 b1 f1 f2 f3 _ Hd))))).
    exact (startBettingRoundWith_out (advanceGamePhaseF 3) w1 eq_refl R0 Out0). }
  set (w2 := withPhase (withCommunity (withDeck (withIndex w1 j) (rev (b3 :: r :: T)))
                                      (communityCards w1 ++ [t])) turn).
  assert (E2 : advanceGamePhaseF 3 (withIndex w1 j) = advanceGamePhaseF 2 (withIndex w2 j)).
  { rewrite (advanceGamePhaseF_street 2 (withIndex w1 j) turn _
               (or_intror (or_introl (conj eq_refl (conj eq_refl
                  (dealOne_rev (withIndex w1 j) b2 t (b3 :: r :: T) eq_refl)))))).
    exact (startBettingRoundWith_out (advanceGamePhaseF 2) w2 eq_refl R0 Out0). }
  set (w3 := withPhase (withCommunity (withDeck (withIndex w2 j) (rev T))
                                      (communityCards w2 ++ [r])) river).
  assert (E3 : advanceGamePhaseF 2 (withIndex w2 j) = advanceGamePhaseF 1 (withIndex w3 j)).
  { rewrite (advanceGamePhaseF_street 1 (withIndex w2 j) river _
               (or_intror (or_intror (conj eq_refl (conj eq_refl
                  (dealOne_rev (withIndex w2 j) b3 r T eq_refl)))))).
    exact (startBettingRoundWith_out (advanceGamePhaseF 1) w3 eq_refl R0 Out0). }
  exists (withIndex w3 j), f1, f2, f3, t, r, b1, b2, b3.
  split.
  { unfold completeBettingRound, advanceGamePhase. fold s0.
    rewrite E1, E2, E3. apply advanceGamePhaseF_river. reflexivity. }
  split; [reflexivity|]. split.
  { change (communityCards (withIndex w3 j)) with
      (((communityCards s ++ [f1; f2; f3]) ++ [t]) ++ [r]).
    rewrite <- !app_assoc. reflexivity. }
  split.
  { change (deck (withIndex w3 j)) with (rev T).
    rewrite Hd. cbn [rev]. rewrite <- !app_assoc. reflexivity. }
  split; [reflexivity|]. split; [reflexivity|].
  change (j = ((dealerPosition s + 1) mod length (players s))%nat).
  unfold j. change (players s0) with (map resetBet (players s)).
  rewrite length_map. reflexivity.
Qed.

(** The table of [newEngine] where the seat after the dealer has
    folded. *)
Definition foldedTable : Engine :=
  mkEngine createDeck []
    [Player.mk 0 1000 [] 0 0 false true false false;
     Player.mk 1 1000 [] 0 0 true true false true;
     Player.mk 2 1000 [] 0 0 true true false false] 0 0 5 10 0 preflop.

Lemma completeBettingRound_runs_to_showdown_witness :
  gamePhase foldedTable = preflop /\ (8 <= length (deck foldedTable))%nat /\
  (forall p, nth_error (players foldedTable)
               ((dealerPosition foldedTable + 1) mod length (players foldedTable))%nat = Some p ->
             inHand p = false) /\
  exists u f1 f2 f3 t r b1 b2 b3,
    completeBettingRound foldedTable = showdown u /\ gamePhase u = river /\
    communityCards u = communityCards foldedTable ++ [f1; f2; f3; t; r] /\
    deck foldedTable = deck u ++ [r; b3; t; b2; f3; f2; f1; b1] /\
    players u = map resetBet (players foldedTable) /\ pot u = pot foldedTable /\
    currentPlayerIndex u =
      ((dealerPosition foldedTable + 1) mod length (players foldedTable))%nat.
Proof.
  assert (H1 : gamePhase foldedTable = preflop) by reflexivity.
  assert (H2 : (8 <= length (deck foldedTable))%nat) by (vm_compute; lia).
  assert (H3 : forall p, nth_error (players foldedTable)
                 ((dealerPosition foldedTable + 1) mod length (players foldedTable))%nat =
                 Some p -> inHand p = false)
    by (intros p Hp; vm_compute in Hp; injection Hp as <-; reflexivity).
  split; [exact H1|]. split; [exact H2|]. split; [exact H3|].
  exact (completeBettingRound_runs_to_showdown foldedTable H1 H2 H3).
Defined.

(** *** No card is ever duplicated *)

(** X8: in a state whose cards (deck, hands and board) are pairwise
    distinct, every player action, and every [moveToNextPlayer],
    [processNextPlayer], [advanceGamePhase], [completeBettingRound] and
    [startBettingRound] (which may deal the next streets and settle the
    showdown) leaves them pairwise distinct: dealing only moves cards
    from the deck to the board or burns them, and no other step touches
    a card. *)
Theorem cards_stay_distinct s :
  NoDup (cardsOf s) ->
  (forall i a amount, NoDup (cardsOf (executePlayerAction s i a amount))) /\
  (forall s', moveToNextPlayer s = Some s' -> NoDup (cardsOf s')) /\
  (forall s', processNextPlayer s = Some s' -> NoDup (cardsOf s')) /\
  (forall s', advanceGamePhase s = Some s' -> NoDup (cardsOf s')) /\
  (forall s', completeBettingRound s = Some s' -> NoDup (cardsOf s')) /\
  (forall s', startBettingRound s = Some s' -> NoDup (cardsOf s')).
Proof.
  intro H. split; [|split; [|split; [|split; [|split]]]].
  - intros i a amount. rewrite executePlayerAction_cardsOf. exact H.
  - intros s' E. exact (shrinks_NoDup _ _ (calm_shrinks _ _ (moveToNextPlayer_calm _ _ E)) H).
  - intros s' E. exact (shrinks_NoDup _ _ (calm_shrinks _ _ (processNextPlayer_calm _ _ E)) H).
  - intros s' E. exact (shrinks_NoDup _ _ (calm_shrinks _ _ (advanceGamePhase_calm _ _ E)) H).
  - intros s' E.
    exact (shrinks_NoDup _ _ (calm_shrinks _ _ (completeBettingRound_calm _ _ E)) H).
  - intros s' E. exact (shrinks_NoDup _ _ (calm_shrinks _ _ (startBettingRound_calm _ _ E)) H).
Qed.

Lemma cards_stay_distinct_witness :
  NoDup (cardsOf newEngine) /\
  (forall i a amount, NoDup (cardsOf (executePlayerAction newEngine i a amount))) /\
  (forall s', moveToNextPlayer newEngine = Some s' -> NoDup (cardsOf s')) /\
  (forall s', processNextPlayer newEngine = Some s' -> NoDup (cardsOf s')) /\
  (forall s', advanceGamePhase newEngine = Some s' -> NoDup (cardsOf s')) /\
  (forall s', completeBettingRound newEngine = Some s' -> NoDup (cardsOf s')) /\
  (forall s', startBettingRound newEngine = Some s' -> NoDup (cardsOf s')).
Proof.
  assert (H : NoDup (cardsOf newEngine)) by (apply nodupb_NoDup; vm_compute; reflexivity).
  split; [exact H|]. exact (cards_stay_distinct newEngine H).
Defined.

(** *** Passing the turn *)

(** The seat [k] is in the hand: [this.players[k]] exists, is active and
    has not folded. *)
Definition seatInHand (ps : list Player.t) (k : nat) : bool :=
  match nth_error ps k with Some p => inHand p | None => false end.

Lemma nextInHand_none fuel n ps i :
  (forall k, seatInHand ps k = false) -> nextInHand fuel n ps i = None.
Proof.
  revert i; induction fuel as [|fuel IH]; intros i H; cbn [nextInHand]; [reflexivity|].
  pose proof (H ((i + 1) mod n)%nat) as Hk. unfold seatInHand in Hk.
  destruct (nth_error ps ((i + 1) mod n)%nat); [|reflexivity].
  rewrite Hk. apply IH, H.
Qed.

Lemma nextInHand_spec f n ps i :
  n = length ps -> (0 < n)%nat ->
  match nextInHand f n ps i with
  | Some j =>
      exists d, (1 <= d <= f)%nat /\ j = ((i + d) mod n)%nat /\ seatInHand ps j = true /\
        forall e, (1 <= e < d)%nat -> seatInHand ps ((i + e) mod n) = false
  | None => forall e, (1 <= e <= f)%nat -> seatInHand ps ((i + e) mod n) = false
  end.
Proof.
  intros En Hn. revert i. induction f as [|f IH]; intro i; cbn [nextInHand].
  - intros e He; lia.
  - assert (Hj0 : (((i + 1) mod n) < n)%nat) by (apply Nat.mod_upper_bound; lia).
    assert (Hshift : forall d, (((i + 1) mod n + d) mod n = (i + S d) mod n)%nat).
    { intro d. rewrite Nat.Div0.add_mod_idemp_l by lia. f_equal; lia. }
    destruct (nth_error ps ((i + 1) mod n)%nat) as [p|] eqn:Ep;
      [| apply nth_error_None in Ep; lia].
    assert (Hfirst : seatInHand ps ((i + 1) mod n)%nat = inHand p)
      by (unfold seatInHand; rewrite Ep; reflexivity).
    destruct (inHand p) eqn:Hp.
    + exists 1%nat. split; [lia|]. split; [reflexivity|]. split; [exact Hfirst|].
      intros e He; lia.
    + specialize (IH ((i + 1) mod n)%nat).
      destruct (nextInHand f n ps ((i + 1) mod n)%nat) as [j|].
      * destruct IH as (d & Hd & Ej & Hin & Hbefore). exists (S d).
        split; [lia|]. split; [rewrite Ej; apply Hshift|]. split; [exact Hin|].
        intros e He. destruct (Nat.eq_dec e 1) as [->|Hne]; [exact Hfirst|].
        replace e with (S (e - 1)) by lia. rewrite <- Hshift. apply Hbefore; lia.
      * intros e He. destruct (Nat.eq_dec e 1) as [->|Hne]; [exact Hfirst|].
        replace e with (S (e - 1)) by lia. rewrite <- Hshift. apply IH; lia.
Qed.

Lemma mod_reach n i k :
  (k < n)%nat ->
  exists e, (1 <= e <= n)%nat /\ ((i + e) mod n = k)%nat /\ (e = n -> k = i mod n)%nat.
Proof.
  intro Hk. assert (Hr : (i mod n < n)%nat) by (apply Nat.mod_upper_bound; lia).
  destruct (Nat.ltb_spec (i mod n) k).
  - exists (k - i mod n)%nat. split; [lia|]. split; [|lia].
    rewrite <- Nat.Div0.add_mod_idemp_l by lia.
    replace (i mod n + (k - i mod n))%nat with k by lia. apply Nat.mod_small; lia.
  - exists (n - i mod n + k)%nat. split; [lia|]. split; [|lia].
    rewrite <- Nat.Div0.add_mod_idemp_l by lia.
    replace (i mod n + (n - i mod n + k))%nat with (k + 1 * n)%nat by lia.
    rewrite Nat.Div0.mod_add. apply Nat.mod_small; lia.
Qed.

Lemma mod_step_ne n i d : (1 <= d < n)%nat -> ((i + d) mod n <> i mod n)%nat.
Proof.
  intro Hd. assert (Hr : (i mod n < n)%nat) by (apply Nat.mod_upper_bound; lia).
  rewrite <- Nat.Div0.add_mod_idemp_l by lia.
  destruct (Nat.ltb_spec (i mod n + d) n).
  - rewrite Nat.mod_small by lia. lia.
  - replace (i mod n + d)%nat with ((i mod n + d - n) + 1 * n)%nat by lia.
    rewrite Nat.Div0.mod_add. rewrite Nat.mod_small by lia. lia.
Qed.

Lemma seatInHand_beyond ps k : (length ps <= k)%nat -> seatInHand ps k = false.
Proof. intro H. unfold seatInHand. apply nth_error_None in H. rewrite H. reflexivity. Qed.

Lemma filter_inHand_nil ps :
  (forall k, seatInHand ps k = false) -> filter inHand ps = [].
Proof.
  induction ps as [|p t IH]; intro H; [reflexivity|].
  pose proof (H 0%nat) as H0. unfold seatInHand in H0. simpl in H0.
  simpl. rewrite H0. apply IH. intro k. exact (H (S k)).
Qed.

Lemma filter_inHand_le1 ps k0 :
  (forall k, k <> k0 -> seatInHand ps k = false) -> (length (filter inHand ps) <= 1)%nat.
Proof.
  revert k0; induction ps as [|p t IH]; intros k0 H; [simpl; lia|].
  destruct k0 as [|k0].
  - simpl. rewrite (filter_inHand_nil t).
    + destruct (inHand p); simpl; lia.
    + intro k. exact (H (S k) (Nat.neq_succ_0 k)).
  - pose proof (H 0%nat ltac:(discriminate)) as H0. unfold seatInHand in H0. simpl in H0.
    simpl. rewrite H0. apply (IH k0). intros k Hk. apply (H (S k)). congruence.
Qed.

(** A search from [i] that visits the seats [i+1], ..., [i+n] (mod [n])
    and finds none in the hand means no seat is in the hand. *)
Lemma lap_covers_all ps i :
  (0 < length ps)%nat ->
  (forall e, (1 <= e <= length ps)%nat -> seatInHand ps ((i + e) mod length ps) = false) ->
  forall k, seatInHand ps k = false.
Proof.
  intros Hn H k. destruct (Nat.ltb_spec k (length ps)) as [Hk|Hk].
  - destruct (mod_reach (length ps) i k Hk) as (e & He & Ek & _). rewrite <- Ek. apply H, He.
  - apply seatInHand_beyond, Hk.
Qed.

(** X9: the search of [moveToNextPlayer] ([nextInHand] run for one lap
    of the table from the seat [i]) fails exactly when no seat is in the
    hand (the source's [do ... while] loop never stops there); otherwise
    it returns the first seat in the hand strictly after [i], going
    round the table, and skips only seats that are out of the hand. *)
Theorem nextInHand_first_seat_in_hand ps i :
  (0 < length ps)%nat ->
  (nextInHand (length ps) (length ps) ps i = None <-> forall k, seatInHand ps k = false) /\
  (forall j, nextInHand (length ps) (length ps) ps i = Some j ->
     exists d, (1 <= d <= length ps)%nat /\ j = ((i + d) mod length ps)%nat /\
       seatInHand ps j = true /\
       forall e, (1 <= e < d)%nat -> seatInHand ps ((i + e) mod length ps) = false).
Proof.
  intro Hn. pose proof (nextInHand_spec (length ps) (length ps) ps i eq_refl Hn) as Hs.
  split.
  - split.
    + intro E. rewrite E in Hs. exact (lap_covers_all ps i Hn Hs).
    + apply nextInHand_none.
  - intros j E. rewrite E in Hs. exact Hs.
Qed.

Lemma nextInHand_first_seat_in_hand_witness :
  (0 < length setupPlayers)%nat /\
  nextInHand (length setupPlayers) (length setupPlayers) setupPlayers 2 = Some 0%nat /\
  (exists d, (1 <= d <= length setupPlayers)%nat /\ 0%nat = ((2 + d) mod length setupPlayers)%nat /\
     seatInHand setupPlayers 0 = true /\
     forall e, (1 <= e < d)%nat -> seatInHand setupPlayers ((2 + e) mod length setupPlayers) = false).
Proof.
  assert (Hn : (0 < length setupPlayers)%nat) by (simpl; lia).
  split; [exact Hn|]. split; [reflexivity|].
  apply (proj2 (nextInHand_first_seat_in_hand setupPlayers 2 Hn)). reflexivity.
Defined.

(** X10: while the betting round is not complete, [moveToNextPlayer]
    always succeeds and hands the turn to a seat in the hand other than
    the current one: the first seat in the hand after it, going round
    the table, less than a full lap away. *)
Theorem moveToNextPlayer_passes_turn s :
  isBettingRoundComplete s = false ->
  exists j d,
    moveToNextPlayer s = Some (withIndex s j) /\
    (1 <= d < length (players s))%nat /\
    j = ((currentPlayerIndex s + d) mod length (players s))%nat /\
    j <> (currentPlayerIndex s mod length (players s))%nat /\
    seatInHand (players s) j = true /\
    forall e, (1 <= e < d)%nat ->
      seatInHand (players s) ((currentPlayerIndex s + e) mod length (players s)) = false.
Proof.
  intro H.
  assert (Hgt : (1 < length (filter inHand (players s)))%nat).
  { unfold isBettingRoundComplete in H. cbv zeta in H.
    destruct (length (filter inHand (players s)) <=? 1)%nat eqn:E; [discriminate|].
    apply Nat.leb_gt in E. exact E. }
  assert (Hn : (0 < length (players s))%nat).
  { destruct (players s); simpl in Hgt; simpl; lia. }
  pose proof (nextInHand_spec (length (players s)) (length (players s)) (players s)
                (currentPlayerIndex s) eq_refl Hn) as Hs.
  unfold moveToNextPlayer, moveToNextPlayerWith. rewrite H. cbv zeta.
  destruct (nextInHand (length (players s)) (length (players s)) (players s)
              (currentPlayerIndex s)) as [j|].
  - destruct Hs as (d & Hd & Ej & Hin & Hbefore).
    assert (Hdn : d <> length (players s)).
    { intro Ed. subst d.
      assert (Hle : (length (filter inHand (players s)) <= 1)%nat).
      { apply (filter_inHand_le1 _ (currentPlayerIndex s mod length (players s))%nat).
        intros k Hk. destruct (Nat.ltb_spec k (length (players s))) as [Hk'|Hk'].
        - destruct (mod_reach (length (players s)) (currentPlayerIndex s) k Hk')
            as (e & He & Ek & Hen).
          rewrite <- Ek. apply Hbefore. split; [lia|].
          destruct (Nat.eq_dec e (length (players s))) as [Ee|Ee]; [|lia].
          exfalso. exact (Hk (Hen Ee)).
        - apply seatInHand_beyond, Hk'. }
      lia. }
    exists j, d. split; [reflexivity|]. split; [lia|]. split; [exact Ej|].
    split; [rewrite Ej; apply mod_step_ne; lia|]. split; [exact Hin | exact Hbefore].
  - exfalso. pose proof (filter_inHand_nil _ (lap_covers_all _ _ Hn Hs)) as E.
    rewrite E in Hgt. simpl in Hgt. lia.
Qed.

Lemma moveToNextPlayer_passes_turn_witness :
  isBettingRoundComplete (postBlinds newEngine) = false /\
  exists j d,
    moveToNextPlayer (postBlinds newEngine) = Some (withIndex (postBlinds newEngine) j) /\
    (1 <= d < length (players (postBlinds newEngine)))%nat /\
    j = ((currentPlayerIndex (postBlinds newEngine) + d)
           mod length (players (postBlinds newEngine)))%nat /\
    j <> (currentPlayerIndex (postBlinds newEngine)
            mod length (players (postBlinds newEngine)))%nat /\
    seatInHand (players (postBlinds newEngine)) j = true /\
    forall e, (1 <= e < d)%nat ->
      seatInHand (players (postBlinds newEngine))
        ((currentPlayerIndex (postBlinds newEngine) + e)
           mod length (players (postBlinds newEngine))) = false.
Proof.
  assert (H : isBettingRoundComplete (postBlinds newEngine) = false) by (vm_compute; reflexivity).
  split; [exact H|]. exact (moveToNextPlayer_passes_turn _ H).
Defined.

(** *** Bets after an action *)

(** X11: when every seat's current bet is 0 (as after the bet reset
    of [completeBettingRound], which starts the flop, turn and river
    rounds), a single fold, check or call by any seat already makes
    [isBettingRoundComplete] hold: such a round ends after its first
    action unless that action is a raise. *)
Theorem non_raise_on_zero_bets_ends_round s i a amount :
  (forall p, In p (players s) -> Player.currentBet p == 0) -> a <> Raise ->
  isBettingRoundComplete (executePlayerAction s i a amount) = true.
Proof.
  intros H0 Ha. apply complete_when_bets_settled.
  assert (Hs : forall p, In p (players s) ->
            Player.currentBet p <= 0 /\ (Player.currentBet p == 0 \/ Player.isAllIn p = true)).
  { intros p Hp. specialize (H0 p Hp). split; [lra | left; exact H0]. }
  unfold executePlayerAction.
  destruct (nth_error (players s) i) as [x|] eqn:Ex; [|exact Hs].
  destruct (getCurrentBet s) as [m|] eqn:Em; [|exact Hs].
  assert (Hm : m == 0).
  { destruct (getCurrentBet_spec s m Em) as [[q [Hq Eq]] _]. rewrite <- Eq. apply H0, Hq. }
  pose proof (H0 x (nth_error_In _ _ Ex)) as Hx.
  destruct a; [| exact Hs | | congruence]; cbn [players withPot withPlayers];
    intros p Hp; destruct (In_updateAt _ _ _ _ _ Ex Hp) as [Hp' | ->]; try exact (Hs p Hp').
  - unfold foldSeat. cbn [Player.currentBet Player.isAllIn]. exact (Hs x (nth_error_In _ _ Ex)).
  - unfold commitChips. cbn [Player.currentBet Player.isAllIn].
    destruct (Q.min_spec (m - Player.currentBet x) (Player.chips x)) as [[Hlt Emin]|[Hle Emin]].
    + split; [lra | left; lra].
    + split; [lra | right].
      assert (E : Qeq_bool (Player.chips x - Qmin (m - Player.currentBet x) (Player.chips x)) 0
                  = true) by (apply Qeq_bool_iff; rewrite Emin; ring).
      rewrite E. reflexivity.
Qed.

Lemma non_raise_on_zero_bets_ends_round_witness :
  (forall p, In p (players (resetBets (postBlinds newEngine))) ->
     Player.currentBet p == 0) /\
  isBettingRoundComplete
    (executePlayerAction (resetBets (postBlinds newEngine)) 0 Call 0) = true.
Proof.
  assert (H : forall p, In p (players (resetBets (postBlinds newEngine))) ->
                Player.currentBet p == 0).
  { intros p Hp. simpl in Hp.
    repeat (destruct Hp as [<-|Hp]; [reflexivity|]). destruct Hp. }
  split; [exact H|]. apply (non_raise_on_zero_bets_ends_round _ 0 Call 0 H). discriminate.
Defined.

(** X12: a call by a seat with a non-negative stack leaves that seat
    with a non-negative stack and either matching the highest current
    bet or all in with an empty stack, and it leaves the highest current
    bet unchanged. *)
Theorem call_matches_highest_bet s i p m amount :
  nth_error (players s) i = Some p -> getCurrentBet s = Some m -> 0 <= Player.chips p ->
  exists p',
    nth_error (players (executePlayerAction s i Call amount)) i = Some p' /\
    0 <= Player.chips p' /\
    (Player.currentBet p' == m \/ (Player.chips p' == 0 /\ Player.isAllIn p' = true)) /\
    exists m', getCurrentBet (executePlayerAction s i Call amount) = Some m' /\ m' == m.
Proof.
  intros Ep Em Hc.
  destruct (getCurrentBet_spec s m Em) as [[q [Hq Eq]] Hup].
  pose proof (Hup p (nth_error_In _ _ Ep)) as Hpm.
  set (a := Qmin (m - Player.currentBet p) (Player.chips p)).
  assert (Hcase : (a == m - Player.currentBet p /\ m - Player.currentBet p <= Player.chips p) \/
                  (a == Player.chips p /\ Player.chips p <= m - Player.currentBet p)).
  { unfold a. destruct (Q.min_spec (m - Player.currentBet p) (Player.chips p))
      as [[H1 H2]|[H1 H2]]; [left; split; lra | right; split; lra]. }
  assert (Ex : executePlayerAction s i Call amount =
               withPot (withPlayers s (updateAt i (commitChips a) (players s))) (pot s + a))
    by (unfold executePlayerAction; rewrite Ep, Em; reflexivity).
  rewrite Ex. cbn [players withPot withPlayers].
  assert (Ep' : nth_error (updateAt i (commitChips a) (players s)) i = Some (commitChips a p))
    by (apply nth_updateAt_same, Ep).
  exists (commitChips a p). split; [exact Ep'|].
  unfold commitChips at 1 2 3. cbn [Player.currentBet Player.isAllIn Player.chips].
  split; [destruct Hcase as [[H1 H2]|[H1 H2]]; lra|]. split.
  - destruct Hcase as [[H1 H2]|[H1 H2]]; [left; lra | right].
    assert (E : Qeq_bool (Player.chips p - a) 0 = true) by (apply Qeq_bool_iff; lra).
    split; [lra|]. unfold commitChips. cbn [Player.isAllIn]. rewrite E. reflexivity.
  - set (s' := withPot (withPlayers s (updateAt i (commitChips a) (players s))) (pot s + a)).
    assert (Hne : players s' <> []).
    { unfold s'. cbn [players withPot withPlayers]. intro E. rewrite E in Ep'. destruct i; discriminate. }
    destruct (getCurrentBet_some s' Hne) as [m' Hm'].
    destruct (getCurrentBet_spec s' m' Hm') as [[q' [Hq' Eq']] Hup'].
    unfold s' in Hq', Hup'. cbn [players withPot withPlayers] in Hq', Hup'.
    exists m'. split; [exact Hm'|]. apply Qle_antisym.
    + rewrite <- Eq'. destruct (In_updateAt _ _ _ _ _ Ep Hq') as [Hq'' | ->].
      * apply Hup, Hq''.
      * unfold commitChips. cbn [Player.currentBet]. destruct Hcase as [[H1 H2]|[H1 H2]]; lra.
    + destruct (Qeq_dec (Player.currentBet p + a) m) as [E|NE].
      * rewrite <- E. apply (Hup' (commitChips a p)). apply (nth_error_In _ _ Ep').
      * assert (Hqp : q <> p).
        { intros ->. apply NE. destruct Hcase as [[H1 H2]|[H1 H2]]; lra. }
        rewrite <- Eq. apply Hup'. exact (In_updateAt_other _ _ _ _ _ Ep Hq Hqp).
Qed.

Lemma call_matches_highest_bet_witness :
  nth_error (players (postBlinds newEngine)) 0 = Some (Player.mk 0 1000 [] 0 0 false true false false) /\
  getCurrentBet (postBlinds newEngine) = Some 10 /\
  0 <= Player.chips (Player.mk 0 1000 [] 0 0 false true false false) /\
  exists p',
    nth_error (players (executePlayerAction (postBlinds newEngine) 0 Call 0)) 0 = Some p' /\
    0 <= Player.chips p' /\
    (Player.currentBet p' == 10 \/ (Player.chips p' == 0 /\ Player.isAllIn p' = true)) /\
    exists m', getCurrentBet (executePlayerAction (postBlinds newEngine) 0 Call 0) = Some m' /\
               m' == 10.
Proof.
  assert (H1 : nth_error (players (postBlinds newEngine)) 0 =
               Some (Player.mk 0 1000 [] 0 0 false true false false)) by reflexivity.
  assert (H2 : getCurrentBet (postBlinds newEngine) = Some 10) by reflexivity.
  assert (H3 : 0 <= Player.chips (Player.mk 0 1000 [] 0 0 false true false false))
    by (unfold Qle; simpl; lia).
  split; [exact H1|]. split; [exact H2|]. split; [exact H3|].
  exact (call_matches_highest_bet _ 0 _ 10 0 H1 H2 H3).
Defined.

(** *** Stacks stay non-negative *)

(** X13: if no stack is negative, none becomes negative through any
    player action (whatever the raise amount), through [postBlinds] or
    through the bet reset: a seat never pays more than its stack.  With
    a pot that is not negative either, none becomes negative through
    [completeBettingRound], [moveToNextPlayer], [advanceGamePhase] or
    [startBettingRound], which move no chips short of a showdown, where
    the pot or equal non-negative shares of it are added to stacks. *)
Theorem stacks_stay_nonnegative s :
  stacksNonneg (players s) ->
  (forall i a amount, stacksNonneg (players (executePlayerAction s i a amount))) /\
  stacksNonneg (players (postBlinds s)) /\
  stacksNonneg (players (resetBets s)) /\
  (0 <= pot s -> forall s', completeBettingRound s = Some s' -> stacksNonneg (players s')) /\
  (0 <= pot s -> forall s', moveToNextPlayer s = Some s' -> stacksNonneg (players s')) /\
  (0 <= pot s -> forall s', advanceGamePhase s = Some s' -> stacksNonneg (players s')) /\
  (0 <= pot s -> forall s', startBettingRound s = Some s' -> stacksNonneg (players s')).
Proof.
  intro H. split; [|split; [|split; [|split; [|split; [|split]]]]].
  - intros i a amount. unfold executePlayerAction.
    destruct (nth_error (players s) i) as [x|] eqn:Ex; [|exact H].
    destruct (getCurrentBet s) as [m|]; [|exact H].
    destruct a; cbn [players withPot withPlayers]; try exact H;
      apply (stacksNonneg_updateAt _ _ _ x H Ex); try apply commitChips_min_nonneg.
    unfold foldSeat. cbn [Player.chips]. apply H, (nth_error_In _ _ Ex).
  - unfold postBlinds. destruct (_ <? 2)%nat; [exact H|].
    cbn [players withIndex]. apply postBlind_nonneg, postBlind_nonneg, H.
  - exact (calm_stacks _ _ (calm_resetBets s) H).
  - intros Hp s' E. exact (calm_nonneg _ _ (completeBettingRound_calm _ _ E) H Hp).
  - intros Hp s' E. exact (calm_nonneg _ _ (moveToNextPlayer_calm _ _ E) H Hp).
  - intros Hp s' E. exact (calm_nonneg _ _ (advanceGamePhase_calm _ _ E) H Hp).
  - intros Hp s' E. exact (calm_nonneg _ _ (startBettingRound_calm _ _ E) H Hp).
Qed.

Lemma stacks_stay_nonnegative_witness :
  stacksNonneg (players newEngine) /\
  (forall i a amount, stacksNonneg (players (executePlayerAction newEngine i a amount))) /\
  stacksNonneg (players (postBlinds newEngine)) /\
  stacksNonneg (players (resetBets newEngine)) /\
  (0 <= pot newEngine -> forall s', completeBettingRound newEngine = Some s' ->
     stacksNonneg (players s')) /\
  (0 <= pot newEngine -> forall s', moveToNextPlayer newEngine = Some s' ->
     stacksNonneg (players s')) /\
  (0 <= pot newEngine -> forall s', advanceGamePhase newEngine = Some s' ->
     stacksNonneg (players s')) /\
  (0 <= pot newEngine -> forall s', startBettingRound newEngine = Some s' ->
     stacksNonneg (players s')).
Proof.
  assert (H : stacksNonneg (players newEngine)).
  { intros p Hp. simpl in Hp.
    repeat (destruct Hp as [<-|Hp]; [unfold Qle; simpl; lia|]). destruct Hp. }
  split; [exact H|]. exact (stacks_stay_nonnegative _ H).
Defined.

(** *** Raises and blinds *)

(** X20: a raise by [x >= 0] from a seat whose stack covers the call
    plus [x] brings that seat's bet to the highest bet plus [x], takes
    exactly that difference from its stack into the pot, and makes
    [m + x] the new highest bet. *)
Theorem raise_sets_highest_bet s i p m x :
  nth_error (players s) i = Some p -> getCurrentBet s = Some m -> 0 <= x ->
  m - Player.currentBet p + x <= Player.chips p ->
  exists p',
    nth_error (players (executePlayerAction s i Raise x)) i = Some p' /\
    Player.currentBet p' == m + x /\
    Player.chips p' == Player.chips p - (m - Player.currentBet p + x) /\
    pot (executePlayerAction s i Raise x) == pot s + (m - Player.currentBet p + x) /\
    exists m', getCurrentBet (executePlayerAction s i Raise x) = Some m' /\ m' == m + x.
Proof.
  intros Ep Em Hx Hc.
  destruct (getCurrentBet_spec s m Em) as [_ Hup].
  set (a := Qmin (m - Player.currentBet p + x) (Player.chips p)).
  assert (Ha : a == m - Player.currentBet p + x) by (apply Q.min_l; exact Hc).
  assert (Ex : executePlayerAction s i Raise x =
               withPot (withPlayers s (updateAt i (commitChips a) (players s))) (pot s + a))
    by (unfold executePlayerAction; rewrite Ep, Em; reflexivity).
  rewrite Ex. cbn [players pot withPot withPlayers].
  assert (Ep' : nth_error (updateAt i (commitChips a) (players s)) i = Some (commitChips a p))
    by (apply nth_updateAt_same, Ep).
  assert (Hbet : Player.currentBet (commitChips a p) == m + x)
    by (unfold commitChips; cbn [Player.currentBet]; lra).
  exists (commitChips a p). split; [exact Ep'|]. split; [exact Hbet|].
  split; [unfold commitChips; cbn [Player.chips]; lra|]. split; [lra|].
  set (s' := withPot (withPlayers s (updateAt i (commitChips a) (players s))) (pot s + a)).
  assert (Hne : players s' <> []).
  { unfold s'. cbn [players withPot withPlayers]. intro E. rewrite E in Ep'. destruct i; discriminate. }
  destruct (getCurrentBet_some s' Hne) as [m' Hm'].
  destruct (getCurrentBet_spec s' m' Hm') as [[q' [Hq' Eq']] Hup'].
  unfold s' in Hq', Hup'. cbn [players withPot withPlayers] in Hq', Hup'.
  exists m'. split; [exact Hm'|]. apply Qle_antisym.
  - rewrite <- Eq'. destruct (In_updateAt _ _ _ _ _ Ep Hq') as [Hq'' | ->].
    + pose proof (Hup _ Hq''). lra.
    + rewrite Hbet. apply Qle_refl.
  - rewrite <- Hbet. apply Hup'. exact (nth_error_In _ _ Ep').
Qed.

Lemma raise_sets_highest_bet_witness :
  nth_error (players (postBlinds newEngine)) 0 = Some (Player.mk 0 1000 [] 0 0 false true false false) /\
  getCurrentBet (postBlinds newEngine) = Some 10 /\ 0 <= 20 /\
  10 - Player.currentBet (Player.mk 0 1000 [] 0 0 false true false false) + 20 <=
    Player.chips (Player.mk 0 1000 [] 0 0 false true false false) /\
  exists p',
    nth_error (players (executePlayerAction (postBlinds newEngine) 0 Raise 20)) 0 = Some p' /\
    Player.currentBet p' == 10 + 20 /\
    Player.chips p' == Player.chips (Player.mk 0 1000 [] 0 0 false true false false) -
      (10 - Player.currentBet (Player.mk 0 1000 [] 0 0 false true false false) + 20) /\
    pot (executePlayerAction (postBlinds newEngine) 0 Raise 20) ==
      pot (postBlinds newEngine) +
      (10 - Player.currentBet (Player.mk 0 1000 [] 0 0 false true false false) + 20) /\
    exists m', getCurrentBet (executePlayerAction (postBlinds newEngine) 0 Raise 20) = Some m' /\
               m' == 10 + 20.
Proof.
  assert (H1 : nth_error (players (postBlinds newEngine)) 0 =
               Some (Player.mk 0 1000 [] 0 0 false true false false)) by reflexivity.
  assert (H2 : getCurrentBet (postBlinds newEngine) = Some 10) by reflexivity.
  assert (H3 : 0 <= 20) by lra.
  assert (H4 : 10 - Player.currentBet (Player.mk 0 1000 [] 0 0 false true false false) + 20 <=
               Player.chips (Player.mk 0 1000 [] 0 0 false true false false)) by (cbn; lra).
  split; [exact H1|]. split; [exact H2|]. split; [exact H3|]. split; [exact H4|].
  exact (raise_sets_highest_bet _ 0 _ 10 20 H1 H2 H3 H4).
Defined.

Lemma postBlind_effect s idx b p :
  nth_error (players s) idx = Some p ->
  nth_error (players (postBlind s idx b)) idx =
    Some (if Player.isActive p then postBlindBy (Qmin b (Player.chips p)) p else p) /\
  (forall j, j <> idx -> nth_error (players (postBlind s idx b)) j = nth_error (players s) j) /\
  pot (postBlind s idx b) ==
    pot s + (if Player.isActive p then Qmin b (Player.chips p) else 0) /\
  length (players (postBlind s idx b)) = length (players s) /\
  dealerPosition (postBlind s idx b) = dealerPosition s /\
  bigBlind (postBlind s idx b) = bigBlind s.
Proof.
  intro Ep. unfold postBlind. rewrite Ep.
  destruct (Player.isActive p); cbn [players pot withPot withPlayers dealerPosition bigBlind].
  - split; [apply nth_updateAt_same, Ep|]. split.
    + intros j Hj. apply nth_updateAt_other. intro E. apply Hj. symmetry. exact E.
    + split; [apply Qeq_refl|]. split; [apply updateAt_length|]. split; reflexivity.
  - split; [exact Ep|]. split; [reflexivity|]. split; [lra|]. repeat split.
Qed.

(** X21: with at least two active seats, [postBlinds] makes the seats
    one and two places after the dealer post the small and the big
    blind when they are active, each capped by its stack: the amount
    becomes the seat's current bet (replacing it) and leaves its stack;
    an inactive seat posts nothing and is unchanged.  No other seat
    changes, the pot grows by the amounts posted, and the turn goes to
    the seat three places after the dealer. *)
Theorem postBlinds_posts s psb pbb :
  (2 <= length (filter Player.isActive (players s)))%nat ->
  nth_error (players s) ((dealerPosition s + 1) mod length (players s))%nat = Some psb ->
  nth_error (players s) ((dealerPosition s + 2) mod length (players s))%nat = Some pbb ->
  exists qsb qbb,
    nth_error (players (postBlinds s)) ((dealerPosition s + 1) mod length (players s))%nat = Some qsb /\
    nth_error (players (postBlinds s)) ((dealerPosition s + 2) mod length (players s))%nat = Some qbb /\
    (Player.isActive psb = true ->
       Player.currentBet qsb = Qmin (smallBlind s) (Player.chips psb) /\
       Player.chips qsb = Player.chips psb - Qmin (smallBlind s) (Player.chips psb)) /\
    (Player.isActive psb = false -> qsb = psb) /\
    (Player.isActive pbb = true ->
       Player.currentBet qbb = Qmin (bigBlind s) (Player.chips pbb) /\
       Player.chips qbb = Player.chips pbb - Qmin (bigBlind s) (Player.chips pbb)) /\
    (Player.isActive pbb = false -> qbb = pbb) /\
    (forall j, j <> ((dealerPosition s + 1) mod length (players s))%nat ->
               j <> ((dealerPosition s + 2) mod length (players s))%nat ->
               nth_error (players (postBlinds s)) j = nth_error (players s) j) /\
    pot (postBlinds s) ==
      pot s + (if Player.isActive psb then Qmin (smallBlind s) (Player.chips psb) else 0)
            + (if Player.isActive pbb then Qmin (bigBlind s) (Player.chips pbb) else 0) /\
    currentPlayerIndex (postBlinds s) = ((dealerPosition s + 3) mod length (players s))%nat.
Proof.
  intros Hact Esb Ebb.
  set (n := length (players s)) in *.
  set (sb := ((dealerPosition s + 1) mod n)%nat) in *.
  set (bb := ((dealerPosition s + 2) mod n)%nat) in *.
  assert (Hn : (2 <= n)%nat)
    by (unfold n; pose proof (filter_length_le' Player.isActive (players s)); lia).
  assert (Hne : sb <> bb).
  { unfold sb, bb. replace (dealerPosition s + 2)%nat with (dealerPosition s + 1 + 1)%nat by lia.
    intro E. symmetry in E. revert E. apply mod_step_ne. lia. }
  assert (E : postBlinds s =
              withIndex (postBlind (postBlind s sb (smallBlind s)) bb (bigBlind s))
                        ((dealerPosition s + 3) mod n)%nat).
  { unfold postBlinds.
    destruct (Nat.ltb_spec (length (filter Player.isActive (players s))) 2); [lia|].
    reflexivity. }
  rewrite E. clear E.
  set (s1 := postBlind s sb (smallBlind s)).
  destruct (postBlind_effect s sb (smallBlind s) psb Esb) as (A1 & B1 & C1 & _ & _ & G1).
  fold s1 in A1, B1, C1, G1.
  assert (Ebb1 : nth_error (players s1) bb = Some pbb)
    by (rewrite B1 by (apply not_eq_sym, Hne); exact Ebb).
  destruct (postBlind_effect s1 bb (bigBlind s1) pbb Ebb1) as (A2 & B2 & C2 & _ & _ & _).
  rewrite G1 in A2, B2, C2.
  cbn [players pot currentPlayerIndex withIndex].
  exists (if Player.isActive psb then postBlindBy (Qmin (smallBlind s) (Player.chips psb)) psb
          else psb),
         (if Player.isActive pbb then postBlindBy (Qmin (bigBlind s) (Player.chips pbb)) pbb
          else pbb).
  split; [rewrite B2 by exact Hne; exact A1|]. split; [exact A2|].
  split; [intro Ha; rewrite Ha; split; reflexivity|].
  split; [intro Ha; rewrite Ha; reflexivity|].
  split; [intro Ha; rewrite Ha; split; reflexivity|].
  split; [intro Ha; rewrite Ha; reflexivity|].
  split; [|split; [rewrite C2, C1; apply Qeq_refl | reflexivity]].
  intros j H1 H2. rewrite B2 by exact H2. apply B1, H1.
Qed.

(** The table of [newEngine] where the seat after the dealer has no
    chips left and sits out. *)
Definition bustedTable : Engine :=
  mkEngine createDeck []
    [Player.mk 0 1000 [] 0 0 false true false false;
     Player.mk 1 0 [] 0 0 true false false false;
     Player.mk 2 1000 [] 0 0 true true false false] 0 0 5 10 0 preflop.

Lemma postBlinds_posts_witness :
  (2 <= length (filter Player.isActive (players bustedTable)))%nat /\
  nth_error (players bustedTable)
    ((dealerPosition bustedTable + 1) mod length (players bustedTable))%nat =
    Some (Player.mk 1 0 [] 0 0 true false false false) /\
  nth_error (players bustedTable)
    ((dealerPosition bustedTable + 2) mod length (players bustedTable))%nat =
    Some (Player.mk 2 1000 [] 0 0 true true false false) /\
  exists qsb qbb,
    nth_error (players (postBlinds bustedTable))
      ((dealerPosition bustedTable + 1) mod length (players bustedTable))%nat = Some qsb /\
    nth_error (players (postBlinds bustedTable))
      ((dealerPosition bustedTable + 2) mod length (players bustedTable))%nat = Some qbb /\
    (Player.isActive (Player.mk 1 0 [] 0 0 true false false false) = true ->
       Player.currentBet qsb = Qmin (smallBlind bustedTable) 0 /\
       Player.chips qsb = 0 - Qmin (smallBlind bustedTable) 0) /\
    (Player.isActive (Player.mk 1 0 [] 0 0 true false false false) = false ->
       qsb = Player.mk 1 0 [] 0 0 true false false false) /\
    (Player.isActive (Player.mk 2 1000 [] 0 0 true true false false) = true ->
       Player.currentBet qbb = Qmin (bigBlind bustedTable) 1000 /\
       Player.chips qbb = 1000 - Qmin (bigBlind bustedTable) 1000) /\
    (Player.isActive (Player.mk 2 1000 [] 0 0 true true false false) = false ->
       qbb = Player.mk 2 1000 [] 0 0 true true false false) /\
    (forall j, j <> ((dealerPosition bustedTable + 1) mod length (players bustedTable))%nat ->
               j <> ((dealerPosition bustedTable + 2) mod length (players bustedTable))%nat ->
               nth_error (players (postBlinds bustedTable)) j =
               nth_error (players bustedTable) j) /\
    pot (postBlinds bustedTable) ==
      pot bustedTable + 0 + Qmin (bigBlind bustedTable) 1000 /\
    currentPlayerIndex (postBlinds bustedTable) =
      ((dealerPosition bustedTable + 3) mod length (players bustedTable))%nat.
Proof.
  assert (H1 : (2 <= length (filter Player.isActive (players bustedTable)))%nat)
    by (cbn; lia).
  assert (H2 : nth_error (players bustedTable)
                 ((dealerPosition bustedTable + 1) mod length (players bustedTable))%nat =
               Some (Player.mk 1 0 [] 0 0 true false false false)) by reflexivity.
  assert (H3 : nth_error (players bustedTable)
                 ((dealerPosition bustedTable + 2) mod length (players bustedTable))%nat =
               Some (Player.mk 2 1000 [] 0 0 true true false false)) by reflexivity.
  split; [exact H1|]. split; [exact H2|]. split; [exact H3|].
  exact (postBlinds_posts _ _ _ H1 H2 H3).
Defined.

End PokerEngineMore.

(** ** PokerAI: statistics and the shape of decisions *)
Module PokerAIMore.
Import JS HandEvaluator PokerAI PokerAIFacts.
Local Open Scope Q_scope.

(** [arr.slice(-n)] for [n > 0]: the last [n] elements, or all of them. *)
Definition lastN {A} (n : nat) (l : list A) : list A := skipn (length l - n) l.

(** One call of [updateModels]: the decision, the hand strength and the
    game state it was made in. *)
Definition entryOf (x : Decision * Q * GameState) : HistoryEntry :=
  let '(d, hs, gs) := x in mkHistoryEntry (action d) hs (gamePhase gs) (pot gs).

Definition runModels (m : Models) (xs : list (Decision * Q * GameState)) : Models :=
  fold_left (fun m x => let '(d, hs, gs) := x in updateModels m d hs gs) xs m.

Definition isNonFold (x : Decision * Q * GameState) : bool :=
  let '(d, _, _) := x in negb (Action_eqb (action d) Fold).
Definition isRaise (x : Decision * Q * GameState) : bool :=
  let '(d, _, _) := x in Action_eqb (action d) Raise.

Lemma lastN_length {A} n (l : list A) : (length (lastN n l) <= n)%nat.
Proof. unfold lastN. rewrite length_skipn. lia. Qed.

Lemma lastN_short {A} n (l : list A) : (length l <= n)%nat -> lastN n l = l.
Proof. intro H. unfold lastN. replace (length l - n)%nat with 0%nat by lia. reflexivity. Qed.

Lemma lastN_app_idem {A} n (l r : list A) : lastN n (lastN n l ++ r) = lastN n (l ++ r).
Proof.
  unfold lastN.
  assert (E : skipn (length l - n) l ++ r = skipn (length l - n) (l ++ r)).
  { rewrite skipn_app. replace (length l - n - length l)%nat with 0%nat by lia. reflexivity. }
  rewrite E, length_skipn, skipn_skipn, length_app. f_equal. lia.
Qed.

Lemma updateModels_history m d hs gs :
  handHistory (updateModels m d hs gs) = lastN 50 (handHistory m ++ [entryOf (d, hs, gs)]).
Proof.
  unfold updateModels. cbn [handHistory entryOf].
  match goal with |- context [(50 <? ?L)%nat] => destruct (Nat.ltb_spec 50 L) end.
  - reflexivity.
  - symmetry. apply lastN_short. assumption.
Qed.

Lemma runModels_history m xs :
  (length (handHistory m) <= 50)%nat ->
  handHistory (runModels m xs) = lastN 50 (handHistory m ++ map entryOf xs).
Proof.
  revert m; induction xs as [|[[d hs] gs] xs IH]; intros m Hm.
  - rewrite app_nil_r. symmetry. apply lastN_short, Hm.
  - change (runModels m ((d, hs, gs) :: xs)) with (runModels (updateModels m d hs gs) xs).
    rewrite IH.
    + rewrite updateModels_history, lastN_app_idem, <- app_assoc. reflexivity.
    + rewrite updateModels_history. apply lastN_length.
Qed.

Lemma runModels_stats m xs :
  handsPlayed (sessionStats (runModels m xs)) = (handsPlayed (sessionStats m) + length xs)%nat /\
  vpipActual (sessionStats (runModels m xs)) =
    (vpipActual (sessionStats m) + length (filter isNonFold xs))%nat /\
  aggressionActual (sessionStats (runModels m xs)) =
    (aggressionActual (sessionStats m) + length (filter isRaise xs))%nat.
Proof.
  revert m; induction xs as [|[[d hs] gs] xs IH]; intro m.
  - cbn. lia.
  - change (runModels m ((d, hs, gs) :: xs)) with (runModels (updateModels m d hs gs) xs).
    destruct (IH (updateModels m d hs gs)) as (H1 & H2 & H3). rewrite H1, H2, H3.
    unfold updateModels. cbn [sessionStats handsPlayed vpipActual aggressionActual].
    cbn [filter isNonFold isRaise length].
    destruct (action d); cbn; lia.
Qed.

Lemma filter_isRaise_le xs : (length (filter isRaise xs) <= length (filter isNonFold xs))%nat.
Proof.
  induction xs as [|[[d hs] gs] xs IH]; [simpl; lia|].
  cbn [filter isRaise isNonFold]. destruct (action d); cbn; lia.
Qed.

Lemma filter_length_bound {A} (f : A -> bool) l : (length (filter f l) <= length l)%nat.
Proof. induction l as [|x l IH]; simpl; [lia|]. destruct (f x); simpl; lia. Qed.

(** X14: after a fresh AI has made the decisions [xs], its statistics
    count them exactly: [handsPlayed] is their number, [vpipActual] the
    number of non-folds and [aggressionActual] the number of raises (so
    aggressionActual <= vpipActual <= handsPlayed), and [handHistory]
    holds the entries of the last 50 decisions, oldest first. *)
Theorem updateModels_counts_and_history xs :
  handsPlayed (sessionStats (runModels newModels xs)) = length xs /\
  vpipActual (sessionStats (runModels newModels xs)) = length (filter isNonFold xs) /\
  aggressionActual (sessionStats (runModels newModels xs)) = length (filter isRaise xs) /\
  (aggressionActual (sessionStats (runModels newModels xs)) <=
     vpipActual (sessionStats (runModels newModels xs)) <=
     handsPlayed (sessionStats (runModels newModels xs)))%nat /\
  handHistory (runModels newModels xs) = lastN 50 (map entryOf xs) /\
  (length (handHistory (runModels newModels xs)) <= 50)%nat.
Proof.
  destruct (runModels_stats newModels xs) as (H1 & H2 & H3).
  cbn [newModels sessionStats handsPlayed vpipActual aggressionActual] in H1, H2, H3.
  assert (Hh : handHistory (runModels newModels xs) = lastN 50 (map entryOf xs))
    by (apply (runModels_history newModels xs); simpl; lia).
  rewrite H1, H2, H3, Hh. split; [reflexivity|]. split; [reflexivity|]. split; [reflexivity|].
  split; [split; [apply filter_isRaise_le | apply filter_length_bound]|].
  split; [reflexivity | apply lastN_length].
Qed.

(** *** The steps of [makeDecision] *)

Lemma makeDecision_steps ai gs player rng k d k' :
  makeDecision ai gs player rng k = (Some d, k') ->
  exists hs po d1 k1 d2 k2 d3 k3 b k4,
    getHandStrength (Player.cards player) (communityCards gs) = Some hs /\
    getBaseDecision ai hs po (gamePhase gs) (currentBet gs - Player.currentBet player)
                    (Player.chips player) rng k = (d1, k1) /\
    po = (if Qltb 0 (currentBet gs - Player.currentBet player)
          then (currentBet gs - Player.currentBet player) /
               (pot gs + (currentBet gs - Player.currentBet player))
          else 0) /\
    applyPersonalityAdjustments ai d1 hs gs rng k1 = (d2, k2) /\
    applyDifficultyAdjustments ai d2 hs rng k2 = (d3, k3) /\
    shouldBluff ai gs hs rng k3 = (b, k4) /\
    d = (if b then fst (generateBluff gs player rng k4) else d3).
Proof.
  unfold makeDecision.
  destruct (getHandStrength (Player.cards player) (communityCards gs)) as [hs|] eqn:Ehs;
    [|unfold ret; discriminate].
  cbv zeta. unfold bind at 1.
  match goal with |- context [getBaseDecision ai hs ?po ?ph ?ca ?pc rng k] =>
    destruct (getBaseDecision ai hs po ph ca pc rng k) as [d1 k1] eqn:E1 end.
  unfold bind at 1.
  destruct (applyPersonalityAdjustments ai d1 hs gs rng k1) as [d2 k2] eqn:E2.
  unfold bind at 1.
  destruct (applyDifficultyAdjustments ai d2 hs rng k2) as [d3 k3] eqn:E3.
  unfold bind at 1.
  destruct (shouldBluff ai gs hs rng k3) as [b k4] eqn:E4.
  intro H. exists hs. eexists. exists d1, k1, d2, k2, d3, k3, b, k4.
  split; [reflexivity|]. split; [exact E1|]. split; [reflexivity|].
  split; [exact E2|]. split; [exact E3|].
  split; [exact E4|]. destruct b.
  - unfold bind, ret in H. destruct (generateBluff gs player rng k4) as [g k5].
    injection H as <- _. reflexivity.
  - unfold ret in H. injection H as <- _. reflexivity.
Qed.

Lemma generateBluff_bluff gs player rng k : isBluff (fst (generateBluff gs player rng k)) = true.
Proof. reflexivity. Qed.

Lemma Qltb_false x y : Qltb x y = false -> y <= x.
Proof.
  unfold Qltb. destruct (Qle_bool y x) eqn:E; [|discriminate]. intros _.
  apply Qle_bool_iff, E.
Qed.

Lemma shouldBluff_true ai gs hs rng k k' :
  shouldBluff ai gs hs rng k = (true, k') ->
  hs <= 0.7 /\ gamePhase gs <> preflop /\ analyzeBoardTexture (communityCards gs) = true /\
  (length (filter (fun p => Player.isActive p && negb (Player.isFolded p)) (players gs)) <= 3)%nat.
Proof.
  unfold shouldBluff.
  destruct (Qltb 0.7 hs) eqn:E1; [unfold ret; discriminate|].
  unfold bind, random. cbv beta iota.
  destruct (Qltb (bluffFreq (personality ai)) (rng k)); [unfold ret; discriminate|].
  cbv zeta.
  match goal with |- context [(2 <? ?x)%Z] => destruct (Z.ltb_spec 2 x) as [E3|E3] end;
    [unfold ret; discriminate|].
  unfold ret. intro H. injection H as H _. apply andb_prop in H as [Hb Hp].
  split; [exact (Qltb_false _ _ E1)|]. split.
  - destruct (gamePhase gs); discriminate.
  - split; [exact Hb | lia].
Qed.

(** X15: [makeDecision] returns a bluff only after the flop is dealt
    and only when the hand strength is at most 0.7, the board is scary
    ([analyzeBoardTexture]) and at most three seats (the deciding one
    included) are active and not folded. *)
Theorem bluff_only_when_conditions_hold ai gs player rng k d k' :
  makeDecision ai gs player rng k = (Some d, k') -> isBluff d = true ->
  exists hs,
    getHandStrength (Player.cards player) (communityCards gs) = Some hs /\ hs <= 0.7 /\
    gamePhase gs <> preflop /\ analyzeBoardTexture (communityCards gs) = true /\
    (length (filter (fun p => Player.isActive p && negb (Player.isFolded p)) (players gs))
       <= 3)%nat.
Proof.
  intros H Hb.
  destruct (makeDecision_steps _ _ _ _ _ _ _ H)
    as (hs & po & d1 & k1 & d2 & k2 & d3 & k3 & b & k4 & Ehs & E1 & Epo & E2 & E3 & E4 & Ed).
  destruct b.
  - exists hs. split; [exact Ehs|]. exact (shouldBluff_true _ _ _ _ _ _ E4).
  - exfalso. subst d.
    pose proof (getBaseDecision_not_bluff ai hs po (gamePhase gs)
                  (currentBet gs - Player.currentBet player) (Player.chips player) rng k) as B1.
    rewrite E1 in B1. cbn [fst] in B1.
    pose proof (applyPersonalityAdjustments_not_bluff ai d1 hs gs rng k1 B1) as B2.
    rewrite E2 in B2. cbn [fst] in B2.
    pose proof (applyDifficultyAdjustments_not_bluff ai d2 hs rng k2 B2) as B3.
    rewrite E3 in B3. cbn [fst] in B3. congruence.
Qed.

(** *** Decisions carry an amount exactly when they raise *)

Definition amountMatches (d : Decision) : bool :=
  match action d, amount d with
  | Raise, Some _ => true
  | Raise, None => false
  | _, Some _ => false
  | _, None => true
  end.

Lemma amountMatches_spec d : amountMatches d = true -> (amount d <> None <-> action d = Raise).
Proof.
  unfold amountMatches. destruct (action d), (amount d); intro H; try discriminate;
    split; congruence.
Qed.

Lemma getBaseDecision_amountMatches ai hs po ph ca pc rng k :
  amountMatches (fst (getBaseDecision ai hs po ph ca pc rng k)) = true.
Proof.
  unfold getBaseDecision, getPreflopDecision, checkOrCall, ret, bind, random.
  cbv beta iota zeta. split_branches; reflexivity.
Qed.

Lemma applyPersonalityAdjustments_amountMatches ai d hs gs rng k :
  amountMatches d = true ->
  amountMatches (fst (applyPersonalityAdjustments ai d hs gs rng k)) = true.
Proof.
  intro H. unfold applyPersonalityAdjustments, ret, bind, random.
  cbv beta iota zeta. split_branches; first [exact H | reflexivity].
Qed.

Lemma applyDifficultyAdjustments_amountMatches ai d hs rng k :
  amountMatches d = true ->
  amountMatches (fst (applyDifficultyAdjustments ai d hs rng k)) = true.
Proof.
  intro H. destruct d as [a am bl]. destruct a, am; try discriminate H;
    unfold applyDifficultyAdjustments, ret, bind, random;
    cbv beta iota zeta; cbn [amount action]; split_branches; reflexivity.
Qed.

Lemma generateBluff_amountMatches gs player rng k :
  amountMatches (fst (generateBluff gs player rng k)) = true.
Proof. reflexivity. Qed.

(** X16: every decision [makeDecision] returns has an [amount] exactly
    when its action is a raise; fold, check and call carry none. *)
Theorem makeDecision_amount_iff_raise ai gs player rng k d k' :
  makeDecision ai gs player rng k = (Some d, k') -> (amount d <> None <-> action d = Raise).
Proof.
  intro H. apply amountMatches_spec.
  destruct (makeDecision_steps _ _ _ _ _ _ _ H)
    as (hs & po & d1 & k1 & d2 & k2 & d3 & k3 & b & k4 & Ehs & E1 & Epo & E2 & E3 & E4 & Ed).
  subst d. destruct b; [apply generateBluff_amountMatches|].
  pose proof (getBaseDecision_amountMatches ai hs po (gamePhase gs)
                (currentBet gs - Player.currentBet player) (Player.chips player) rng k) as A1.
  rewrite E1 in A1. cbn [fst] in A1.
  pose proof (applyPersonalityAdjustments_amountMatches ai d1 hs gs rng k1 A1) as A2.
  rewrite E2 in A2. cbn [fst] in A2.
  pose proof (applyDifficultyAdjustments_amountMatches ai d2 hs rng k2 A2) as A3.
  rewrite E3 in A3. exact A3.
Qed.

(** *** Sizes of value raises after the flop *)

Definition raiseWithin (lo hi : Q) (d : Decision) : Prop :=
  match action d, amount d with
  | Raise, Some x => lo <= x <= hi
  | Raise, None => False
  | _, _ => True
  end.

Lemma getHandStrength_unit playerCards communityCards hs :
  Forall (fun c => (0 <= Card.value c <= 14)%Z) (playerCards ++ communityCards) ->
  getHandStrength playerCards communityCards = Some hs -> 0 <= hs <= 1.
Proof.
  intros Hv E. rewrite HandEvaluatorMore.getHandStrength_strengthOf in E.
  destruct (getBestFiveCardHand playerCards communityCards) as [h|] eqn:Eh; [|discriminate].
  destruct (HandEvaluatorMore.getBestFiveCardHand_bounded _ _ _ Hv Eh) as [Hr Hk].
  destruct (HandEvaluatorMore.strengthOf_bounds h Hr Hk) as (b & q & Hb & Hq & H1 & H2 & H3).
  destruct (HandEvaluatorMore.baseStrength_some _ Hr) as (b' & Hb' & H01).
  rewrite Hb in Hb'. injection Hb' as <-. rewrite Hq in E. injection E as <-. lra.
Qed.

Lemma createAI_shape name dl ai :
  createAI name dl = Some ai ->
  personality ai = PERSONALITIES name /\ 0.3 <= skillMod (difficulty ai) <= 1.
Proof.
  unfold createAI. destruct (DIFFICULTY_MODIFIERS dl) as [dm|] eqn:E; [|discriminate].
  cbn. intro H. injection H as <-. cbn [personality difficulty]. split; [reflexivity|].
  unfold DIFFICULTY_MODIFIERS in E.
  destruct dl as [|p|p]; try discriminate.
  do 3 (try (destruct p as [p|p|]); try discriminate); injection E as <-; cbn; lra.
Qed.

Lemma calculateRaiseSize_range name dl ai hs ph :
  createAI name dl = Some ai -> 0 <= hs <= 1 -> ph <> preflop ->
  1 <= calculateRaiseSize ai hs ph <= 2.413.
Proof.
  intros Hai Hhs Hph. destruct (createAI_shape _ _ _ Hai) as [Hp _].
  unfold calculateRaiseSize. rewrite Hp.
  destruct name, ph; try congruence; cbn [PERSONALITIES aggression]; lra.
Qed.

Lemma getBaseDecision_within name dl ai hs po ph ca pc rng k :
  createAI name dl = Some ai -> 0 <= hs <= 1 -> ph <> preflop ->
  raiseWithin 1 (2.413) (fst (getBaseDecision ai hs po ph ca pc rng k)).
Proof.
  intros Hai Hhs Hph. pose proof (calculateRaiseSize_range _ _ _ _ _ Hai Hhs Hph) as R.
  unfold getBaseDecision.
  destruct (Phase_eqb ph preflop) eqn:E; [destruct ph; discriminate || congruence|].
  unfold checkOrCall, ret. split_branches; cbn; tauto.
Qed.

Lemma applyPersonalityAdjustments_within name dl ai d hs gs rng k :
  createAI name dl = Some ai -> 0 <= hs <= 1 -> gamePhase gs <> preflop ->
  raiseWithin 1 (2.413) d ->
  raiseWithin 1 (2.413) (fst (applyPersonalityAdjustments ai d hs gs rng k)).
Proof.
  intros Hai Hhs Hph H.
  pose proof (calculateRaiseSize_range _ _ _ _ _ Hai Hhs Hph) as R.
  unfold applyPersonalityAdjustments, ret, bind, random.
  cbv beta iota zeta. split_branches; cbn [fst]; first [exact H | cbn; tauto].
Qed.

Lemma applyDifficultyAdjustments_within name dl ai d hs rng k :
  createAI name dl = Some ai ->
  raiseWithin 1 (2.413) d ->
  raiseWithin (0.65) (2.413) (fst (applyDifficultyAdjustments ai d hs rng k)).
Proof.
  intros Hai H. destruct (createAI_shape _ _ _ Hai) as [_ Hs].
  destruct d as [a am bl]. destruct a, am; unfold raiseWithin in H; cbn in H; try contradiction;
    unfold applyDifficultyAdjustments, ret, bind, random;
    cbv beta iota zeta; cbn [amount action]; split_branches; cbn; try tauto;
    first [lra | split; nra].
Qed.

(** X17: after the flop, a raise that is not a bluff, made by an AI from
    [createAI] on cards of values 0..14, has an amount between 0.65 and
    2.413 chips: [calculateRaiseSize] yields a size multiplier, at most
    (1 + 0.9) * (1 + 0.9 * 0.3), that is used as the chip amount itself,
    then scaled by 0.5 + skillMod * 0.5. *)
Theorem postflop_value_raise_size name dl ai gs player rng k d k' :
  createAI name dl = Some ai -> gamePhase gs <> preflop ->
  Forall (fun c => (0 <= Card.value c <= 14)%Z) (Player.cards player ++ communityCards gs) ->
  makeDecision ai gs player rng k = (Some d, k') ->
  isBluff d = false -> action d = Raise ->
  exists x, amount d = Some x /\ 0.65 <= x <= 2.413.
Proof.
  intros Hai Hph Hv H Hb Ha.
  destruct (makeDecision_steps _ _ _ _ _ _ _ H)
    as (hs & po & d1 & k1 & d2 & k2 & d3 & k3 & b & k4 & Ehs & E1 & Epo & E2 & E3 & E4 & Ed).
  destruct b.
  - rewrite Ed, generateBluff_bluff in Hb. discriminate.
  - subst d. pose proof (getHandStrength_unit _ _ _ Hv Ehs) as Hhs.
    pose proof (getBaseDecision_within name dl ai hs po (gamePhase gs)
                  (currentBet gs - Player.currentBet player) (Player.chips player) rng k
                  Hai Hhs Hph) as R1.
    rewrite E1 in R1. cbn [fst] in R1.
    pose proof (applyPersonalityAdjustments_within _ _ ai d1 hs gs rng k1 Hai Hhs Hph R1) as R2.
    rewrite E2 in R2. cbn [fst] in R2.
    pose proof (applyDifficultyAdjustments_within _ _ ai d2 hs rng k2 Hai R2) as R3.
    rewrite E3 in R3. cbn [fst] in R3.
    unfold raiseWithin in R3. rewrite Ha in R3.
    destruct (amount d3) as [x|]; [exists x; split; [reflexivity | exact R3] | contradiction].
Qed.

(** *** The AI always answers, and folds where it could check *)

(** X18: on cards whose values lie in 0..14, [makeDecision] always
    returns a decision: the hand strength lookup it starts with never
    fails there. *)
Theorem makeDecision_always_decides ai gs player rng k :
  Forall (fun c => (0 <= Card.value c <= 14)%Z) (Player.cards player ++ communityCards gs) ->
  exists d k', makeDecision ai gs player rng k = (Some d, k').
Proof.
  intro Hv.
  destruct (HandEvaluatorFacts.getBestFiveCardHand_some (Player.cards player) (communityCards gs))
    as [h Eh].
  destruct (HandEvaluatorMore.getBestFiveCardHand_bounded _ _ _ Hv Eh) as [Hr Hk].
  destruct (HandEvaluatorMore.strengthOf_bounds h Hr Hk) as (b & q & _ & Hq & _).
  assert (Ehs : getHandStrength (Player.cards player) (communityCards gs) = Some q)
    by (rewrite HandEvaluatorMore.getHandStrength_strengthOf, Eh; exact Hq).
  unfold makeDecision. rewrite Ehs. cbv zeta. unfold bind. cbv beta.
  repeat match goal with |- context [match ?t with (_, _) => _ end] => destruct t end.
  match goal with |- context [if ?b then _ else _] => destruct b end;
    [destruct (generateBluff gs player rng _)|]; unfold ret; eauto.
Qed.

Lemma getBaseDecision_fold name dl ai hs ph ca pc rng k :
  createAI name dl = Some ai -> ph <> preflop -> hs < callThreshold (personality ai) ->
  fst (getBaseDecision ai hs 0 ph ca pc rng k) = decide Fold.
Proof.
  intros Hai Hph Hlt. destruct (createAI_shape _ _ _ Hai) as [Hp _].
  assert (Hr : hs < raiseThreshold (personality ai))
    by (rewrite Hp in *; destruct name; cbn in *; lra).
  unfold getBaseDecision.
  destruct (Phase_eqb ph preflop) eqn:E; [destruct ph; discriminate || congruence|].
  destruct (Qle_bool (raiseThreshold (personality ai)) hs) eqn:E1;
    [apply Qle_bool_iff in E1; lra|].
  destruct (Qle_bool (callThreshold (personality ai)) hs) eqn:E2;
    [apply Qle_bool_iff in E2; lra|].
  reflexivity.
Qed.

Lemma applyPersonalityAdjustments_fold ai hs gs rng k :
  fst (applyPersonalityAdjustments ai (decide Fold) hs gs rng k) = decide Fold.
Proof.
  unfold applyPersonalityAdjustments, ret, bind, random. cbv beta iota zeta.
  cbn [decide action Action_eqb]. rewrite !andb_false_r. cbn [fst].
  split_branches; reflexivity.
Qed.

Lemma applyDifficultyAdjustments_fold ai hs rng k :
  hs <= 0.6 -> fst (applyDifficultyAdjustments ai (decide Fold) hs rng k) = decide Fold.
Proof.
  intro H. assert (E : Qltb 0.6 hs = false).
  { unfold Qltb. apply negb_false_iff, Qle_bool_iff, H. }
  unfold applyDifficultyAdjustments, ret, bind, random. cbv beta iota zeta.
  cbn [decide action Action_eqb andb amount]. rewrite E. split_branches; reflexivity.
Qed.

(** X19: after the flop, with nothing to call, an AI from [createAI]
    whose hand strength is below its call threshold folds instead of
    checking, unless it bluffs: the base strategy folds, and no later
    adjustment turns that fold into a check. *)
Theorem folds_when_check_is_free name dl ai gs player rng k d k' hs :
  createAI name dl = Some ai -> gamePhase gs <> preflop ->
  currentBet gs == Player.currentBet player ->
  getHandStrength (Player.cards player) (communityCards gs) = Some hs ->
  hs < callThreshold (personality ai) ->
  makeDecision ai gs player rng k = (Some d, k') -> isBluff d = false ->
  action d = Fold.
Proof.
  intros Hai Hph Hca Ehs Hlt H Hb.
  destruct (makeDecision_steps _ _ _ _ _ _ _ H)
    as (hs' & po & d1 & k1 & d2 & k2 & d3 & k3 & b & k4 & Ehs' & E1 & Epo & E2 & E3 & E4 & Ed).
  rewrite Ehs in Ehs'. injection Ehs' as <-.
  destruct b; [rewrite Ed, generateBluff_bluff in Hb; discriminate|]. subst d.
  assert (Hq : Qltb 0 (currentBet gs - Player.currentBet player) = false).
  { unfold Qltb. apply negb_false_iff, Qle_bool_iff. lra. }
  rewrite Hq in Epo. subst po.
  pose proof (getBaseDecision_fold name dl ai hs (gamePhase gs)
                (currentBet gs - Player.currentBet player) (Player.chips player) rng k
                Hai Hph Hlt) as F1.
  rewrite E1 in F1. cbn [fst] in F1. subst d1.
  pose proof (applyPersonalityAdjustments_fold ai hs gs rng k1) as F2.
  rewrite E2 in F2. cbn [fst] in F2. subst d2.
  assert (H6 : hs <= 0.6).
  { destruct (createAI_shape _ _ _ Hai) as [Hp _]. rewrite Hp in Hlt.
    destruct name; cbn in Hlt; lra. }
  pose proof (applyDifficultyAdjustments_fold ai hs rng k2 H6) as F3.
  rewrite E3 in F3. cbn [fst] in F3. subst d3. reflexivity.
Qed.

(** *** A suited board is scary *)

Section Tally.
Variable A : Type.
Variable eqb : A -> A -> bool.
Hypothesis eqb_iff : forall a b, eqb a b = true <-> a = b.

(** The total count a [tally] map holds for the key [x]. *)
Fixpoint tallyWeight (x : A) (m : list (A * nat)) : nat :=
  match m with
  | [] => 0
  | (y, c) :: t => ((if eqb x y then c else 0) + tallyWeight x t)%nat
  end.

Lemma tallyWeight_tally x z m :
  tallyWeight x (tally eqb z m) = (tallyWeight x m + (if eqb x z then 1 else 0))%nat.
Proof.
  induction m as [|[y c] t IH]; simpl.
  - destruct (eqb x z); lia.
  - destruct (eqb z y) eqn:E.
    + apply eqb_iff in E. subst y. simpl. destruct (eqb x z); lia.
    + simpl. rewrite IH. lia.
Qed.

Lemma tallyWeight_fold x l m :
  tallyWeight x (fold_left (fun m y => tally eqb y m) l m) =
  (tallyWeight x m + length (filter (eqb x) l))%nat.
Proof.
  revert m; induction l as [|y l IH]; intro m; simpl; [lia|].
  rewrite IH, tallyWeight_tally. destruct (eqb x y); simpl; lia.
Qed.

Lemma keys_tally_incl z m y : In y (map fst (tally eqb z m)) -> y = z \/ In y (map fst m).
Proof.
  induction m as [|[y' c] t IH]; simpl.
  - intros [<-|[]]. left; reflexivity.
  - destruct (eqb z y'); simpl.
    + intros [<-|H]; right; [left; reflexivity | right; exact H].
    + intros [<-|H]; [right; left; reflexivity|].
      destruct (IH H) as [E|E]; [left; exact E | right; right; exact E].
Qed.

Lemma keys_tally_NoDup z m : NoDup (map fst m) -> NoDup (map fst (tally eqb z m)).
Proof.
  induction m as [|[y c] t IH]; simpl; intro H.
  - constructor; [intros []|constructor].
  - inversion H as [|? ? Hy Ht]; subst.
    destruct (eqb z y) eqn:E; simpl; [exact H|].
    constructor; [|exact (IH Ht)].
    intro Hin. destruct (keys_tally_incl _ _ _ Hin) as [Ey|Ey]; [|exact (Hy Ey)].
    subst y. assert (eqb z z = true) by (apply eqb_iff; reflexivity). congruence.
Qed.

Lemma keys_fold_NoDup l m :
  NoDup (map fst m) -> NoDup (map fst (fold_left (fun m y => tally eqb y m) l m)).
Proof.
  revert m; induction l as [|y l IH]; intros m H; simpl; [exact H|].
  apply IH, keys_tally_NoDup, H.
Qed.

Lemma tallyWeight_absent x m : ~ In x (map fst m) -> tallyWeight x m = 0%nat.
Proof.
  induction m as [|[y c] t IH]; simpl; intro H; [reflexivity|].
  destruct (eqb x y) eqn:E.
  - apply eqb_iff in E. subst y. exfalso. apply H. left; reflexivity.
  - rewrite IH; [reflexivity|]. intro H'. apply H. right; exact H'.
Qed.

Lemma tallyWeight_le_max x m :
  NoDup (map fst m) -> (tallyWeight x m <= list_max (map snd m))%nat.
Proof.
  induction m as [|[y c] t IH]; simpl; intro H; [lia|].
  inversion H as [|? ? Hy Ht]; subst.
  destruct (eqb x y) eqn:E.
  - apply eqb_iff in E. subst y. rewrite (tallyWeight_absent x t Hy). lia.
  - specialize (IH Ht). lia.
Qed.

Lemma countAll_max x l :
  (length (filter (eqb x) l) <= list_max (map snd (countAll eqb l)))%nat.
Proof.
  unfold countAll.
  pose proof (tallyWeight_fold x l []) as E. simpl in E. rewrite <- E.
  apply tallyWeight_le_max, keys_fold_NoDup. constructor.
Qed.

End Tally.

Lemma Suit_eqb_iff a b : Suit_eqb a b = true <-> a = b.
Proof. destruct a, b; split; intro H; try reflexivity; discriminate. Qed.

(** X22: a board holding at least three cards of one suit is scary for
    [analyzeBoardTexture] (the flush-draw test [maxSuitCount >= 3]),
    whatever its ranks. *)
Theorem suited_board_is_scary communityCards st :
  (3 <= length (filter (fun c => Suit_eqb st (Card.suit c)) communityCards))%nat ->
  analyzeBoardTexture communityCards = true.
Proof.
  intro H.
  assert (Hlen : (3 <= length communityCards)%nat).
  { pose proof (PokerEngineMore.filter_length_le'
                  (fun c => Suit_eqb st (Card.suit c)) communityCards). lia. }
  unfold analyzeBoardTexture.
  destruct (Nat.ltb_spec (length communityCards) 3); [lia|]. cbv zeta.
  pose proof (countAll_max Suit Suit_eqb Suit_eqb_iff st (map Card.suit communityCards)) as M.
  replace (length (filter (Suit_eqb st) (map Card.suit communityCards)))
    with (length (filter (fun c => Suit_eqb st (Card.suit c)) communityCards)) in M
    by (clear; induction communityCards as [|c l IH]; simpl; [reflexivity|];
        destruct (Suit_eqb st (Card.suit c)); simpl; congruence).
  replace (3 <=? list_max (map snd (countAll Suit_eqb (map Card.suit communityCards))))%nat
    with true by (symmetry; apply Nat.leb_le; lia).
  reflexivity.
Qed.

(** *** Sample decisions *)

Definition maniacAI : t := mk (PERSONALITIES maniac) (mkDifficulty 0.7 0.15 0.6).

(** A flop of three hearts, and a seat holding nothing. *)
Definition bluffGs : GameState :=
  mkGameState [Card.mk 2 hearts; Card.mk 7 hearts; Card.mk 11 hearts] 100 0 [] flop (5, 10).
Definition bluffSeat : Player.t :=
  Player.mk 1 1000 [Card.mk 3 clubs; Card.mk 8 diamonds] 0 0 true true false false.
Definition bluffDecision : Decision := mkDecision Raise (Some 60.00) true.

(** A flop that gives the seat three nines. *)
Definition valueGs : GameState :=
  mkGameState [Card.mk 9 spades; Card.mk 4 diamonds; Card.mk 2 clubs] 100 0 [] flop (5, 10).
Definition valueSeat : Player.t :=
  Player.mk 1 1000 [Card.mk 9 hearts; Card.mk 9 clubs] 0 0 true true false false.
Definition valueRaise : Decision :=
  mkDecision Raise (Some (212715475000 # 140000000000)) false.

Lemma bluff_only_when_conditions_hold_witness :
  makeDecision maniacAI bluffGs bluffSeat (fun _ => 0) 0%nat = (Some bluffDecision, 4%nat) /\
  isBluff bluffDecision = true /\
  exists hs,
    getHandStrength (Player.cards bluffSeat) (communityCards bluffGs) = Some hs /\ hs <= 0.7 /\
    gamePhase bluffGs <> preflop /\ analyzeBoardTexture (communityCards bluffGs) = true /\
    (length (filter (fun p => Player.isActive p && negb (Player.isFolded p)) (players bluffGs))
       <= 3)%nat.
Proof.
  assert (H : makeDecision maniacAI bluffGs bluffSeat (fun _ => 0) 0%nat = (Some bluffDecision, 4%nat))
    by (vm_compute; reflexivity).
  assert (Hb : isBluff bluffDecision = true) by reflexivity.
  split; [exact H|]. split; [exact Hb|].
  exact (bluff_only_when_conditions_hold _ _ _ _ _ _ _ H Hb).
Defined.

Lemma makeDecision_amount_iff_raise_witness :
  makeDecision maniacAI bluffGs bluffSeat (fun _ => 0) 0%nat = (Some bluffDecision, 4%nat) /\
  (amount bluffDecision <> None <-> action bluffDecision = Raise).
Proof.
  assert (H : makeDecision maniacAI bluffGs bluffSeat (fun _ => 0) 0%nat = (Some bluffDecision, 4%nat))
    by (vm_compute; reflexivity).
  split; [exact H|]. exact (makeDecision_amount_iff_raise _ _ _ _ _ _ _ H).
Defined.

Lemma postflop_value_raise_size_witness :
  createAI maniac 3 = Some maniacAI /\ gamePhase valueGs <> preflop /\
  Forall (fun c => (0 <= Card.value c <= 14)%Z) (Player.cards valueSeat ++ communityCards valueGs) /\
  makeDecision maniacAI valueGs valueSeat (fun _ => 1 # 2) 0%nat = (Some valueRaise, 3%nat) /\
  isBluff valueRaise = false /\ action valueRaise = Raise /\
  exists x, amount valueRaise = Some x /\ 0.65 <= x <= 2.413.
Proof.
  assert (H1 : createAI maniac 3 = Some maniacAI) by reflexivity.
  assert (H2 : gamePhase valueGs <> preflop) by discriminate.
  assert (H3 : Forall (fun c => (0 <= Card.value c <= 14)%Z)
                 (Player.cards valueSeat ++ communityCards valueGs))
    by (repeat (apply Forall_cons; [cbn; lia|]); apply Forall_nil).
  assert (H4 : makeDecision maniacAI valueGs valueSeat (fun _ => 1 # 2) 0%nat = (Some valueRaise, 3%nat))
    by (vm_compute; reflexivity).
  assert (H5 : isBluff valueRaise = false) by reflexivity.
  assert (H6 : action valueRaise = Raise) by reflexivity.
  split; [exact H1|]. split; [exact H2|]. split; [exact H3|]. split; [exact H4|].
  split; [exact H5|]. split; [exact H6|].
  exact (postflop_value_raise_size _ _ _ _ _ _ _ _ _ H1 H2 H3 H4 H5 H6).
Defined.

(** A dry flop: no flush, straight or pair on the board. *)
Definition dryGs : GameState :=
  mkGameState [Card.mk 2 hearts; Card.mk 7 clubs; Card.mk 13 spades] 100 0 [] flop (5, 10).

Lemma makeDecision_always_decides_witness :
  Forall (fun c => (0 <= Card.value c <= 14)%Z) (Player.cards valueSeat ++ communityCards valueGs) /\
  exists d k', makeDecision maniacAI valueGs valueSeat (fun _ => 1 # 2) 0%nat = (Some d, k').
Proof.
  assert (H : Forall (fun c => (0 <= Card.value c <= 14)%Z)
                (Player.cards valueSeat ++ communityCards valueGs))
    by (repeat (apply Forall_cons; [cbn; lia|]); apply Forall_nil).
  split; [exact H|]. exact (makeDecision_always_decides _ _ _ _ _ H).
Defined.

Lemma folds_when_check_is_free_witness :
  createAI maniac 3 = Some maniacAI /\ gamePhase dryGs <> preflop /\
  currentBet dryGs == Player.currentBet bluffSeat /\
  getHandStrength (Player.cards bluffSeat) (communityCards dryGs) = Some (65 # 1400) /\
  65 # 1400 < callThreshold (personality maniacAI) /\
  makeDecision maniacAI dryGs bluffSeat (fun _ => 0) 0%nat = (Some (decide Fold), 3%nat) /\
  isBluff (decide Fold) = false /\
  action (decide Fold) = Fold.
Proof.
  assert (H1 : createAI maniac 3 = Some maniacAI) by reflexivity.
  assert (H2 : gamePhase dryGs <> preflop) by discriminate.
  assert (H3 : currentBet dryGs == Player.currentBet bluffSeat) by reflexivity.
  assert (H4 : getHandStrength (Player.cards bluffSeat) (communityCards dryGs) = Some (65 # 1400))
    by (vm_compute; reflexivity).
  assert (H5 : 65 # 1400 < callThreshold (personality maniacAI)) by (cbn; lra).
  assert (H6 : makeDecision maniacAI dryGs bluffSeat (fun _ => 0) 0%nat = (Some (decide Fold), 3%nat))
    by (vm_compute; reflexivity).
  assert (H7 : isBluff (decide Fold) = false) by reflexivity.
  split; [exact H1|]. split; [exact H2|]. split; [exact H3|]. split; [exact H4|].
  split; [exact H5|]. split; [exact H6|]. split; [exact H7|].
  exact (folds_when_check_is_free _ _ _ _ _ _ _ _ _ _ H1 H2 H3 H4 H5 H6 H7).
Defined.

Lemma suited_board_is_scary_witness :
  (3 <= length (filter (fun c => Suit_eqb hearts (Card.suit c)) (communityCards bluffGs)))%nat /\
  analyzeBoardTexture (communityCards bluffGs) = true.
Proof.
  assert (H : (3 <= length (filter (fun c => Suit_eqb hearts (Card.suit c))
                                   (communityCards bluffGs)))%nat) by (cbn; lia).
  split; [exact H|]. exact (suited_board_is_scary _ _ H).
Defined.

End PokerAIMore.
